(** * Resume field-extraction pipeline: a shallow embedding of
      [fixed_enhanced_resume_parser.py] (class [EnhancedResumeParser]).

    Python values are modelled as follows.
    - [str] is a list of Unicode code points ([char := N]).
    - The dict returned by [parse_resume] has a fixed key set and is the
      record [ParsedProfile]; [confidence_scores] is an insertion-ordered
      association list from key to an exact rational.
    - Exceptions ([Exception] subclasses) and logging are effects of the
      monad [M]: a computation maps the trace so far to a [result] and the
      extended trace.
    - The parts of the interpreter and of third-party libraries the module
      calls ([re], [str] methods, [int], [os.path.splitext], PyPDF2,
      python-docx, spaCy, the clock) are modelled in the sections below or
      taken from the [Runtime] record. *)

From Stdlib Require Import List String Ascii Bool Arith NArith ZArith QArith Lia.
From Stdlib Require Import DecimalString.
Import ListNotations.

Set Implicit Arguments.
Local Close Scope Q_scope.
Local Open Scope N_scope.

(* ================================================================== *)
(** ** Python [str] *)
(* ================================================================== *)

Definition char := N.
Definition str := list char.

Definition chr (a : ascii) : char := N_of_ascii a.

(** [u "abc"] is the [str] whose code points are the bytes of an ASCII
    literal. *)
Fixpoint u (s : string) : str :=
  match s with
  | EmptyString => []
  | String a s' => chr a :: u s'
  end.

Arguments u : simpl never.

Definition char_eqb (a b : char) : bool := N.eqb a b.

Fixpoint str_eqb (a b : str) : bool :=
  match a, b with
  | [], [] => true
  | x :: a', y :: b' => char_eqb x y && str_eqb a' b'
  | _, _ => false
  end.

(** Python truthiness of a [str] and of an [Optional[str]]. *)
Definition nonempty {A} (l : list A) : bool :=
  match l with [] => false | _ => true end.

Definition truthy (o : option str) : bool :=
  match o with Some s => nonempty s | None => false end.

Definition in_range (lo hi c : char) : bool := N.leb lo c && N.leb c hi.

(** [Py_UNICODE_ISSPACE]: the characters [str.strip()], [str.split()] and
    the regex class [\s] treat as whitespace. *)
Definition isspace (c : char) : bool :=
  in_range 9 13 c || in_range 28 32 c || N.eqb c 133 || N.eqb c 160
  || N.eqb c 5760 || in_range 8192 8202 c || N.eqb c 8232 || N.eqb c 8233
  || N.eqb c 8239 || N.eqb c 8287 || N.eqb c 12288.

Fixpoint lstrip (s : str) : str :=
  match s with
  | [] => []
  | c :: s' => if isspace c then lstrip s' else s
  end.

Definition rstrip (s : str) : str := rev (lstrip (rev s)).

(** [s.strip()] *)
Definition strip (s : str) : str := rstrip (lstrip s).

(** [s.split(sep)] for a one-character separator. *)
Fixpoint split_on (sep : char) (s : str) : list str :=
  match s with
  | [] => [[]]
  | c :: s' =>
      if char_eqb c sep then [] :: split_on sep s'
      else match split_on sep s' with
           | [] => [[c]]
           | w :: ws => (c :: w) :: ws
           end
  end.

(** [s.split()]: maximal runs of non-whitespace characters. *)
Fixpoint split_ws_aux (cur : str) (s : str) : list str :=
  match s with
  | [] => match cur with [] => [] | _ => [rev cur] end
  | c :: s' =>
      if isspace c
      then match cur with
           | [] => split_ws_aux [] s'
           | _ => rev cur :: split_ws_aux [] s'
           end
      else split_ws_aux (c :: cur) s'
  end.

Definition split_ws (s : str) : list str := split_ws_aux [] s.

(** [s.startswith(p)] *)
Fixpoint startswith (p s : str) : bool :=
  match p, s with
  | [], _ => true
  | x :: p', y :: s' => char_eqb x y && startswith p' s'
  | _ :: _, [] => false
  end.

(** [sub in s] *)
Fixpoint contains (sub s : str) : bool :=
  startswith sub s ||
  match s with
  | [] => false
  | _ :: s' => contains sub s'
  end.

(** [sep.join(parts)] *)
Fixpoint join (sep : str) (parts : list str) : str :=
  match parts with
  | [] => []
  | [p] => p
  | p :: ps => p ++ sep ++ join sep ps
  end.

(** Code-point order on [str], the order [sorted] uses. *)
Fixpoint str_leb (a b : str) : bool :=
  match a, b with
  | [], _ => true
  | _ :: _, [] => false
  | x :: a', y :: b' =>
      if N.ltb x y then true
      else if N.ltb y x then false
      else str_leb a' b'
  end.

Fixpoint insert_sorted (x : str) (l : list str) : list str :=
  match l with
  | [] => [x]
  | y :: l' => if str_leb x y then x :: l else y :: insert_sorted x l'
  end.

(** [sorted(l)] *)
Definition sorted (l : list str) : list str :=
  fold_right insert_sorted [] l.

(** A Python [set] of strings, kept as a duplicate-free list. *)
Definition set_mem (x : str) (s : list str) : bool := existsb (str_eqb x) s.
Definition set_add (x : str) (s : list str) : list str :=
  if set_mem x s then s else s ++ [x].

(** [str(n)] for an [int]. *)
Definition str_of_int (n : Z) : str :=
  match n with
  | Z0 => u "0"
  | Zpos p => u (NilEmpty.string_of_uint (Pos.to_uint p))
  | Zneg p => u "-" ++ u (NilEmpty.string_of_uint (Pos.to_uint p))
  end.

(* ================================================================== *)
(** ** The Unicode character database *)
(* ================================================================== *)

(** The tables of the interpreter's Unicode database that the module's
    calls consult.  They are data of the interpreter build, so the
    development is parametric in them; [ascii_ucd] below is their
    restriction to code points under 128. *)
Class UCD := {
  isdecimal : char -> bool;      (* category Nd: regex \d, int() *)
  todecimal : char -> N;         (* decimal value of an Nd character *)
  isalnum   : char -> bool;      (* regex \w is isalnum or '_' *)
  tolower1  : char -> char;      (* simple lower-case mapping (re.IGNORECASE) *)
  toupper1  : char -> char;      (* simple upper-case mapping *)
  casefixes : char -> list char; (* sre's extra case equivalences *)
  str_lower : str -> str;        (* str.lower() *)
  isupper_c : char -> bool;
  islower_c : char -> bool;
  istitle_c : char -> bool
}.

Definition ascii_upper (c : char) : bool := in_range 65 90 c.
Definition ascii_lower (c : char) : bool := in_range 97 122 c.
Definition ascii_digit (c : char) : bool := in_range 48 57 c.
Definition ascii_tolower (c : char) : char :=
  if ascii_upper c then (c + 32)%N else c.
Definition ascii_toupper (c : char) : char :=
  if ascii_lower c then (c - 32)%N else c.

Definition ascii_ucd : UCD := {|
  isdecimal := ascii_digit;
  todecimal := fun c => c - 48;
  isalnum   := fun c => ascii_digit c || ascii_upper c || ascii_lower c;
  tolower1  := ascii_tolower;
  toupper1  := ascii_toupper;
  casefixes := fun _ => [];
  str_lower := map ascii_tolower;
  isupper_c := ascii_upper;
  islower_c := ascii_lower;
  istitle_c := fun _ => false
|}.

Section StrCase.
Context {U : UCD}.

(** [s.isupper()]: no lower- or title-case character and at least one
    upper-case one. *)
Definition str_isupper (s : str) : bool :=
  forallb (fun c => negb (islower_c c || istitle_c c)) s
  && existsb isupper_c s.

(** [s.islower()] *)
Definition str_islower (s : str) : bool :=
  forallb (fun c => negb (isupper_c c || istitle_c c)) s
  && existsb islower_c s.

(** [int(s)] on a string of decimal digits, before the digit-limit
    check. *)
Definition int_of_digits (s : str) : Z :=
  fold_left (fun acc c => (10 * acc + Z.of_N (todecimal c))%Z) s 0%Z.

End StrCase.

(* ================================================================== *)
(** ** The [re] module *)
(* ================================================================== *)

(** Abstract syntax of the patterns the parser uses.  [Cls] is a bracket
    class (the escapes [\d], [\s], [\w] outside brackets are one-item
    classes), [Rep] a repeat with its greediness and bounds, [Grp] a
    numbered capturing group, [Ahead] the lookahead [(?=...)]; a
    non-capturing group is its body. *)
Inductive citem :=
| CChar (c : char)
| CRange (lo hi : char)
| CDigit
| CSpace
| CNotSpace
| CWord.

Inductive regex :=
| Eps
| Chr (c : char)
| Cls (neg : bool) (items : list citem)
| Cat (a b : regex)
| Alt (a b : regex)
| Rep (greedy : bool) (lo : nat) (hi : option nat) (r : regex)
| Grp (n : nat) (r : regex)
| Ahead (r : regex)
| Bol
| Eol
| Wordb.

Inductive flag := NOFLAGS | IGNORECASE.

(** A position in the subject: index, the character before it and the
    characters from it on. *)
Record cursor := { c_pos : nat; c_prev : option char; c_rest : str }.

Definition caps := list (nat * str).

Fixpoint cap_get (n : nat) (cs : caps) : option str :=
  match cs with
  | [] => None
  | (m, s) :: cs' => if Nat.eqb n m then Some s else cap_get n cs'
  end.

(** A match object. *)
Record Match := {
  m_start : nat;
  m_end : nat;
  m_text : str;          (* group(0) *)
  m_caps : caps;
  m_after : cursor
}.

(** [m.group(n)] for [n >= 1]: [None] when the group took no part. *)
Definition group (m : Match) (n : nat) : option str := cap_get n (m_caps m).

Definition chars_between (lo hi : char) : list char :=
  map (fun k => lo + N.of_nat k) (seq 0 (N.to_nat (hi + 1 - lo))).

Section Engine.
Context {U : UCD}.

Definition is_word (c : char) : bool := isalnum c || N.eqb c 95.

Definition iscased (c : char) : bool :=
  negb (N.eqb c (tolower1 c)) || negb (N.eqb c (toupper1 c)).

(** Whether the lowered subject character [l] is in the charmap entry sre
    builds for the pattern character [x] under IGNORECASE. *)
Definition lowered_hit (x l : char) : bool :=
  N.eqb l (tolower1 x) || existsb (N.eqb l) (casefixes (tolower1 x)).

Definition item_plain (it : citem) (c : char) : bool :=
  match it with
  | CChar x => N.eqb c x
  | CRange lo hi => in_range lo hi c
  | CDigit => isdecimal c
  | CSpace => isspace c
  | CNotSpace => negb (isspace c)
  | CWord => is_word c
  end.

Definition item_ignore (it : citem) (l : char) : bool :=
  match it with
  | CChar x => lowered_hit x l
  | CRange lo hi => existsb (fun x => lowered_hit x l) (chars_between lo hi)
  | _ => item_plain it l
  end.

Definition item_hascased (it : citem) : bool :=
  match it with
  | CChar x => iscased x
  | CRange lo hi => existsb iscased (chars_between lo hi)
  | _ => false
  end.

Definition chr_match (f : flag) (p c : char) : bool :=
  match f with
  | IGNORECASE => if iscased p then lowered_hit p (tolower1 c) else N.eqb c p
  | NOFLAGS => N.eqb c p
  end.

Definition cls_match (f : flag) (neg : bool) (items : list citem) (c : char)
  : bool :=
  xorb neg
    match f with
    | IGNORECASE =>
        if existsb item_hascased items
        then existsb (fun it => item_ignore it (tolower1 c)) items
        else existsb (fun it => item_plain it c) items
    | NOFLAGS => existsb (fun it => item_plain it c) items
    end.

Definition word_before (cur : cursor) : bool :=
  match c_prev cur with Some c => is_word c | None => false end.

Definition word_after (cur : cursor) : bool :=
  match c_rest cur with c :: _ => is_word c | [] => false end.

Definition step (cur : cursor) : option (char * cursor) :=
  match c_rest cur with
  | [] => None
  | c :: rest =>
      Some (c, {| c_pos := S (c_pos cur); c_prev := Some c; c_rest := rest |})
  end.

(** The text between two cursors of one subject. *)
Definition span (from to : cursor) : str :=
  firstn (c_pos to - c_pos from) (c_rest from).

Definition below (count : nat) (hi : option nat) : bool :=
  match hi with Some h => Nat.ltb count h | None => true end.

(** The backtracking matcher, in continuation-passing style: [rmatch f r k
    cur cs] tries [r] at [cur] and hands every way it can match, in the
    engine's priority order, to [k] until [k] accepts one.  A repeat runs
    its body again only while the upper bound allows it and, once the
    lower bound is met, only if the last round consumed input, so the
    fuel (the upper bound, or the remaining length plus the lower bound)
    never runs out. *)
Fixpoint rmatch (f : flag) (r : regex)
    (k : cursor -> caps -> option (cursor * caps))
    (cur : cursor) (cs : caps) {struct r} : option (cursor * caps) :=
  match r with
  | Eps => k cur cs
  | Chr p =>
      match step cur with
      | Some (c, cur') => if chr_match f p c then k cur' cs else None
      | None => None
      end
  | Cls neg items =>
      match step cur with
      | Some (c, cur') => if cls_match f neg items c then k cur' cs else None
      | None => None
      end
  | Cat a b => rmatch f a (fun cur' cs' => rmatch f b k cur' cs') cur cs
  | Alt a b =>
      match rmatch f a k cur cs with
      | Some res => Some res
      | None => rmatch f b k cur cs
      end
  | Rep greedy lo hi body =>
      (fix loop (fuel count : nat) (cur : cursor) (cs : caps) {struct fuel}
         : option (cursor * caps) :=
         let again (_ : unit) :=
           match fuel with
           | O => None
           | S fuel' =>
               if below count hi
               then rmatch f body
                      (fun cur' cs' =>
                         if Nat.ltb (c_pos cur) (c_pos cur') || Nat.ltb count lo
                         then loop fuel' (S count) cur' cs'
                         else None)
                      cur cs
               else None
           end in
         let leave (_ : unit) :=
           if Nat.leb lo count then k cur cs else None in
         if greedy
         then match again tt with Some res => Some res | None => leave tt end
         else match leave tt with Some res => Some res | None => again tt end)
        (match hi with
         | Some h => S h
         | None => S (List.length (c_rest cur) + lo)
         end) O cur cs
  | Grp n body =>
      rmatch f body (fun cur' cs' => k cur' ((n, span cur cur') :: cs')) cur cs
  | Ahead body =>
      match rmatch f body (fun cur' cs' => Some (cur', cs')) cur cs with
      | Some (_, cs') => k cur cs'
      | None => None
      end
  | Bol => match c_prev cur with None => k cur cs | Some _ => None end
  | Eol =>
      match c_rest cur with
      | [] => k cur cs
      | [c] => if N.eqb c 10 then k cur cs else None
      | _ => None
      end
  | Wordb => if xorb (word_before cur) (word_after cur) then k cur cs else None
  end.

(** One attempt of the pattern at [cur].  [must_advance] refuses an empty
    match (set after an empty match by the scanning functions). *)
Definition match_at (f : flag) (r : regex) (must_advance : bool)
    (cur : cursor) : option Match :=
  match rmatch f r
          (fun cur' cs' =>
             if must_advance && Nat.eqb (c_pos cur') (c_pos cur)
             then None else Some (cur', cs'))
          cur [] with
  | Some (cur', cs') =>
      Some {| m_start := c_pos cur; m_end := c_pos cur';
              m_text := span cur cur'; m_caps := cs'; m_after := cur' |}
  | None => None
  end.

(** Leftmost match at or after a cursor. *)
Fixpoint scan (f : flag) (r : regex) (must_advance : bool)
    (pos : nat) (prev : option char) (rest : str) : option Match :=
  match match_at f r must_advance
          {| c_pos := pos; c_prev := prev; c_rest := rest |} with
  | Some m => Some m
  | None =>
      match rest with
      | [] => None
      | c :: rest' => scan f r false (S pos) (Some c) rest'
      end
  end.

Definition cursor0 (s : str) : cursor :=
  {| c_pos := O; c_prev := None; c_rest := s |}.

(** [re.search(pattern, string, flags)] *)
Definition re_search (r : regex) (s : str) (f : flag) : option Match :=
  scan f r false O None s.

(** All non-overlapping matches, left to right ([finditer]). *)
Fixpoint matches_from (fuel : nat) (f : flag) (r : regex)
    (must_advance : bool) (cur : cursor) : list Match :=
  match fuel with
  | O => []
  | S fuel' =>
      match scan f r must_advance (c_pos cur) (c_prev cur) (c_rest cur) with
      | None => []
      | Some m =>
          m :: matches_from fuel' f r (Nat.eqb (m_end m) (m_start m))
                 (m_after m)
      end
  end.

Definition finditer (r : regex) (s : str) (f : flag) : list Match :=
  matches_from (2 * List.length s + 2)%nat f r false (cursor0 s).

(** [re.findall] for a pattern without capturing groups: the matched
    texts. *)
Definition re_findall0 (r : regex) (s : str) (f : flag) : list str :=
  map m_text (finditer r s f).

(** [re.findall] for a pattern with exactly one capturing group: the
    text of group 1, the empty string where it took no part. *)
Definition re_findall1 (r : regex) (s : str) (f : flag) : list str :=
  map (fun m => match group m 1 with Some g => g | None => [] end)
      (finditer r s f).

(** The pieces of [s] between consecutive matches, the last one up to the
    end of [s]. *)
Fixpoint pieces (s : str) (from : nat) (ms : list Match) : list str :=
  match ms with
  | [] => [skipn from s]
  | m :: ms' =>
      firstn (m_start m - from) (skipn from s) :: pieces s (m_end m) ms'
  end.

(** [re.split(pattern, string)] for a pattern without capturing groups. *)
Definition re_split (r : regex) (s : str) : list str :=
  pieces s O (finditer r s NOFLAGS).

(** [re.sub(pattern, repl, string)] for a replacement without group
    references. *)
Definition re_sub (r : regex) (repl : str) (s : str) : str :=
  join repl (pieces s O (finditer r s NOFLAGS)).

(** Pattern-building helpers. *)
Fixpoint lit (s : str) : regex :=
  match s with
  | [] => Eps
  | [c] => Chr c
  | c :: s' => Cat (Chr c) (lit s')
  end.

Fixpoint cat (rs : list regex) : regex :=
  match rs with
  | [] => Eps
  | [r] => r
  | r :: rs' => Cat r (cat rs')
  end.

Fixpoint alt (rs : list regex) : regex :=
  match rs with
  | [] => Eps
  | [r] => r
  | r :: rs' => Alt r (alt rs')
  end.

End Engine.

Definition star (r : regex) := Rep true 0 None r.
Definition plus (r : regex) := Rep true 1 None r.
Definition opt (r : regex) := Rep true 0 (Some 1%nat) r.
Definition times (lo hi : nat) (r : regex) := Rep true lo (Some hi) r.
Definition lazy_star (r : regex) := Rep false 0 None r.
Definition digit := Cls false [CDigit].
Definition space := Cls false [CSpace].
Definition tx (s : string) : regex := lit (u s).
Definition anyof (s : string) : list citem := map CChar (u s).
Definition rng (a b : ascii) : citem := CRange (chr a) (chr b).

Local Close Scope N_scope.

(** Groups that take part in every match of a pattern: those not under
    an alternative or an optional repeat. *)
Fixpoint sure_groups (r : regex) : list nat :=
  match r with
  | Cat a b => sure_groups a ++ sure_groups b
  | Rep _ lo _ body => if Nat.leb 1 lo then sure_groups body else []
  | Grp n body => n :: sure_groups body
  | Ahead body => sure_groups body
  | _ => []
  end.

(** [cs'] binds every group that [cs] binds. *)
Definition keeps (cs cs' : caps) : Prop :=
  forall n, cap_get n cs <> None -> cap_get n cs' <> None.

(** [cs] binds every group of [ns]. *)
Definition sets (ns : list nat) (cs : caps) : Prop :=
  forall n, In n ns -> cap_get n cs <> None.

(** Number of capturing groups of a pattern. *)
Fixpoint ngroups (r : regex) : nat :=
  match r with
  | Cat a b | Alt a b => ngroups a + ngroups b
  | Rep _ _ _ body | Ahead body => ngroups body
  | Grp _ body => S (ngroups body)
  | _ => 0
  end.

(** [re.findall(pattern, string, flags)] for the patterns of this module,
    which have no or one capturing group. *)
Definition re_findall {U : UCD} (r : regex) (s : str) (f : flag) : list str :=
  match ngroups r with
  | O => re_findall0 r s f
  | _ => re_findall1 r s f
  end.

(* ================================================================== *)
(** ** Exceptions, logging and the trace *)
(* ================================================================== *)

(** The [Exception] subclasses that can reach the handlers of the module.
    Signals outside [Exception] (KeyboardInterrupt and the like) are not
    part of the model. *)
Inductive exn :=
| NameError (name : string)
| ValueError
| TypeError
| AttributeError
| LibraryError (what : string).

Inductive result (A : Type) :=
| Ok (a : A)
| Raise (e : exn).
Arguments Ok {A} a.
Arguments Raise {A} e.

Inductive level := INFO | WARNING | ERROR.

(** What a run leaves behind: the records handed to [logger], and a ghost
    record of every method of the parser that was entered. *)
Inductive event :=
| Logged (l : level) (msg : string)
| Entered (method : string).

Definition trace := list event.

(** A computation: how it ends, and the events it produced on the way. *)
Definition M (A : Type) : Type := (result A * trace)%type.

Definition ret {A} (a : A) : M A := (Ok a, []).

Definition bind {A B} (c : M A) (k : A -> M B) : M B :=
  match c with
  | (Ok a, t) => let (r, t') := k a in (r, t ++ t')
  | (Raise e, t) => (Raise e, t)
  end.

Definition raise {A} (e : exn) : M A := (Raise e, []).

(** [try: c  except Exception as e: h e] *)
Definition try_except {A} (c : M A) (h : exn -> M A) : M A :=
  match c with
  | (Ok a, t) => (Ok a, t)
  | (Raise e, t) => let (r, t') := h e in (r, t ++ t')
  end.

Definition emit (ev : event) : M unit := (Ok tt, [ev]).
Definition log (l : level) (msg : string) : M unit := emit (Logged l msg).
Definition enter (method : string) : M unit := emit (Entered method).

Definition lift {A} (r : result A) : M A := (r, []).

Declare Scope py_scope.
Delimit Scope py_scope with py.
Notation "x <- c ;; k" := (bind c (fun x => k))
  (at level 100, c at next level, right associativity) : py_scope.
Notation "c ;; k" := (bind c (fun _ => k))
  (at level 100, right associativity) : py_scope.
Local Open Scope py_scope.

(** A [for] loop whose body may [return]: the first [Some] ends it. *)
Fixpoint first_some {A B} (f : A -> M (option B)) (l : list A)
  : M (option B) :=
  match l with
  | [] => ret None
  | a :: l' =>
      r <- f a ;;
      match r with
      | Some b => ret (Some b)
      | None => first_some f l'
      end
  end.

(** A [for] loop threading its local variables. *)
Fixpoint for_each {A S} (f : S -> A -> M S) (l : list A) (s : S) : M S :=
  match l with
  | [] => ret s
  | a :: l' => s' <- f s a ;; for_each f l' s'
  end.

(** [o.strip()] where [o] may be [None]. *)
Definition strip_of (o : option str) : M str :=
  match o with
  | Some s => ret (strip s)
  | None => raise AttributeError
  end.

(* ================================================================== *)
(** ** The interpreter and the libraries around the parser *)
(* ================================================================== *)

(** A python-docx document: paragraph texts, and for every table its
    rows of cell texts. *)
Record Docx := {
  paragraphs : list str;
  tables : list (list (list str))
}.

(** One entity of a spaCy [doc.ents]. *)
Record Entity := { ent_text : str; ent_label : str }.

(** Everything outside the module that a parse depends on. *)
Record Runtime := {
  (* module-level flags set by the guarded imports *)
  SPACY_AVAILABLE : bool;
  PDF_PARSING_AVAILABLE : bool;
  DOCX_PARSING_AVAILABLE : bool;
  (* self.nlp, as left by __init__: the loaded pipeline or None *)
  nlp : option (str -> result (list Entity));
  (* open(path, 'rb') and PyPDF2.PdfReader(file).pages; for every page
     what page.extract_text() does *)
  pdf_pages : str -> result (list (result (option str)));
  (* docx.Document(path) *)
  docx_document : str -> result Docx;
  (* what reading the file through aiofiles.open(path, 'r',
     encoding='utf-8', errors='ignore') would give *)
  aiofiles_read : str -> result str;
  (* datetime.now().year *)
  current_year : Z;
  (* sys.get_int_max_str_digits(): 4300 unless reconfigured, 0 for no
     limit *)
  int_max_str_digits : nat
}.

(** Names bound in the module's global namespace once it is imported;
    the three optional libraries are bound only when their import
    succeeded. *)
Definition module_globals (R : Runtime) : list string :=
  ["re"; "os"; "logging"; "Dict"; "List"; "Any"; "Optional"; "datetime";
   "asyncio"; "SPACY_AVAILABLE"; "PDF_PARSING_AVAILABLE";
   "DOCX_PARSING_AVAILABLE"; "logger"; "EnhancedResumeParser";
   "test_parser"]%string
  ++ (if SPACY_AVAILABLE R then ["spacy"%string] else [])
  ++ (if PDF_PARSING_AVAILABLE R then ["PyPDF2"%string] else [])
  ++ (if DOCX_PARSING_AVAILABLE R then ["Document"%string] else []).

(** Evaluating a global name: [NameError] when it is unbound. *)
Definition load_global (R : Runtime) (name : string) : M unit :=
  if existsb (String.eqb name) (module_globals R) then ret tt
  else raise (NameError name).

(** [s.rfind(c)]: the last index of [c], or -1. *)
Fixpoint rfind_from (c : char) (s : str) (i : Z) (found : Z) : Z :=
  match s with
  | [] => found
  | x :: s' => rfind_from c s' (i + 1)%Z (if char_eqb x c then i else found)
  end.

Definition rfind (c : char) (s : str) : Z := rfind_from c s 0%Z (-1)%Z.

(** [os.path.splitext(p)[1]] (posixpath): the text from the last dot of
    the last path component on, unless that component has only leading
    dots before it. *)
Definition splitext_ext (p : str) : str :=
  let sepIndex := rfind (chr "/") p in
  let dotIndex := rfind (chr ".") p in
  if (sepIndex <? dotIndex)%Z then
    let filenameIndex := Z.to_nat (sepIndex + 1) in
    let before := firstn (Z.to_nat dotIndex - filenameIndex)
                         (skipn filenameIndex p) in
    if existsb (fun c => negb (char_eqb c (chr "."))) before
    then skipn (Z.to_nat dotIndex) p
    else []
  else [].

(** [int(s)] for the text of a digit group.  [None] is what an unset
    group would give. *)
Definition py_int {U : UCD} (R : Runtime) (o : option str) : M Z :=
  match o with
  | None => raise TypeError
  | Some s =>
      if nonempty s && forallb isdecimal s then
        if Nat.ltb 640 (List.length s)
           && Nat.ltb 0 (int_max_str_digits R)
           && Nat.ltb (int_max_str_digits R) (List.length s)
        then raise ValueError
        else ret (int_of_digits s)
      else raise ValueError
  end.

(* ================================================================== *)
(** ** class EnhancedResumeParser *)
(* ================================================================== *)

(** An entry of [work_history]: a dict with the keys title, company and
    dates, and the key description only when lines were collected. *)
Record Job := {
  title : str;
  company : str;
  dates : str;
  description : option (list str)
}.

(** The dict [parse_resume] returns. *)
Record ParsedProfile := {
  name : option str;
  email : option str;
  phone : option str;
  skills : list str;
  experience : option str;
  education : option str;
  work_history : list Job;
  location : option str;
  salary_expectation : option str;
  raw_text : str;
  confidence_scores : list (string * Q)
}.

(** [d[k] = v] on an insertion-ordered dict. *)
Fixpoint dict_set {V} (k : string) (v : V) (d : list (string * V))
  : list (string * V) :=
  match d with
  | [] => [(k, v)]
  | (k', v') :: d' =>
      if String.eqb k k' then (k, v) :: d' else (k', v') :: dict_set k v d'
  end.

(** [d.get(k)] *)
Fixpoint dict_get {V} (k : string) (d : list (string * V)) : option V :=
  match d with
  | [] => None
  | (k', v) :: d' => if String.eqb k k' then Some v else dict_get k d'
  end.

(** [sum(d.values())] *)
Definition sum_values (d : list (string * Q)) : Q :=
  fold_left (fun acc kv => Qplus acc (snd kv)) d (0 # 1)%Q.

(** [self.skill_taxonomy] *)
Definition skill_taxonomy : list (string * list str) :=
  [ ("programming_languages"%string,
     map u ["Python"; "Java"; "JavaScript"; "C++"; "C#"; "Ruby"; "PHP"; "Go";
            "Rust"; "TypeScript"; "Swift"; "Kotlin"; "Scala"; "R"; "MATLAB";
            "Perl"; "C"; "Objective-C"; "Dart"; "Julia"; "F#";
            "Haskell"]%string);
    ("web_technologies"%string,
     map u ["HTML"; "CSS"; "React"; "Angular"; "Vue.js"; "Node.js";
            "Express.js"; "Django"; "Flask"; "Spring Boot"; "ASP.NET";
            "Laravel"; "Ruby on Rails"; "Next.js"; "Nuxt.js"; "Svelte";
            "Bootstrap"; "Tailwind CSS"]%string);
    ("databases"%string,
     map u ["MySQL"; "PostgreSQL"; "MongoDB"; "Redis"; "Cassandra";
            "DynamoDB"; "Oracle"; "SQL Server"; "SQLite"; "Elasticsearch";
            "MariaDB"; "CouchDB"; "InfluxDB"]%string);
    ("cloud_platforms"%string,
     map u ["AWS"; "Azure"; "Google Cloud"; "GCP"; "Heroku"; "DigitalOcean";
            "Linode"; "Vercel"; "Netlify"; "Firebase"]%string);
    ("devops_tools"%string,
     map u ["Docker"; "Kubernetes"; "Jenkins"; "GitLab CI"; "Travis CI";
            "CircleCI"; "Terraform"; "Ansible"; "Puppet"; "Chef"; "Vagrant";
            "Prometheus"; "Grafana"]%string);
    ("version_control"%string,
     map u ["Git"; "GitHub"; "GitLab"; "Bitbucket"; "SVN";
            "Mercurial"]%string);
    ("soft_skills"%string,
     map u ["Communication"; "Leadership"; "Problem Solving"; "Teamwork";
            "Agile"; "Scrum"; "Project Management"; "Time Management";
            "Critical Thinking"; "Collaboration"; "Adaptability"]%string);
    ("frameworks"%string,
     map u ["TensorFlow"; "PyTorch"; "Keras"; "Pandas"; "NumPy";
            "Scikit-learn"; "OpenCV"; "Matplotlib"; "Seaborn";
            "Plotly"]%string) ].

(** [self.all_skills]: the category lists, flattened in dict order. *)
Definition all_skills : list str := flat_map snd skill_taxonomy.

(** *** The patterns

    Each pattern is the hand translation of the raw string literal quoted
    above it.  The first two literals of [name_patterns] are written in
    the source between single quotes although the class [a-z'] contains
    one; they are read here as the patterns they spell. *)

Definition nl : regex := Chr 10%N.
Definition upper := Cls false [rng "A" "Z"].
Definition lower := Cls false [rng "a" "z"].
Definition any_char := Cls false [CSpace; CNotSpace].   (* [\s\S] *)
Definition word_or_space := Cls false [CWord; CSpace].  (* [\w\s] *)

Definition name_patterns : list regex :=
  [ (* ^\s*([A-Z][a-z]+(?:\s+[A-Z][a-z']+){1,2})\s*$ *)
    cat [Bol; star space;
         Grp 1 (cat [upper; plus lower;
                     times 1 2 (cat [plus space; upper;
                                     plus (Cls false [rng "a" "z"; CChar (chr "'")])])]);
         star space; Eol];
    (* Name:\s*([A-Z][a-z]+(?:\s+[A-Z][a-z']+){0,2}) *)
    cat [tx "Name:"; star space;
         Grp 1 (cat [upper; plus lower;
                     times 0 2 (cat [plus space; upper;
                                     plus (Cls false [rng "a" "z"; CChar (chr "'")])])])];
    (* ^\s*([A-Z][a-z]+(?:\s+[A-Z]\.?\s*[A-Z][a-z]+))\s*$ *)
    cat [Bol; star space;
         Grp 1 (cat [upper; plus lower;
                     cat [plus space; upper; opt (tx "."); star space;
                          upper; plus lower]]);
         star space; Eol] ].

Definition skip_words : list str :=
  map u ["resume"; "cv"; "curriculum"; "vitae"; "professional"; "summary";
         "objective"]%string.

(* \b[A-Za-z0-9._%+-]+@[A-Za-z0-9.-]+\.[A-Z|a-z]{2,}\b *)
Definition email_pattern : regex :=
  cat [Wordb;
       plus (Cls false ([rng "A" "Z"; rng "a" "z"; rng "0" "9"] ++ anyof "._%+-"));
       tx "@";
       plus (Cls false ([rng "A" "Z"; rng "a" "z"; rng "0" "9"] ++ anyof ".-"));
       tx ".";
       Rep true 2 None (Cls false [rng "A" "Z"; CChar (chr "|"); rng "a" "z"]);
       Wordb].

Definition placeholder_domains : list str :=
  map u ["example.com"; "test.com"; "placeholder"]%string.

Definition dash_or_space := Cls false [CChar (chr "-"); CSpace].      (* [-\s] *)
Definition dash_dot_space :=
  Cls false [CChar (chr "-"); CChar (chr "."); CSpace].               (* [-\.\s] *)
Definition phone_chars :=                                 (* [\d\s\-\(\)\+\.] *)
  Cls false ([CDigit; CSpace] ++ anyof "-()+.").

Definition phone_patterns : list regex :=
  [ (* \+?\d{1,3}[-\s]?\(?\d{3}\)?[-\s]?\d{3}[-\s]?\d{4} *)
    cat [opt (tx "+"); times 1 3 digit; opt dash_or_space; opt (tx "(");
         times 3 3 digit; opt (tx ")"); opt dash_or_space; times 3 3 digit;
         opt dash_or_space; times 4 4 digit];
    (* \(?\d{3}\)?[-\.\s]?\d{3}[-\.\s]?\d{4} *)
    cat [opt (tx "("); times 3 3 digit; opt (tx ")"); opt dash_dot_space;
         times 3 3 digit; opt dash_dot_space; times 4 4 digit];
    (* Phone:?\s*([\d\s\-\(\)\+\.]+) *)
    cat [tx "Phone"; opt (tx ":"); star space; Grp 1 (plus phone_chars)];
    (* Mobile:?\s*([\d\s\-\(\)\+\.]+) *)
    cat [tx "Mobile"; opt (tx ":"); star space; Grp 1 (plus phone_chars)];
    (* Tel:?\s*([\d\s\-\(\)\+\.]+) *)
    cat [tx "Tel"; opt (tx ":"); star space; Grp 1 (plus phone_chars)] ].

(* [^\d\+] *)
Definition not_digit_or_plus : regex := Cls true [CDigit; CChar (chr "+")].

(* (?:technical\s+skills?|skills?|technologies?|competencies?)\s*:?\s*
   ([\s\S]*?)(?=\n\s*\n|\n[A-Z]|$) *)
Definition skills_section_pattern : regex :=
  cat [alt [cat [tx "technical"; plus space; tx "skill"; opt (tx "s")];
            cat [tx "skill"; opt (tx "s")];
            cat [tx "technologie"; opt (tx "s")];
            cat [tx "competencie"; opt (tx "s")]];
       star space; opt (tx ":"); star space;
       Grp 1 (lazy_star any_char);
       Ahead (alt [cat [nl; star space; nl]; cat [nl; upper]; Eol])].

(* [,;|•\n\-]+ *)
Definition skill_delimiters : regex :=
  plus (Cls false (anyof ",;|" ++ [CChar 8226%N; CChar 10%N; CChar (chr "-")])).

Definition exp_patterns : list regex :=
  [ (* (\d+)\+?\s*years?\s+(?:of\s+)?experience *)
    cat [Grp 1 (plus digit); opt (tx "+"); star space; tx "year"; opt (tx "s");
         plus space; opt (cat [tx "of"; plus space]); tx "experience"];
    (* experience:?\s*(\d+)\+?\s*years? *)
    cat [tx "experience"; opt (tx ":"); star space; Grp 1 (plus digit);
         opt (tx "+"); star space; tx "year"; opt (tx "s")];
    (* (\d+)\+?\s*yrs?\s+(?:of\s+)?experience *)
    cat [Grp 1 (plus digit); opt (tx "+"); star space; tx "yr"; opt (tx "s");
         plus space; opt (cat [tx "of"; plus space]); tx "experience"];
    (* over\s+(\d+)\s+years? *)
    cat [tx "over"; plus space; Grp 1 (plus digit); plus space; tx "year";
         opt (tx "s")];
    (* more\s+than\s+(\d+)\s+years? *)
    cat [tx "more"; plus space; tx "than"; plus space; Grp 1 (plus digit);
         plus space; tx "year"; opt (tx "s")] ].

(* \b(19\d{2}|20[0-3]\d)\b *)
Definition year_pattern : regex :=
  cat [Wordb;
       Grp 1 (alt [cat [tx "19"; times 2 2 digit];
                   cat [tx "20"; Cls false [rng "0" "3"]; digit]]);
       Wordb].

(** (?:\s+of\s+[\w\s]+)? and (?:\s+[\w\s]+)? *)
Definition of_clause : regex :=
  opt (cat [plus space; tx "of"; plus space; plus word_or_space]).
Definition field_clause : regex :=
  opt (cat [plus space; plus word_or_space]).
(** [\s\']?s? *)
Definition possessive : regex :=
  cat [opt (Cls false [CSpace; CChar (chr "'")]); opt (tx "s")].
(** \.?[AS]\.? *)
Definition a_or_s : regex :=
  cat [opt (tx "."); Cls false (anyof "AS"); opt (tx ".")].

Definition education_patterns : list regex :=
  [ (* (Bachelor[\s\']?s?(?:\s+of\s+[\w\s]+)?|B\.?[AS]\.?(?:\s+[\w\s]+)?) *)
    Grp 1 (alt [cat [tx "Bachelor"; possessive; of_clause];
                cat [tx "B"; a_or_s; field_clause]]);
    (* (Master[\s\']?s?(?:\s+of\s+[\w\s]+)?|M\.?[AS]\.?(?:\s+[\w\s]+)?) *)
    Grp 1 (alt [cat [tx "Master"; possessive; of_clause];
                cat [tx "M"; a_or_s; field_clause]]);
    (* (PhD|Ph\.?D\.?|Doctor(?:ate)?(?:\s+of\s+[\w\s]+)?) *)
    Grp 1 (alt [tx "PhD";
                cat [tx "Ph"; opt (tx "."); tx "D"; opt (tx ".")];
                cat [tx "Doctor"; opt (tx "ate"); of_clause]]);
    (* (Associate[\s\']?s?(?:\s+[\w\s]+)?) *)
    Grp 1 (cat [tx "Associate"; possessive; field_clause]);
    (* (Certificate(?:\s+[\w\s]+)?) *)
    Grp 1 (cat [tx "Certificate"; field_clause]);
    (* (Diploma(?:\s+[\w\s]+)?) *)
    Grp 1 (cat [tx "Diploma"; field_clause]) ].

(* (\b(?:University|College|Institute|School)(?:\s+of\s+[\w\s]+)?)\b *)
Definition university_pattern : regex :=
  cat [Grp 1 (cat [Wordb;
                   alt [tx "University"; tx "College"; tx "Institute";
                        tx "School"];
                   of_clause]);
       Wordb].

(* (?:professional\s+experience|work\s+experience|experience|employment)
   \s*:?\s*([\s\S]*?)
   (?=\n\s*(?:education|skills|projects|certifications)|$) *)
Definition experience_section_pattern : regex :=
  cat [alt [cat [tx "professional"; plus space; tx "experience"];
            cat [tx "work"; plus space; tx "experience"];
            tx "experience";
            tx "employment"];
       star space; opt (tx ":"); star space;
       Grp 1 (lazy_star any_char);
       Ahead (alt [cat [nl; star space;
                        alt [tx "education"; tx "skills"; tx "projects";
                             tx "certifications"]];
                   Eol])].

(** (\d{4}\s*-\s*\d{4}|\d{4}\s*-\s*Present)? as group 3 *)
Definition dates_group : regex :=
  opt (Grp 3 (alt [cat [times 4 4 digit; star space; tx "-"; star space;
                        times 4 4 digit];
                   cat [times 4 4 digit; star space; tx "-"; star space;
                        tx "Present"]])).

Definition job_patterns : list regex :=
  [ (* ^([^|]+)\|\s*([^|]+)\|?\s*(dates)? *)
    cat [Bol; Grp 1 (plus (Cls true (anyof "|"))); tx "|"; star space;
         Grp 2 (plus (Cls true (anyof "|"))); opt (tx "|"); star space;
         dates_group];
    (* ^([^,]+),\s*([^,]+)\s*(dates)? *)
    cat [Bol; Grp 1 (plus (Cls true (anyof ","))); tx ","; star space;
         Grp 2 (plus (Cls true (anyof ","))); star space; dates_group];
    (* ^((?:[A-Z][a-z]*\s* )+)\s*(?:at|@)\s*([^\d]* )(dates)?
       (a blank added after each star that precedes a parenthesis) *)
    cat [Bol; Grp 1 (plus (cat [upper; star lower; star space])); star space;
         alt [tx "at"; tx "@"]; star space;
         Grp 2 (star (Cls true [CDigit])); dates_group] ].

(** [A-Za-z\s,]+(?:,\s*[A-Z]{2})? *)
Definition place_text : regex :=
  cat [plus (Cls false [rng "A" "Z"; rng "a" "z"; CSpace; CChar (chr ",")]);
       opt (cat [tx ","; star space; times 2 2 upper])].

Definition location_patterns : list regex :=
  [ (* Location:?\s*([A-Za-z\s,]+(?:,\s*[A-Z]{2})?) *)
    cat [tx "Location"; opt (tx ":"); star space; Grp 1 place_text];
    (* Address:?\s*([A-Za-z\s,]+(?:,\s*[A-Z]{2})?) *)
    cat [tx "Address"; opt (tx ":"); star space; Grp 1 place_text];
    (* ([A-Za-z\s]+,\s*[A-Z]{2})(?:\s|$) *)
    cat [Grp 1 (cat [plus (Cls false [rng "A" "Z"; rng "a" "z"; CSpace]);
                     tx ","; star space; times 2 2 upper]);
         alt [space; Eol]];
    (* ([A-Za-z\s]+,\s*(?:California|New York|Texas|Florida|India|Canada|UK|USA))\b *)
    cat [Grp 1 (cat [plus (Cls false [rng "A" "Z"; rng "a" "z"; CSpace]);
                     tx ","; star space;
                     alt [tx "California"; tx "New York"; tx "Texas";
                          tx "Florida"; tx "India"; tx "Canada"; tx "UK";
                          tx "USA"]]);
         Wordb] ].

(** ([\d,]+(?:\.\d+)?(?:k|K)?) *)
Definition amount : regex :=
  Grp 1 (cat [plus (Cls false [CDigit; CChar (chr ",")]);
              opt (cat [tx "."; plus digit]);
              opt (alt [tx "k"; tx "K"])]).

Definition salary_patterns : list regex :=
  [ (* Salary:?\s*\$?(amount) *)
    cat [tx "Salary"; opt (tx ":"); star space; opt (tx "$"); amount];
    (* Expected\s+Salary:?\s*\$?(amount) *)
    cat [tx "Expected"; plus space; tx "Salary"; opt (tx ":"); star space;
         opt (tx "$"); amount];
    (* Compensation:?\s*\$?(amount) *)
    cat [tx "Compensation"; opt (tx ":"); star space; opt (tx "$"); amount];
    (* \$(amount)\s*(?:per\s+year|annually|yearly)? *)
    cat [tx "$"; amount; star space;
         opt (alt [cat [tx "per"; plus space; tx "year"]; tx "annually";
                   tx "yearly"])] ].

(** No repeat of these patterns has a body that can match the empty
    string, checked by [repeats_consume]. *)
Fixpoint nullable (r : regex) : bool :=
  match r with
  | Eps | Ahead _ | Bol | Eol | Wordb => true
  | Chr _ | Cls _ _ => false
  | Cat a b => nullable a && nullable b
  | Alt a b => nullable a || nullable b
  | Rep _ lo _ body => Nat.eqb lo 0 || nullable body
  | Grp _ body => nullable body
  end.

Fixpoint repeats_consume (r : regex) : bool :=
  match r with
  | Cat a b | Alt a b => repeats_consume a && repeats_consume b
  | Rep _ _ _ body => negb (nullable body) && repeats_consume body
  | Grp _ body | Ahead body => repeats_consume body
  | _ => true
  end.

Definition all_patterns : list regex :=
  name_patterns ++ [email_pattern] ++ phone_patterns
  ++ [not_digit_or_plus; skills_section_pattern; skill_delimiters]
  ++ exp_patterns ++ [year_pattern] ++ education_patterns
  ++ [university_pattern; experience_section_pattern] ++ job_patterns
  ++ location_patterns ++ [plus space] ++ salary_patterns.

Section Parser.
Context {U : UCD} (R : Runtime).

(** The first pattern of a list that [re.search] finds in [s]. *)
Fixpoint first_match (patterns : list regex) (s : str) (f : flag)
  : option Match :=
  match patterns with
  | [] => None
  | p :: ps =>
      match re_search p s f with
      | Some m => Some m
      | None => first_match ps s f
      end
  end.

(** *** _extract_name *)

(** [all(word[0].isupper() and word[1:].islower()
         for word in words if len(word) > 1)] *)
Definition looks_like_name (words : list str) : bool :=
  forallb (fun word =>
             match word with
             | c :: (d :: w) => str_isupper [c] && str_islower (d :: w)
             | _ => true
             end) words.

Definition name_from_line (line : str) (pattern : regex) : M (option str) :=
  match re_search pattern line NOFLAGS with
  | None => ret None
  | Some m =>
      potential_name <- strip_of (group m 1) ;;
      let words := split_ws potential_name in
      if Nat.leb 1 (List.length words) && Nat.leb (List.length words) 3
         && looks_like_name words
      then ret (Some potential_name)
      else ret None
  end.

Definition _extract_name (text : str) : M (option str) :=
  enter "_extract_name" ;;
  let lines := firstn 10 (split_on 10%N text) in
  first_some
    (fun line =>
       let line := strip line in
       if Nat.ltb (List.length line) 3 || Nat.ltb 50 (List.length line)
       then ret None
       else if existsb (fun word => contains word (str_lower line)) skip_words
       then ret None
       else first_some (name_from_line line) name_patterns)
    lines.

(** *** _extract_email *)

Definition _extract_email (text : str) : M (option str) :=
  enter "_extract_email" ;;
  let matches := re_findall email_pattern text NOFLAGS in
  let valid_emails :=
    filter (fun email =>
              let email_lower := str_lower email in
              negb (existsb (fun domain => contains domain email_lower)
                            placeholder_domains))
           matches in
  match valid_emails with
  | first :: _ => ret (Some (str_lower first))
  | [] => ret None
  end.

(** *** _extract_phone *)

Definition phone_from_match (mtext : str) : M (option str) :=
  let phone := re_sub not_digit_or_plus [] mtext in
  if Nat.leb 10 (List.length phone) && Nat.leb (List.length phone) 15
  then ret (Some (strip mtext))
  else ret None.

Definition _extract_phone (text : str) : M (option str) :=
  enter "_extract_phone" ;;
  first_some
    (fun pattern =>
       first_some phone_from_match (re_findall pattern text IGNORECASE))
    phone_patterns.

(** *** _extract_skills *)

(** The first loop: every taxonomy skill found as a whole word. *)
Definition direct_skills (text_lower : str) (found : list str) : list str :=
  fold_left
    (fun found skill =>
       let skill_lower := str_lower skill in
       let pattern := cat [Wordb; lit skill_lower; Wordb] in
       match re_search pattern text_lower NOFLAGS with
       | Some _ => set_add skill found
       | None => found
       end)
    all_skills found.

(** The taxonomy skills whose lower-cased name occurs in a candidate. *)
Definition skills_in_candidate (candidate : str) (found : list str)
  : list str :=
  fold_left
    (fun found skill =>
       if contains (str_lower skill) (str_lower candidate)
       then set_add skill found else found)
    all_skills found.

(** The second loop, over the tokens of the skills section. *)
Definition section_skills (skills_text : str) (found : list str)
  : list str :=
  fold_left
    (fun found candidate =>
       let candidate := strip candidate in
       if nonempty candidate && Nat.leb (List.length candidate) 30
       then skills_in_candidate candidate found
       else found)
    (re_split skill_delimiters skills_text) found.

Definition skill_labels : list str := [u "ORG"; u "PRODUCT"].

(** The third loop, over the entities of the spaCy document. *)
Definition entity_skills (ents : list Entity) (found : list str)
  : list str :=
  fold_left
    (fun found ent =>
       if existsb (str_eqb (ent_label ent)) skill_labels
          && Nat.ltb (List.length (ent_text ent)) 30
       then fold_left
              (fun found skill =>
                 if str_eqb (str_lower skill) (str_lower (ent_text ent))
                 then set_add skill found else found)
              all_skills found
       else found)
    ents found.

(** The block guarded by [if skills_section_match:]. *)
Definition skills_from_section (text : str) (found_skills : list str)
  : M (list str) :=
  match re_search skills_section_pattern text IGNORECASE with
  | Some skills_section_match =>
      match group skills_section_match 1 with
      | Some skills_text => ret (section_skills skills_text found_skills)
      | None => raise TypeError
      end
  | None => ret found_skills
  end.

(** The block guarded by [if self.nlp and SPACY_AVAILABLE:], with its own
    [try] statement. *)
Definition skills_from_nlp (text : str) (found_skills : list str)
  : M (list str) :=
  match nlp R with
  | Some run_nlp =>
      if SPACY_AVAILABLE R then
        try_except
          (ents <- lift (run_nlp text) ;;
           ret (entity_skills ents found_skills))
          (fun e =>
             log WARNING "NLP extraction error" ;;
             ret found_skills)
      else ret found_skills
  | None => ret found_skills
  end.

Definition _extract_skills (text : str) : M (list str) :=
  enter "_extract_skills" ;;
  let found_skills := [] in
  let text_lower := str_lower text in
  let found_skills := direct_skills text_lower found_skills in
  found_skills <- skills_from_section text found_skills ;;
  found_skills <- skills_from_nlp text found_skills ;;
  ret (sorted found_skills).

(** *** _extract_experience *)

Definition plus_years : str := u "+ years".

Definition _calculate_experience_from_dates (text : str) : M (option str) :=
  enter "_calculate_experience_from_dates" ;;
  try_except
    (let years := re_findall year_pattern text NOFLAGS in
     if Nat.leb 2 (List.length years) then
       year_ints <-
         for_each (fun acc y => n <- py_int R (Some y) ;; ret (acc ++ [n]))
                  years [] ;;
       match year_ints with
       | [] => ret None
       | y0 :: ys =>
           let start_year := fold_left Z.min ys y0 in
           let end_year := Z.min (fold_left Z.max ys y0) (current_year R) in
           let experience_years := (end_year - start_year)%Z in
           if (0 <? experience_years)%Z && (experience_years <=? 50)%Z
           then ret (Some (str_of_int experience_years ++ plus_years))
           else ret None
       end
     else ret None)
    (fun e =>
       log ERROR "Date calculation error" ;;
       ret None).

Definition _extract_experience (text : str) : M (option str) :=
  enter "_extract_experience" ;;
  match first_match exp_patterns text IGNORECASE with
  | Some m =>
      years <- py_int R (group m 1) ;;
      ret (Some (str_of_int years ++ plus_years))
  | None =>
      work_years <- _calculate_experience_from_dates text ;;
      if truthy work_years then ret work_years else ret None
  end.

(** *** _extract_education *)

Definition _extract_education (text : str) : M (option str) :=
  enter "_extract_education" ;;
  let education_info :=
    fold_left
      (fun info pattern => info ++ re_findall pattern text IGNORECASE)
      education_patterns [] in
  let universities := re_findall university_pattern text IGNORECASE in
  let education_info := education_info ++ firstn 2 universities in
  if nonempty education_info
  then ret (Some (join (u "; ") (firstn 3 education_info)))
  else ret None.

(** *** _extract_work_history *)

(** The loop variables: [work_history], [current_job] (the empty dict is
    [None]) and [description_lines]. *)
Record wh_state := {
  wh_history : list Job;
  wh_current : option Job;
  wh_lines : list str
}.

Definition with_description (job : Job) (lines : list str) : Job :=
  if nonempty lines
  then {| title := title job; company := company job; dates := dates job;
          description := Some (firstn 3 lines) |}
  else job.

Definition is_bullet (line : str) : bool :=
  startswith [8226%N] line || startswith (u "-") line
  || startswith (u "*") line.

Definition work_history_line (st : wh_state) (line : str) : M wh_state :=
  let line := strip line in
  if negb (nonempty line) then ret st
  else
    match first_match job_patterns line NOFLAGS with
    | Some m =>
        (* save the previous job, then start the new one *)
        let st :=
          match wh_current st with
          | Some job =>
              {| wh_history :=
                   wh_history st ++ [with_description job (wh_lines st)];
                 wh_current := wh_current st;
                 wh_lines := [] |}
          | None => st
          end in
        job_title <- strip_of (group m 1) ;;
        job_company <- strip_of (group m 2) ;;
        let job_dates :=
          match group m 3 with
          | Some d => if nonempty d then strip d else []
          | None => []
          end in
        ret {| wh_history := wh_history st;
               wh_current := Some {| title := job_title;
                                     company := job_company;
                                     dates := job_dates;
                                     description := None |};
               wh_lines := wh_lines st |}
    | None =>
        match wh_current st with
        | Some _ =>
            if Nat.ltb (List.length (wh_lines st)) 5 then
              if is_bullet line then
                ret {| wh_history := wh_history st;
                       wh_current := wh_current st;
                       wh_lines := wh_lines st ++ [strip (skipn 1 line)] |}
              else if Nat.ltb 20 (List.length line) then
                ret {| wh_history := wh_history st;
                       wh_current := wh_current st;
                       wh_lines := wh_lines st ++ [line] |}
              else ret st
            else ret st
        | None => ret st
        end
    end.

Definition _extract_work_history (text : str) : M (list Job) :=
  enter "_extract_work_history" ;;
  match re_search experience_section_pattern text IGNORECASE with
  | None => ret []
  | Some experience_section =>
      match group experience_section 1 with
      | None => raise AttributeError
      | Some experience_text =>
          let lines := split_on 10%N experience_text in
          st <- for_each work_history_line lines
                  {| wh_history := []; wh_current := None; wh_lines := [] |} ;;
          let work_history :=
            match wh_current st with
            | Some job =>
                wh_history st ++ [with_description job (wh_lines st)]
            | None => wh_history st
            end in
          ret (firstn 5 work_history)
      end
  end.

(** *** _extract_location *)

Definition location_from_pattern (text : str) (pattern : regex)
  : M (option str) :=
  match re_search pattern text IGNORECASE with
  | None => ret None
  | Some m =>
      location <- strip_of (group m 1) ;;
      let location := re_sub (plus space) (u " ") location in
      if Nat.ltb 3 (List.length location) && Nat.ltb (List.length location) 100
      then ret (Some location)
      else ret None
  end.

Definition _extract_location (text : str) : M (option str) :=
  enter "_extract_location" ;;
  first_some (location_from_pattern text) location_patterns.

(** *** _extract_salary_expectation *)

Definition _extract_salary_expectation (text : str) : M (option str) :=
  enter "_extract_salary_expectation" ;;
  match first_match salary_patterns text IGNORECASE with
  | Some m => ret (group m 1)
  | None => ret None
  end.

(** *** _calculate_confidence_scores *)

Definition _calculate_confidence_scores (parsed_data : ParsedProfile)
    (text : str) : list (string * Q) :=
  let scores := [] in
  let scores :=
    match name parsed_data with
    | Some n =>
        if nonempty n && Nat.leb 2 (List.length (split_ws n))
        then dict_set "name" (9 # 10)%Q scores
        else if nonempty n
        then dict_set "name" (6 # 10)%Q scores
        else dict_set "name" (1 # 10)%Q scores
    | None => dict_set "name" (1 # 10)%Q scores
    end in
  let scores :=
    dict_set "email"
      (if truthy (email parsed_data) then (95 # 100)%Q else (0 # 1)%Q)
      scores in
  let scores :=
    dict_set "phone"
      (if truthy (phone parsed_data) then (85 # 100)%Q else (0 # 1)%Q)
      scores in
  let n_skills := List.length (skills parsed_data) in
  let scores :=
    if Nat.leb 5 n_skills then dict_set "skills" (9 # 10)%Q scores
    else if Nat.leb 3 n_skills then dict_set "skills" (7 # 10)%Q scores
    else if Nat.leb 1 n_skills then dict_set "skills" (5 # 10)%Q scores
    else dict_set "skills" (1 # 10)%Q scores in
  let scores :=
    dict_set "experience"
      (if truthy (experience parsed_data) then (8 # 10)%Q else (3 # 10)%Q)
      scores in
  let scores :=
    dict_set "education"
      (if truthy (education parsed_data) then (8 # 10)%Q else (2 # 10)%Q)
      scores in
  let scores :=
    dict_set "overall"
      (Qdiv (sum_values scores)
            (inject_Z (Z.of_nat (List.length scores))))
      scores in
  scores.

(** *** _create_empty_result *)

Definition zero : Q := (0 # 1)%Q.

Definition _create_empty_result : ParsedProfile :=
  {| name := None;
     email := None;
     phone := None;
     skills := [];
     experience := None;
     education := None;
     work_history := [];
     location := None;
     salary_expectation := None;
     raw_text := [];
     confidence_scores :=
       [("name", zero); ("email", zero); ("phone", zero); ("skills", zero);
        ("experience", zero); ("education", zero); ("overall", zero)]%string
  |}.

(** *** The document loader *)

Definition pdf_notice : str :=
  u "PDF parsing not available. Please install PyPDF2.".
Definition docx_notice : str :=
  u "DOCX parsing not available. Please install python-docx.".

Definition _extract_pdf_text (file_path : str) : M str :=
  enter "_extract_pdf_text" ;;
  if negb (PDF_PARSING_AVAILABLE R) then ret pdf_notice
  else
    try_except
      (pages <- lift (pdf_pages R file_path) ;;
       text <- for_each
                 (fun text page =>
                    page_text <- lift page ;;
                    if truthy page_text
                    then ret (text ++ match page_text with
                                      | Some s => s
                                      | None => []
                                      end ++ [10%N])
                    else ret text)
                 pages [] ;;
       ret (strip text))
      (fun e =>
         log ERROR "PDF extraction error" ;;
         ret []).

Definition _extract_docx_text (file_path : str) : M str :=
  enter "_extract_docx_text" ;;
  if negb (DOCX_PARSING_AVAILABLE R) then ret docx_notice
  else
    try_except
      (doc <- lift (docx_document R file_path) ;;
       let text_parts :=
         filter (fun paragraph => nonempty (strip paragraph))
                (paragraphs doc) in
       let text_parts :=
         fold_left
           (fun text_parts table =>
              fold_left
                (fun text_parts row =>
                   let row_text :=
                     map strip
                         (filter (fun cell => nonempty (strip cell)) row) in
                   if nonempty row_text
                   then text_parts ++ [join (u " | ") row_text]
                   else text_parts)
                table text_parts)
           (tables doc) text_parts in
       ret (join [10%N] text_parts))
      (fun e =>
         log ERROR "DOCX extraction error" ;;
         ret []).

(** [async with aiofiles.open(...) as f: return await f.read()]: the
    global name is looked up first. *)
Definition read_with_aiofiles (file_path : str) : M str :=
  load_global R "aiofiles" ;;
  lift (aiofiles_read R file_path).

Definition _extract_text_from_file (file_path : str) : M str :=
  enter "_extract_text_from_file" ;;
  try_except
    (let file_extension := str_lower (splitext_ext file_path) in
     if str_eqb file_extension (u ".pdf") then _extract_pdf_text file_path
     else if existsb (str_eqb file_extension) [u ".docx"; u ".doc"]
     then _extract_docx_text file_path
     else if str_eqb file_extension (u ".txt")
     then read_with_aiofiles file_path
     else
       try_except
         (read_with_aiofiles file_path)
         (fun _ =>
            log ERROR "Unsupported file format" ;;
            ret []))
    (fun e =>
       log ERROR "Text extraction error" ;;
       ret []).

(** *** parse_resume *)

(** The body of the [try] statement of [parse_resume]. *)
Definition parse_body (file_path : str) : M ParsedProfile :=
  text <- _extract_text_from_file file_path ;;
  if negb (nonempty (strip text)) then
    log WARNING "No text extracted" ;;
    ret _create_empty_result
  else
    v_name <- _extract_name text ;;
    v_email <- _extract_email text ;;
    v_phone <- _extract_phone text ;;
    v_skills <- _extract_skills text ;;
    v_experience <- _extract_experience text ;;
    v_education <- _extract_education text ;;
    v_work_history <- _extract_work_history text ;;
    v_location <- _extract_location text ;;
    v_salary <- _extract_salary_expectation text ;;
    let parsed_data :=
      {| name := v_name;
         email := v_email;
         phone := v_phone;
         skills := v_skills;
         experience := v_experience;
         education := v_education;
         work_history := v_work_history;
         location := v_location;
         salary_expectation := v_salary;
         raw_text := firstn 2000 text;
         confidence_scores := [] |} in
    let parsed_data :=
      {| name := name parsed_data;
         email := email parsed_data;
         phone := phone parsed_data;
         skills := skills parsed_data;
         experience := experience parsed_data;
         education := education parsed_data;
         work_history := work_history parsed_data;
         location := location parsed_data;
         salary_expectation := salary_expectation parsed_data;
         raw_text := raw_text parsed_data;
         confidence_scores :=
           _calculate_confidence_scores parsed_data text |} in
    log INFO "Resume parsed successfully" ;;
    ret parsed_data.

Definition parse_resume (file_path : str) : M ParsedProfile :=
  enter "parse_resume" ;;
  try_except
    (parse_body file_path)
    (fun e =>
       log ERROR "Resume parsing error" ;;
       ret _create_empty_result).

End Parser.

(** The nine field extractors [parse_resume] calls. *)
Definition field_extractors : list string :=
  ["_extract_name"; "_extract_email"; "_extract_phone"; "_extract_skills";
   "_extract_experience"; "_extract_education"; "_extract_work_history";
   "_extract_location"; "_extract_salary_expectation"]%string.

(** The other entries of [confidence_scores] and their mean. *)
Definition other_scores (d : list (string * Q)) : list (string * Q) :=
  filter (fun kv => negb (String.eqb (fst kv) "overall")) d.

Definition mean (d : list (string * Q)) : Q :=
  Qdiv (sum_values d) (inject_Z (Z.of_nat (List.length d))).

(** Concrete runtimes and inputs used in the examples below.  The clock
    reads 2026, the digit limit of [int] is the interpreter default, no
    spaCy model is loaded; [docx_runtime txt] finds one paragraph [txt] in
    every document. *)
Definition docx_runtime (txt : str) : Runtime :=
  {| SPACY_AVAILABLE := false;
     PDF_PARSING_AVAILABLE := true;
     DOCX_PARSING_AVAILABLE := true;
     nlp := None;
     pdf_pages := fun _ => Raise (LibraryError "not a PDF file");
     docx_document := fun _ => Ok {| paragraphs := [txt]; tables := [] |};
     aiofiles_read := fun _ => Ok txt;
     current_year := 2026%Z;
     int_max_str_digits := 4300 |}.

(** A runtime in which PyPDF2 and pypdf are not installed. *)
Definition no_pdf_runtime : Runtime :=
  {| SPACY_AVAILABLE := false;
     PDF_PARSING_AVAILABLE := false;
     DOCX_PARSING_AVAILABLE := true;
     nlp := None;
     pdf_pages := fun _ => Ok [Ok (Some (u "Jane Doe"))];
     docx_document := fun _ => Raise (LibraryError "not a DOCX file");
     aiofiles_read := fun _ => Ok (u "Jane Doe");
     current_year := 2026%Z;
     int_max_str_digits := 4300 |}.

(** A runtime in which the second page of every PDF cannot be read. *)
Definition bad_page_runtime : Runtime :=
  {| SPACY_AVAILABLE := false;
     PDF_PARSING_AVAILABLE := true;
     DOCX_PARSING_AVAILABLE := true;
     nlp := None;
     pdf_pages := fun _ => Ok [Ok (Some (u "Jane Doe"));
                               Raise (LibraryError "broken page")];
     docx_document := fun _ => Raise (LibraryError "not a DOCX file");
     aiofiles_read := fun _ => Ok (u "Jane Doe");
     current_year := 2026%Z;
     int_max_str_digits := 4300 |}.

(** A spaCy pipeline that rejects every text. *)
Definition failing_nlp_runtime (txt : str) : Runtime :=
  {| SPACY_AVAILABLE := true;
     PDF_PARSING_AVAILABLE := true;
     DOCX_PARSING_AVAILABLE := true;
     nlp := Some (fun _ => Raise ValueError);
     pdf_pages := fun _ => Raise (LibraryError "not a PDF file");
     docx_document := fun _ => Ok {| paragraphs := [txt]; tables := [] |};
     aiofiles_read := fun _ => Ok txt;
     current_year := 2026%Z;
     int_max_str_digits := 4300 |}.

(** A name line, an email line and a line claiming 4301 digits of
    years. *)
Definition long_digits_text : str :=
  u "Jane Doe" ++ [10%N] ++ u "jane@corp.io" ++ [10%N]
  ++ repeat 49%N 4301 ++ u " years experience".

Definition sixty_years_text : str := u "60 years of experience".

Definition sample_text : str :=
  u "Jane Doe" ++ [10%N] ++ u "jane@corp.io" ++ [10%N]
  ++ u "Skills: Python, Docker" ++ [10%N]
  ++ u "Experience" ++ [10%N]
  ++ u "Engineer | Acme | 2015 - 2020" ++ [10%N]
  ++ u "- built the billing service" ++ [10%N]
  ++ u "- ran the migration" ++ [10%N]
  ++ u "- wrote the docs" ++ [10%N]
  ++ u "- mentored two interns".

(** The extension the loader dispatches on. *)
Definition file_extension {U : UCD} (file_path : str) : str :=
  str_lower (splitext_ext file_path).

(** Every method entry recorded in [t] is one of [names]. *)
Definition only_enters (names : list string) (t : trace) : Prop :=
  Forall (fun ev =>
            match ev with
            | Entered m => In m names
            | Logged _ _ => True
            end) t.

Definition loader_methods : list string :=
  ["_extract_text_from_file"; "_extract_pdf_text";
   "_extract_docx_text"]%string.

(** The record [parse_body] builds from the results of the extractors. *)
Definition assemble (text : str) (v_name v_email v_phone : option str)
    (v_skills : list str) (v_experience v_education : option str)
    (v_work_history : list Job) (v_location v_salary : option str)
  : ParsedProfile :=
  let parsed_data :=
    {| name := v_name;
       email := v_email;
       phone := v_phone;
       skills := v_skills;
       experience := v_experience;
       education := v_education;
       work_history := v_work_history;
       location := v_location;
       salary_expectation := v_salary;
       raw_text := firstn 2000 text;
       confidence_scores := [] |} in
  {| name := v_name;
     email := v_email;
     phone := v_phone;
     skills := v_skills;
     experience := v_experience;
     education := v_education;
     work_history := v_work_history;
     location := v_location;
     salary_expectation := v_salary;
     raw_text := firstn 2000 text;
     confidence_scores := _calculate_confidence_scores parsed_data text |}.

(** [p] is what [parse_body] returns on a non-blank [text] when no
    extractor raises. *)
Definition assembled_from {U : UCD} (R : Runtime) (text : str)
    (p : ParsedProfile) : Prop :=
  exists v_name v_email v_phone v_skills v_experience v_education
         v_work_history v_location v_salary,
    fst (_extract_name text) = Ok v_name
    /\ fst (_extract_email text) = Ok v_email
    /\ fst (_extract_phone text) = Ok v_phone
    /\ fst (_extract_skills R text) = Ok v_skills
    /\ fst (_extract_experience R text) = Ok v_experience
    /\ fst (_extract_education text) = Ok v_education
    /\ fst (_extract_work_history text) = Ok v_work_history
    /\ fst (_extract_location text) = Ok v_location
    /\ fst (_extract_salary_expectation text) = Ok v_salary
    /\ p = assemble text v_name v_email v_phone v_skills v_experience
             v_education v_work_history v_location v_salary.

(** Some field extractor raises on [text]. *)
Definition some_extractor_raises {U : UCD} (R : Runtime) (text : str)
  : Prop :=
  (exists e, fst (_extract_name text) = Raise e)
  \/ (exists e, fst (_extract_email text) = Raise e)
  \/ (exists e, fst (_extract_phone text) = Raise e)
  \/ (exists e, fst (_extract_skills R text) = Raise e)
  \/ (exists e, fst (_extract_experience R text) = Raise e)
  \/ (exists e, fst (_extract_education text) = Raise e)
  \/ (exists e, fst (_extract_work_history text) = Raise e)
  \/ (exists e, fst (_extract_location text) = Raise e)
  \/ (exists e, fst (_extract_salary_expectation text) = Raise e).

(** A job entry whose description, when present, has at most 3 lines. *)
Definition description_bounded (job : Job) : Prop :=
  forall lines, description job = Some lines -> List.length lines <= 3.

(** The loop invariant of [_extract_work_history]: saved jobs have a
    bounded description, the open job has none yet. *)
Definition wh_invariant (st : wh_state) : Prop :=
  Forall description_bounded (wh_history st)
  /\ (forall job, wh_current st = Some job -> description job = None).

(** The runtime [R] without its spaCy pipeline. *)
Definition regex_only (R : Runtime) : Runtime :=
  {| SPACY_AVAILABLE := SPACY_AVAILABLE R;
     PDF_PARSING_AVAILABLE := PDF_PARSING_AVAILABLE R;
     DOCX_PARSING_AVAILABLE := DOCX_PARSING_AVAILABLE R;
     nlp := None;
     pdf_pages := pdf_pages R;
     docx_document := docx_document R;
     aiofiles_read := aiofiles_read R;
     current_year := current_year R;
     int_max_str_digits := int_max_str_digits R |}.

(** *** The scoring table, as the specification words it

    A field is present when it is neither None nor empty; the tokens of a
    name are its whitespace-separated words. *)
Definition present (o : option str) : bool := truthy o.

Definition tokens (o : option str) : nat :=
  match o with
  | Some n => List.length (split_ws n)
  | None => 0
  end.

Definition spec_name_score (v : option str) : Q :=
  if Nat.leb 2 (tokens v) then (9 # 10)%Q
  else if present v && Nat.eqb (tokens v) 1 then (6 # 10)%Q
  else (1 # 10)%Q.

Definition spec_email_score (v : option str) : Q :=
  if present v then (95 # 100)%Q else (0 # 1)%Q.

Definition spec_phone_score (v : option str) : Q :=
  if present v then (85 # 100)%Q else (0 # 1)%Q.

Definition spec_skills_score (found : list str) : Q :=
  if Nat.leb 5 (List.length found) then (9 # 10)%Q
  else if Nat.leb 3 (List.length found) then (7 # 10)%Q
  else if Nat.leb 1 (List.length found) then (5 # 10)%Q
  else (1 # 10)%Q.

Definition spec_experience_score (v : option str) : Q :=
  if present v then (8 # 10)%Q else (3 # 10)%Q.

Definition spec_education_score (v : option str) : Q :=
  if present v then (8 # 10)%Q else (2 # 10)%Q.

Definition spec_scores (p : ParsedProfile) : list (string * Q) :=
  [ ("name", spec_name_score (name p));
    ("email", spec_email_score (email p));
    ("phone", spec_phone_score (phone p));
    ("skills", spec_skills_score (skills p));
    ("experience", spec_experience_score (experience p));
    ("education", spec_education_score (education p)) ]%string.

(** Whether a list of strings ascends in code-point order, neighbour by
    neighbour. *)
Fixpoint ascending (l : list str) : bool :=
  match l with
  | a :: (b :: _) as rest => str_leb a b && ascending rest
  | _ => true
  end.

(** Whether an address, once lower-cased, contains a placeholder domain. *)
Definition is_placeholder {U : UCD} (address : str) : bool :=
  existsb (fun domain => contains domain (str_lower address))
          placeholder_domains.

(** Two addresses, the first on a placeholder domain. *)
Definition two_emails_text : str :=
  u "Contact: Demo@Example.com or Jane.Doe@Corp.io".

(** The runtime [R] whose PDF reader finds the given pages in every
    file. *)
Definition with_pdf_pages (R : Runtime)
    (pages : list (result (option str))) : Runtime :=
  {| SPACY_AVAILABLE := SPACY_AVAILABLE R;
     PDF_PARSING_AVAILABLE := PDF_PARSING_AVAILABLE R;
     DOCX_PARSING_AVAILABLE := DOCX_PARSING_AVAILABLE R;
     nlp := nlp R;
     pdf_pages := fun _ => Ok pages;
     docx_document := docx_document R;
     aiofiles_read := aiofiles_read R;
     current_year := current_year R;
     int_max_str_digits := int_max_str_digits R |}.

(** The texts of the pages that yield some text, each followed by a line
    feed. *)
Definition page_lines (pages : list (option str)) : str :=
  flat_map (fun page =>
              match page with
              | Some s => if nonempty s then s ++ [10%N] else []
              | None => []
              end) pages.

(** The title, company and dates a line gives when, stripped, it is not
    empty and matches one of the job patterns. *)
Definition header_of {U : UCD} (line : str) : option (str * str * str) :=
  let line := strip line in
  if nonempty line then
    match first_match job_patterns line NOFLAGS with
    | Some m =>
        Some (strip (match group m 1 with Some g => g | None => [] end),
              strip (match group m 2 with Some g => g | None => [] end),
              match group m 3 with
              | Some d => if nonempty d then strip d else []
              | None => []
              end)
    | None => None
    end
  else None.

Definition header_jobs {U : UCD} (lines : list str)
  : list (str * str * str) :=
  flat_map (fun line => match header_of line with
                        | Some h => [h]
                        | None => []
                        end) lines.

Definition job_key (job : Job) : str * str * str :=
  (title job, company job, dates job).

(** The jobs a loop state holds, saved ones first. *)
Definition jobs_so_far (st : wh_state) : list Job :=
  wh_history st ++ match wh_current st with
                   | Some job => [job]
                   | None => []
                   end.

(** What [re.sub(r'[^\d\+]', '', match)] keeps. *)
Definition digit_or_plus {U : UCD} (c : char) : bool :=
  isdecimal c || N.eqb c (chr "+").

Definition phone_sized {U : UCD} (mtext : str) : bool :=
  let n := List.length (filter digit_or_plus mtext) in
  Nat.leb 10 n && Nat.leb n 15.

(** Every match of every phone pattern, pattern by pattern and, for one
    pattern, from left to right. *)
Definition phone_candidates {U : UCD} (text : str) : list str :=
  flat_map (fun pattern => re_findall pattern text IGNORECASE)
           phone_patterns.

(* ================================================================== *)
(** ** fixed_main.py: the upload endpoint *)
(* ================================================================== *)

(** [s.endswith(p)] *)
Definition endswith (p s : str) : bool := startswith (rev p) (rev s).

(** [os.path.join(a, b)] (posixpath). *)
Definition path_join (a b : str) : str :=
  if startswith (u "/") b then b
  else if negb (nonempty a) || endswith (u "/") a then a ++ b
  else a ++ u "/" ++ b.

Section IntText.
Context {U : UCD}.

(** The white space [int] skips at both ends: an ASCII character is
    tested with [Py_ISSPACE], any other with [Py_UNICODE_ISSPACE]. *)
Definition int_space (c : char) : bool :=
  if N.ltb c 127%N then in_range 9%N 13%N c || N.eqb c 32%N
  else isspace c.

Fixpoint int_lskip (s : str) : str :=
  match s with
  | [] => []
  | c :: s' => if int_space c then int_lskip s' else s
  end.

Definition underscore : char := chr "_".

(** Digits, with single underscores allowed between two of them. *)
Definition int_body_ok (body : str) : bool :=
  nonempty body
  && forallb (fun c => isdecimal c || char_eqb c underscore) body
  && negb (startswith [underscore] body)
  && negb (endswith [underscore] body)
  && negb (contains [underscore; underscore] body).

(** [int(s)] for a [str]: optional white space, an optional sign, the
    digits, optional white space; [limit] is
    [sys.get_int_max_str_digits()]. *)
Definition int_of_text (limit : nat) (s : str) : M Z :=
  let t := rev (int_lskip (rev (int_lskip s))) in
  let (negative, body) :=
    match t with
    | c :: rest =>
        if char_eqb c (chr "-") then (true, rest)
        else if char_eqb c (chr "+") then (false, rest)
        else (false, t)
    | [] => (false, [])
    end in
  if int_body_ok body then
    let digits := filter (fun c => negb (char_eqb c underscore)) body in
    if Nat.ltb 640 (List.length digits)
       && Nat.ltb 0 limit && Nat.ltb limit (List.length digits)
    then raise ValueError
    else ret (if negative then (- int_of_digits digits)%Z
              else int_of_digits digits)
  else raise ValueError.

End IntText.

(** *** _fallback_resume_parse *)

Definition basic_skills : list str :=
  map u ["Python"; "JavaScript"; "React"; "Node.js"; "SQL"; "AWS"; "Docker";
         "Git"]%string.

(* \(?\d{3}\)?[-.\s]?\d{3}[-.\s]?\d{4} *)
Definition fallback_phone_pattern : regex :=
  cat [opt (tx "("); times 3 3 digit; opt (tx ")"); opt dash_dot_space;
       times 3 3 digit; opt dash_dot_space; times 4 4 digit].

Section Fallback.
Context {U : UCD}.

(** The test of the name loop on a stripped line. *)
Definition short_capitalised_line (line : str) : bool :=
  Nat.ltb 0 (List.length line) && Nat.ltb (List.length line) 50
  && let words := split_ws line in
     Nat.leb 1 (List.length words) && Nat.leb (List.length words) 3
     && forallb (fun word => str_isupper (firstn 1 word))
                (filter (@nonempty char) words).

(** [content] is the text the uploaded bytes decode to as UTF-8 with
    undecodable bytes dropped.  The dict returned has no
    salary_expectation key, which no caller reads; the record holds
    [None] there. *)
Definition _fallback_resume_parse (content : str) : M ParsedProfile :=
  enter "_fallback_resume_parse" ;;
  try_except
    (let text := content in
     let v_email :=
       match re_search email_pattern text NOFLAGS with
       | Some email_match => Some (str_lower (m_text email_match))
       | None => None
       end in
     let v_phone :=
       match re_search fallback_phone_pattern text NOFLAGS with
       | Some phone_match => Some (m_text phone_match)
       | None => None
       end in
     let lines := firstn 10 (split_on 10%N text) in
     let v_name := find short_capitalised_line (map strip lines) in
     let text_lower := str_lower text in
     let found_skills :=
       filter (fun skill => contains (str_lower skill) text_lower)
              basic_skills in
     ret {| name := Some (match v_name with
                          | Some n => if nonempty n then n else u "Unknown"
                          | None => u "Unknown"
                          end);
            email := v_email;
            phone := v_phone;
            skills := found_skills;
            experience := None;
            education := None;
            work_history := [];
            location := None;
            salary_expectation := None;
            raw_text := firstn 500 text;
            confidence_scores := [("overall"%string, (3 # 10)%Q)] |})
    (fun e =>
       log ERROR "Fallback parsing error" ;;
       ret {| name := Some (u "Unknown");
              email := None;
              phone := None;
              skills := [];
              experience := None;
              education := None;
              work_history := [];
              location := None;
              salary_expectation := None;
              raw_text := [];
              confidence_scores := [("overall"%string, zero)] |}).

End Fallback.

(** *** upload_resume *)

(** The candidate dict the endpoint stores. *)
Record Candidate := {
  cand_id : Z;
  cand_name : str;
  cand_email : option str;
  cand_phone : option str;
  cand_skills : list str;
  cand_experience : option str;
  cand_education : option str;
  cand_work_history : list Job;
  cand_location : option str;
  cand_status : str;
  cand_applied_jobs : list Z;
  cand_match_scores : list Q;
  cand_resume_file_path : str;
  cand_original_filename : str;
  cand_created_date : str;
  cand_updated_date : str;
  cand_confidence_scores : list (string * Q);
  cand_raw_text : str
}.

(** The keys of [app_state] the endpoint touches. *)
Record AppState := {
  candidates : list Candidate;
  next_id : Z
}.

(** The [UploadFile] of a request: its name, its size when the attribute
    is there and set, and what [await file.read()] gives, decoded. *)
Record UploadFile := {
  filename : option str;
  size : option Z;
  read : result str
}.

(** Everything around the endpoint that one request depends on. *)
Record Server := {
  max_file_size : Z;                       (* settings.max_file_size *)
  upload_dir : str;                        (* settings.upload_dir *)
  resume_parser : option Runtime;          (* services['resume_parser'] *)
  db_save_candidate : option (Candidate -> result unit);  (* services['db'] *)
  uuid4 : str;                             (* str(uuid.uuid4()) *)
  write_file : str -> result unit;         (* aiofiles.open(path, 'wb'), write *)
  now_created : str;                       (* datetime.now().isoformat() *)
  now_updated : str;
  max_str_digits : nat                     (* sys.get_int_max_str_digits() *)
}.

Record Response := {
  candidate : Candidate;
  parsing_confidence : Q
}.

(** How a request handler ends: a value, an [HTTPException], or another
    exception. *)
Inductive failure :=
| HTTPException (status_code : Z)
| Exception (e : exn).

Inductive outcome (A : Type) :=
| Returned (a : A)
| Failed (f : failure).
Arguments Returned {A} a.
Arguments Failed {A} f.

(** A handler step: its outcome, [app_state] as it leaves it, and the
    events it produced. *)
Definition Handler (A : Type) : Type := AppState -> outcome A * AppState * trace.

Definition h_ret {A} (a : A) : Handler A := fun st => (Returned a, st, []).

Definition h_bind {A B} (c : Handler A) (k : A -> Handler B) : Handler B :=
  fun st =>
    match c st with
    | (Returned a, st', t) =>
        match k a st' with
        | (r, st'', t') => (r, st'', t ++ t')
        end
    | (Failed f, st', t) => (Failed f, st', t)
    end.

Definition h_fail {A} (f : failure) : Handler A := fun st => (Failed f, st, []).

(** A computation of the parser's monad, run inside a handler. *)
Definition h_run {A} (c : M A) : Handler A :=
  fun st =>
    match c with
    | (Ok a, t) => (Returned a, st, t)
    | (Raise e, t) => (Failed (Exception e), st, t)
    end.

(** [try: c  except Exception as e: h]; an [HTTPException] is an
    [Exception] too. *)
Definition h_try {A} (c : Handler A) (h : failure -> Handler A) : Handler A :=
  fun st =>
    match c st with
    | (Returned a, st', t) => (Returned a, st', t)
    | (Failed f, st', t) =>
        match h f st' with
        | (r, st'', t') => (r, st'', t ++ t')
        end
    end.

Definition h_log (l : level) (msg : string) : Handler unit :=
  h_run (log l msg).

Declare Scope http_scope.
Delimit Scope http_scope with http.
Notation "x <- c ;; k" := (h_bind c (fun x => k))
  (at level 100, c at next level, right associativity) : http_scope.
Notation "c ;; k" := (h_bind c (fun _ => k))
  (at level 100, right associativity) : http_scope.

Definition get_next_id : Handler Z :=
  fun st =>
    (Returned (next_id st),
     {| candidates := candidates st; next_id := (next_id st + 1)%Z |},
     []).

(** [app_state["candidates"].append(candidate)] *)
Definition append_candidate (candidate : Candidate) : Handler unit :=
  fun st =>
    (Returned tt,
     {| candidates := candidates st ++ [candidate];
        next_id := next_id st |},
     []).

Definition allowed_extensions : list str :=
  map u [".pdf"; ".docx"; ".doc"]%string.

(** The three checks that answer 400. *)
Definition no_file (file : UploadFile) : bool := negb (truthy (filename file)).

Definition upload_extension {U : UCD} (file : UploadFile) : str :=
  str_lower (splitext_ext (match filename file with
                           | Some n => n
                           | None => []
                           end)).

Definition too_large (env : Server) (file : UploadFile) : bool :=
  match size file with
  | Some n => negb (Z.eqb n 0) && Z.ltb (max_file_size env) n
  | None => false
  end.

(** Where the upload is saved. *)
Definition saved_path {U : UCD} (env : Server) (file : UploadFile) : str :=
  path_join (upload_dir env) (uuid4 env ++ upload_extension file).

Local Open Scope http_scope.

(** The parsing step: [parse_resume] under a [try] whose handler is the
    fallback, or the fallback alone when there is no parser service. *)
Definition parse_uploaded {U : UCD} (env : Server) (content file_path : str)
  : Handler ParsedProfile :=
  match resume_parser env with
  | Some R =>
      h_try
        (parsed_data <- h_run (parse_resume R file_path) ;;
         h_log INFO "Resume parsed" ;;
         h_ret parsed_data)
        (fun e =>
           h_log ERROR "Parsing error" ;;
           h_run (_fallback_resume_parse content))
  | None => h_run (_fallback_resume_parse content)
  end.

(** [[int(job_id)] if job_id else []] *)
Definition applied_jobs_of {U : UCD} (env : Server) (job_id : option str)
  : Handler (list Z) :=
  if truthy job_id
  then n <- h_run (int_of_text (max_str_digits env)
                     (match job_id with Some j => j | None => [] end)) ;;
       h_ret [n]
  else h_ret [].

(** The candidate record, once [int(job_id)] has been evaluated. *)
Definition new_candidate (env : Server) (file : UploadFile)
    (file_path : str) (candidate_id : Z) (parsed_data : ParsedProfile)
    (applied_jobs : list Z) : Candidate :=
  {| cand_id := candidate_id;
     cand_name := match name parsed_data with
                  | Some n => if nonempty n then n else u "Unknown Candidate"
                  | None => u "Unknown Candidate"
                  end;
     cand_email := email parsed_data;
     cand_phone := phone parsed_data;
     cand_skills := skills parsed_data;
     cand_experience := experience parsed_data;
     cand_education := education parsed_data;
     cand_work_history := work_history parsed_data;
     cand_location := location parsed_data;
     cand_status := u "Applied";
     cand_applied_jobs := applied_jobs;
     cand_match_scores := [];
     cand_resume_file_path := file_path;
     cand_original_filename := match filename file with
                               | Some n => n
                               | None => []
                               end;
     cand_created_date := now_created env;
     cand_updated_date := now_updated env;
     cand_confidence_scores := confidence_scores parsed_data;
     cand_raw_text := firstn 500 (raw_text parsed_data) |}.

(** [if services['db']: await services['db'].save_candidate(candidate)] *)
Definition db_save (env : Server) (candidate : Candidate) : Handler unit :=
  match db_save_candidate env with
  | Some save => h_run (lift (save candidate))
  | None => h_ret tt
  end.

(** [parsed_data.get("confidence_scores", {}).get("overall", 0.0)] *)
Definition overall_of (parsed_data : ParsedProfile) : Q :=
  match dict_get "overall" (confidence_scores parsed_data) with
  | Some v => v
  | None => zero
  end.

(** What the endpoint does once the three checks have passed. *)
Definition upload_accepted {U : UCD} (env : Server) (file : UploadFile)
    (job_id : option str) : Handler Response :=
  h_log INFO "Processing resume" ;;
  let file_path := saved_path env file in
  content <- h_run (lift (read file)) ;;
  h_run (lift (write_file env file_path)) ;;
  h_log INFO "File saved" ;;
  parsed_data <- parse_uploaded env content file_path ;;
  candidate_id <- get_next_id ;;
  applied_jobs <- applied_jobs_of env job_id ;;
  let candidate :=
    new_candidate env file file_path candidate_id parsed_data applied_jobs in
  append_candidate candidate ;;
  db_save env candidate ;;
  h_log INFO "Candidate created" ;;
  h_ret {| candidate := candidate;
           parsing_confidence := overall_of parsed_data |}.

(** The body of the [try] statement of [upload_resume]. *)
Definition upload_body {U : UCD} (env : Server) (file : UploadFile)
    (job_id : option str) : Handler Response :=
  if no_file file then h_fail (HTTPException 400%Z)
  else if negb (existsb (str_eqb (upload_extension file)) allowed_extensions)
  then h_fail (HTTPException 400%Z)
  else if too_large env file then h_fail (HTTPException 400%Z)
  else upload_accepted env file job_id.

(** [upload_resume]: an [HTTPException] passes, any other exception
    becomes status 500. *)
Definition upload_resume {U : UCD} (env : Server) (file : UploadFile)
    (job_id : option str) : Handler Response :=
  fun st =>
    match upload_body env file job_id st with
    | (Failed (Exception e), st', t) =>
        (Failed (HTTPException 500%Z), st',
         t ++ [Logged ERROR "Upload error"; Logged ERROR "traceback"])
    | other => other
    end.

Local Close Scope http_scope.

(** An upload passes the three checks. *)
Definition accepted {U : UCD} (env : Server) (file : UploadFile) : bool :=
  negb (no_file file)
  && existsb (str_eqb (upload_extension file)) allowed_extensions
  && negb (too_large env file).

(** Candidate ids are pairwise different and below the next id. *)
Definition ids_fresh (st : AppState) : Prop :=
  NoDup (map cand_id (candidates st))
  /\ Forall (fun c => (cand_id c < next_id st)%Z) (candidates st).

(** A Hoare triple on handler steps: from a state in [P], a returned
    value and the state left satisfy [Q], a failure and the state left
    satisfy [E]. *)
Definition hoare {A} (P : AppState -> Prop) (c : Handler A)
    (Q : A -> AppState -> Prop) (E : failure -> AppState -> Prop) : Prop :=
  forall st, P st ->
    match fst (fst (c st)) with
    | Returned a => Q a (snd (fst (c st)))
    | Failed f => E f (snd (fst (c st)))
    end.

(** What [[int(job_id)] if job_id else []] evaluates to, when it does. *)
Definition applied_jobs_value {U : UCD} (env : Server) (job_id : option str)
    (applied : list Z) : Prop :=
  if truthy job_id
  then exists n,
         fst (int_of_text (max_str_digits env)
                (match job_id with Some j => j | None => [] end)) = Ok n
         /\ applied = [n]
  else applied = [].

(** [app_state] after one id has been drawn. *)
Definition id_drawn (st : AppState) : AppState :=
  {| candidates := candidates st; next_id := (next_id st + 1)%Z |}.

(** [app_state] after a candidate has been stored. *)
Definition stored (c : Candidate) (st : AppState) : AppState :=
  {| candidates := candidates st ++ [c]; next_id := next_id st |}.

(** A server with no database, a disk that takes every write and the
    given parser service. *)
Definition sample_server (parser : option Runtime) : Server :=
  {| max_file_size := 10485760%Z;
     upload_dir := u "./uploads";
     resume_parser := parser;
     db_save_candidate := None;
     uuid4 := u "3f2b8c1e-5d4a-4f6b-9e7a-1c2d3e4f5a6b";
     write_file := fun _ => Ok tt;
     now_created := u "2024-05-01T09:30:00.000001";
     now_updated := u "2024-05-01T09:30:00.000002";
     max_str_digits := 4300 |}.

Definition sample_upload : UploadFile :=
  {| filename := Some (u "Resume.DOCX");
     size := Some 2048%Z;
     read := Ok (u "Jane Doe") |}.

Definition fresh_state : AppState := {| candidates := []; next_id := 1%Z |}.

(** The shape of [str(uuid.uuid4())]: 36 characters, each a lower-case
    hexadecimal digit or a hyphen. *)
Definition uuid_like (s : str) : bool :=
  Nat.eqb (List.length s) 36
  && forallb (fun c => in_range (chr "0") (chr "9") c
                       || in_range (chr "a") (chr "f") c
                       || char_eqb c (chr "-")) s.

(** Neither a dot nor a slash. *)
Definition plain_char (c : char) : bool :=
  negb (char_eqb c (chr ".")) && negb (char_eqb c (chr "/")).

(** [g] is a contiguous part of [s]. *)
Definition occurs_in (g s : str) : Prop :=
  exists before after, s = before ++ g ++ after.

(** The cursor is a position of the subject [s], and every group bound
    in [cs] is a part of [s]. *)
Definition within (s : str) (cur : cursor) (cs : caps) : Prop :=
  (exists before, s = before ++ c_rest cur)
  /\ forall n g, cap_get n cs = Some g -> occurs_in g s.



(* ================================================================== *)
(** * Properties *)
(* ================================================================== *)

(** ** The monad *)

Lemma fst_bind {A B} (c : M A) (k : A -> M B) :
  fst (bind c k) =
  match fst c with Ok a => fst (k a) | Raise e => Raise e end.
Proof.
  unfold bind. destruct c as [[a | e] t]; simpl; [| reflexivity].
  destruct (k a); reflexivity.
Qed.

Lemma snd_bind {A B} (c : M A) (k : A -> M B) :
  snd (bind c k) =
  snd c ++ match fst c with Ok a => snd (k a) | Raise _ => [] end.
Proof.
  unfold bind. destruct c as [[a | e] t]; simpl.
  - destruct (k a); reflexivity.
  - now rewrite app_nil_r.
Qed.

Lemma fst_try {A} (c : M A) (h : exn -> M A) :
  fst (try_except c h) =
  match fst c with Ok a => Ok a | Raise e => fst (h e) end.
Proof.
  unfold try_except. destruct c as [[a | e] t]; simpl; [reflexivity |].
  destruct (h e); reflexivity.
Qed.

Lemma snd_try {A} (c : M A) (h : exn -> M A) :
  snd (try_except c h) =
  snd c ++ match fst c with Ok _ => [] | Raise e => snd (h e) end.
Proof.
  unfold try_except. destruct c as [[a | e] t]; simpl.
  - now rewrite app_nil_r.
  - destruct (h e); reflexivity.
Qed.

Lemma Ok_inj {A} (a b : A) : Ok a = Ok b -> a = b.
Proof. congruence. Qed.

(** A handler that logs and returns a value never raises. *)
Lemma try_log_total {A} (c : M A) (l : level) (msg : string) (d : A) :
  exists a, fst (try_except c (fun _ => log l msg ;; ret d)) = Ok a.
Proof.
  rewrite fst_try. destruct (fst c) as [a | e].
  - now exists a.
  - now exists d.
Qed.

Lemma try_log_raise {A} (c : M A) (l : level) (msg : string) (d : A) e :
  fst c = Raise e ->
  fst (try_except c (fun _ => log l msg ;; ret d)) = Ok d.
Proof.
  intros H. rewrite fst_try, H. reflexivity.
Qed.

Lemma bind_Ok_inv {A B} (c : M A) (k : A -> M B) (b : B) :
  fst (bind c k) = Ok b ->
  exists a, fst c = Ok a /\ fst (k a) = Ok b.
Proof.
  rewrite fst_bind. destruct (fst c) as [a | e]; [| discriminate].
  intros H. now exists a.
Qed.

Lemma bind_Raise {A B} (c : M A) (k : A -> M B) (e : exn) :
  fst c = Raise e -> fst (bind c k) = Raise e.
Proof. intros H. now rewrite fst_bind, H. Qed.

Lemma bind_Ok {A B} (c : M A) (k : A -> M B) (a : A) :
  fst c = Ok a -> fst (bind c k) = fst (k a).
Proof. intros H. now rewrite fst_bind, H. Qed.

(** ** Strings *)

Lemma str_eqb_eq (a b : str) : str_eqb a b = true <-> a = b.
Proof.
  revert b. induction a as [| x a IH]; intros [| y b]; simpl;
    try (split; [discriminate | discriminate]); [tauto |].
  unfold char_eqb. rewrite andb_true_iff, N.eqb_eq, IH.
  split; [intros [-> ->]; reflexivity | intros H; inversion H; auto].
Qed.

Lemma str_eqb_refl (a : str) : str_eqb a a = true.
Proof. now apply str_eqb_eq. Qed.

Lemma lstrip_blank (s : str) : forallb isspace s = true -> lstrip s = [].
Proof.
  induction s as [| c s IH]; simpl; [reflexivity |].
  intros H. apply andb_true_iff in H as [Hc Hs]. rewrite Hc. auto.
Qed.

(** A string of whitespace characters strips to the empty string. *)
Lemma strip_blank (s : str) : forallb isspace s = true -> strip s = [].
Proof.
  intros H. unfold strip, rstrip. rewrite (lstrip_blank s H). reflexivity.
Qed.

(** ** The matcher *)

Lemma keeps_refl cs : keeps cs cs.
Proof. intros n H. exact H. Qed.

Lemma keeps_trans a b c : keeps a b -> keeps b c -> keeps a c.
Proof. intros H1 H2 n H. auto. Qed.

Lemma keeps_cons n s cs : keeps cs ((n, s) :: cs).
Proof.
  intros m H. cbn [cap_get]. destruct (Nat.eqb m n); [discriminate | exact H].
Qed.

Lemma sets_keeps ns cs cs' : sets ns cs -> keeps cs cs' -> sets ns cs'.
Proof. intros H1 H2 n Hn. auto. Qed.

Section Sure.
Context {U : UCD}.

(** A successful match binds the groups of [sure_groups] and unbinds
    none. *)
Lemma rmatch_sure (f : flag) (r : regex) :
  forall k cur cs res,
    rmatch f r k cur cs = Some res ->
    exists cur' cs',
      k cur' cs' = Some res /\ sets (sure_groups r) cs' /\ keeps cs cs'.
Proof.
  induction r as [| p | neg items | a IHa b IHb | a IHa b IHb
                  | greedy lo hi body IH | n body IH | body IH | | | ];
    intros k cur cs res; cbn [rmatch sure_groups].
  - intros H. exists cur, cs. split; [exact H |]. split; [intros n [] | apply keeps_refl].
  - destruct (step cur) as [[c cur'] |]; [| discriminate].
    destruct (chr_match f p c); [| discriminate].
    intros H. exists cur', cs. split; [exact H |]. split; [intros n [] | apply keeps_refl].
  - destruct (step cur) as [[c cur'] |]; [| discriminate].
    destruct (cls_match f neg items c); [| discriminate].
    intros H. exists cur', cs. split; [exact H |]. split; [intros n [] | apply keeps_refl].
  - intros H. apply IHa in H. destruct H as (cur1 & cs1 & H & Hs1 & Hk1).
    apply IHb in H. destruct H as (cur2 & cs2 & H & Hs2 & Hk2).
    exists cur2, cs2. split; [exact H |]. split.
    + intros n Hn. apply in_app_or in Hn. destruct Hn as [Hn | Hn]; auto.
    + eapply keeps_trans; eauto.
  - destruct (rmatch f a k cur cs) as [res' |] eqn:Ea.
    + intros H. rewrite <- H in *. apply IHa in Ea.
      destruct Ea as (cur1 & cs1 & H1 & _ & Hk1).
      exists cur1, cs1. split; [exact H1 |]. split; [intros n [] | exact Hk1].
    + intros H. apply IHb in H. destruct H as (cur1 & cs1 & H1 & _ & Hk1).
      exists cur1, cs1. split; [exact H1 |]. split; [intros n [] | exact Hk1].
  - generalize (match hi with Some h => S h | None => S (List.length (c_rest cur) + lo) end).
    intros fuel.
    assert (Hloop : forall fuel count cur cs,
      (1 <= count -> sets (sure_groups body) cs) ->
      (fix loop (fuel count : nat) (cur : cursor) (cs : caps) {struct fuel}
         : option (cursor * caps) :=
         let again (_ : unit) :=
           match fuel with
           | O => None
           | S fuel' =>
               if below count hi
               then rmatch f body
                      (fun cur' cs' =>
                         if Nat.ltb (c_pos cur) (c_pos cur') || Nat.ltb count lo
                         then loop fuel' (S count) cur' cs'
                         else None)
                      cur cs
               else None
           end in
         let leave (_ : unit) :=
           if Nat.leb lo count then k cur cs else None in
         if greedy
         then match again tt with Some res => Some res | None => leave tt end
         else match leave tt with Some res => Some res | None => again tt end)
        fuel count cur cs = Some res ->
      exists cur' cs',
        k cur' cs' = Some res
        /\ sets (if Nat.leb 1 lo then sure_groups body else []) cs'
        /\ keeps cs cs').
    { clear fuel cur cs. induction fuel as [| fuel IHf]; intros count cur cs Hcount.
      - cbn beta iota zeta.
        assert (Hleave : (if Nat.leb lo count then k cur cs else None) = Some res ->
                 exists cur' cs', k cur' cs' = Some res
                   /\ sets (if Nat.leb 1 lo then sure_groups body else []) cs'
                   /\ keeps cs cs').
        { destruct (Nat.leb lo count) eqn:El; [| discriminate].
          intros H. exists cur, cs. split; [exact H |]. split; [| apply keeps_refl].
          destruct (Nat.leb 1 lo) eqn:E1; [| intros n []].
          apply Hcount. apply Nat.leb_le in El, E1. lia. }
        destruct greedy; [exact Hleave |].
        destruct (if Nat.leb lo count then k cur cs else None); [| discriminate].
        intros H. apply Hleave. exact H.
      - cbn beta iota zeta.
        match goal with
        | |- context [rmatch f body ?K cur cs] => set (K0 := K)
        end.
        assert (Hleave : (if Nat.leb lo count then k cur cs else None) = Some res ->
                 exists cur' cs', k cur' cs' = Some res
                   /\ sets (if Nat.leb 1 lo then sure_groups body else []) cs'
                   /\ keeps cs cs').
        { destruct (Nat.leb lo count) eqn:El; [| discriminate].
          intros H. exists cur, cs. split; [exact H |]. split; [| apply keeps_refl].
          destruct (Nat.leb 1 lo) eqn:E1; [| intros n []].
          apply Hcount. apply Nat.leb_le in El, E1. lia. }
        assert (Hagain : (if below count hi then rmatch f body K0 cur cs else None) = Some res ->
                 exists cur' cs', k cur' cs' = Some res
                   /\ sets (if Nat.leb 1 lo then sure_groups body else []) cs'
                   /\ keeps cs cs').
        { destruct (below count hi); [| discriminate].
          intros H. apply IH in H. destruct H as (cur1 & cs1 & H & Hs1 & Hk1).
          unfold K0 in H.
          destruct (Nat.ltb (c_pos cur) (c_pos cur1) || Nat.ltb count lo);
            [| discriminate].
          apply IHf in H; [| intros _; exact Hs1].
          destruct H as (cur2 & cs2 & H & Hs2 & Hk2).
          exists cur2, cs2. split; [exact H |]. split; [exact Hs2 |].
          eapply keeps_trans; eauto. }
        destruct greedy.
        + destruct (if below count hi then rmatch f body K0 cur cs else None)
            as [res' |] eqn:Ea.
          * intros H. rewrite <- H in *. apply Hagain. reflexivity.
          * exact Hleave.
        + destruct (if Nat.leb lo count then k cur cs else None)
            as [res' |] eqn:El.
          * intros H. rewrite <- H in *. apply Hleave. reflexivity.
          * exact Hagain. }
    intros H. apply Hloop in H; [exact H |]. intros Hc. lia.
  - intros H. apply IH in H. destruct H as (cur1 & cs1 & H & Hs1 & Hk1).
    exists cur1, ((n, span cur cur1) :: cs1). split; [exact H |]. split.
    + intros m [<- | Hm]; cbn [cap_get].
      * rewrite Nat.eqb_refl. discriminate.
      * destruct (Nat.eqb m n); [discriminate | now apply Hs1].
    + eapply keeps_trans; [exact Hk1 | apply keeps_cons].
  - destruct (rmatch f body (fun cur' cs' => Some (cur', cs')) cur cs)
      as [[cur0 cs0] |] eqn:Ea; [| discriminate].
    apply IH in Ea. destruct Ea as (cur1 & cs1 & H1 & Hs1 & Hk1).
    injection H1 as -> ->.
    intros H. exists cur, cs0. split; [exact H |]. split; assumption.
  - destruct (c_prev cur); [discriminate |].
    intros H. exists cur, cs. split; [exact H |]. split; [intros n [] | apply keeps_refl].
  - assert (Hk : k cur cs = Some res ->
              exists cur' cs', k cur' cs' = Some res /\ sets [] cs' /\ keeps cs cs').
    { intros H. exists cur, cs. split; [exact H |]. split; [intros n [] | apply keeps_refl]. }
    destruct (c_rest cur) as [| c [| c' rest]]; [exact Hk | | discriminate].
    destruct (N.eqb c 10); [exact Hk | discriminate].
  - destruct (xorb (word_before cur) (word_after cur)); [| discriminate].
    intros H. exists cur, cs. split; [exact H |]. split; [intros n [] | apply keeps_refl].
Qed.
End Sure.

(** No repeat in the patterns of the module has a body that can match
    the empty string, so the rule of [rmatch] for rounds that consume
    nothing never comes into play. *)
Lemma patterns_repeats_consume : forallb repeats_consume all_patterns = true.
Proof. reflexivity. Qed.

(** ** The document loader *)

Section LoaderFacts.
Context {U : UCD} (R : Runtime).

Lemma aiofiles_unbound :
  existsb (String.eqb "aiofiles") (module_globals R) = false.
Proof.
  unfold module_globals.
  destruct (SPACY_AVAILABLE R), (PDF_PARSING_AVAILABLE R),
    (DOCX_PARSING_AVAILABLE R); reflexivity.
Qed.

(** The read through [aiofiles] stops at the name lookup, whatever the
    file holds. *)
Lemma read_with_aiofiles_raises (file_path : str) :
  read_with_aiofiles R file_path = (Raise (NameError "aiofiles"), []).
Proof.
  unfold read_with_aiofiles, load_global.
  rewrite aiofiles_unbound. reflexivity.
Qed.

Lemma pdf_text_total (file_path : str) :
  exists s, fst (_extract_pdf_text R file_path) = Ok s.
Proof.
  unfold _extract_pdf_text. rewrite fst_bind. simpl.
  destruct (PDF_PARSING_AVAILABLE R); simpl.
  - apply try_log_total.
  - now exists pdf_notice.
Qed.

Lemma docx_text_total (file_path : str) :
  exists s, fst (_extract_docx_text R file_path) = Ok s.
Proof.
  unfold _extract_docx_text. rewrite fst_bind. simpl.
  destruct (DOCX_PARSING_AVAILABLE R); simpl.
  - apply try_log_total.
  - now exists docx_notice.
Qed.

(** The loader never raises. *)
Lemma loader_total (file_path : str) :
  exists s, fst (_extract_text_from_file R file_path) = Ok s.
Proof.
  unfold _extract_text_from_file. rewrite fst_bind. simpl.
  apply try_log_total.
Qed.

Lemma loader_pdf (file_path : str) :
  file_extension file_path = u ".pdf" ->
  fst (_extract_text_from_file R file_path)
  = fst (_extract_pdf_text R file_path).
Proof.
  unfold file_extension. intros E.
  unfold _extract_text_from_file. rewrite fst_bind. simpl.
  rewrite fst_try, E. simpl.
  destruct (pdf_text_total file_path) as [s Hs]. now rewrite Hs.
Qed.

Lemma loader_docx (file_path : str) :
  file_extension file_path = u ".docx"
  \/ file_extension file_path = u ".doc" ->
  fst (_extract_text_from_file R file_path)
  = fst (_extract_docx_text R file_path).
Proof.
  unfold file_extension. intros E.
  unfold _extract_text_from_file. rewrite fst_bind. simpl.
  rewrite fst_try.
  destruct (docx_text_total file_path) as [s Hs].
  destruct E as [E | E]; rewrite E; simpl; now rewrite Hs.
Qed.

(** Any extension other than .pdf, .docx and .doc leads to the read
    through [aiofiles], hence to the empty string. *)
Lemma loader_other (file_path : str) :
  file_extension file_path <> u ".pdf" ->
  file_extension file_path <> u ".docx" ->
  file_extension file_path <> u ".doc" ->
  fst (_extract_text_from_file R file_path) = Ok [].
Proof.
  unfold file_extension. intros Hpdf Hdocx Hdoc.
  rewrite <- str_eqb_eq in Hpdf, Hdocx, Hdoc.
  apply not_true_iff_false in Hpdf, Hdocx, Hdoc.
  unfold _extract_text_from_file. rewrite fst_bind. cbn [enter emit fst].
  rewrite fst_try. cbn [existsb]. rewrite Hpdf, Hdocx, Hdoc. cbn [orb].
  destruct (str_eqb (str_lower (splitext_ext file_path)) (u ".txt"));
    rewrite ?fst_try, read_with_aiofiles_raises; reflexivity.
Qed.

(** A page whose extraction raises makes the page loop raise. *)
Lemma pages_loop_raises (pages : list (result (option str))) (e : exn) :
  In (Raise e) pages ->
  forall acc : str,
  exists e',
    fst (for_each
           (fun text page =>
              page_text <- lift page ;;
              if truthy page_text
              then ret (text ++ match page_text with
                                | Some s => s
                                | None => []
                                end ++ [10%N])
              else ret text)
           pages acc) = Raise e'.
Proof.
  induction pages as [| page pages IH]; intros Hin acc; [contradiction |].
  cbn [for_each]. rewrite fst_bind.
  destruct page as [page_text | e0].
  - destruct Hin as [Heq | Hin]; [discriminate |].
    rewrite fst_bind. cbn [lift fst].
    destruct (truthy page_text); cbn [ret fst]; apply (IH Hin).
  - exists e0. rewrite fst_bind. reflexivity.
Qed.

Lemma pdf_text_missing (file_path : str) :
  PDF_PARSING_AVAILABLE R = false ->
  fst (_extract_pdf_text R file_path) = Ok pdf_notice.
Proof.
  intros H. unfold _extract_pdf_text. rewrite fst_bind, H. reflexivity.
Qed.

Lemma pdf_text_unreadable (file_path : str) (e : exn) :
  PDF_PARSING_AVAILABLE R = true ->
  pdf_pages R file_path = Raise e ->
  fst (_extract_pdf_text R file_path) = Ok [].
Proof.
  intros H E. unfold _extract_pdf_text. rewrite fst_bind, H. cbn [enter emit fst negb].
  apply try_log_raise with (e := e). rewrite fst_bind, E. reflexivity.
Qed.

Lemma pdf_text_bad_page (file_path : str) pages (e : exn) :
  PDF_PARSING_AVAILABLE R = true ->
  pdf_pages R file_path = Ok pages ->
  In (Raise e) pages ->
  fst (_extract_pdf_text R file_path) = Ok [].
Proof.
  intros H E Hin. unfold _extract_pdf_text. rewrite fst_bind, H.
  cbn [enter emit fst negb].
  destruct (pages_loop_raises pages e Hin []) as [e' He'].
  apply try_log_raise with (e := e').
  rewrite fst_bind, E. cbn [lift fst]. rewrite fst_bind, He'. reflexivity.
Qed.

Lemma docx_text_missing (file_path : str) :
  DOCX_PARSING_AVAILABLE R = false ->
  fst (_extract_docx_text R file_path) = Ok docx_notice.
Proof.
  intros H. unfold _extract_docx_text. rewrite fst_bind, H. reflexivity.
Qed.

Lemma docx_text_unreadable (file_path : str) (e : exn) :
  DOCX_PARSING_AVAILABLE R = true ->
  docx_document R file_path = Raise e ->
  fst (_extract_docx_text R file_path) = Ok [].
Proof.
  intros H E. unfold _extract_docx_text. rewrite fst_bind, H.
  cbn [enter emit fst negb].
  apply try_log_raise with (e := e). rewrite fst_bind, E. reflexivity.
Qed.

End LoaderFacts.

(** ** Traces *)

Lemma only_enters_nil names : only_enters names [].
Proof. constructor. Qed.

Lemma only_enters_app names t1 t2 :
  only_enters names t1 -> only_enters names t2 ->
  only_enters names (t1 ++ t2).
Proof. intros H1 H2. apply Forall_app. now split. Qed.

Lemma only_enters_bind {A B} names (c : M A) (k : A -> M B) :
  only_enters names (snd c) ->
  (forall a, only_enters names (snd (k a))) ->
  only_enters names (snd (bind c k)).
Proof.
  intros Hc Hk. rewrite snd_bind. apply only_enters_app; [assumption |].
  destruct (fst c); [apply Hk | apply only_enters_nil].
Qed.

Lemma only_enters_try {A} names (c : M A) (h : exn -> M A) :
  only_enters names (snd c) ->
  (forall e, only_enters names (snd (h e))) ->
  only_enters names (snd (try_except c h)).
Proof.
  intros Hc Hh. rewrite snd_try. apply only_enters_app; [assumption |].
  destruct (fst c); [apply only_enters_nil | apply Hh].
Qed.

Lemma only_enters_for_each {A S} names (f : S -> A -> M S) l :
  (forall s a, only_enters names (snd (f s a))) ->
  forall s, only_enters names (snd (for_each f l s)).
Proof.
  intros Hf. induction l as [| a l IH]; intros s; cbn [for_each].
  - apply only_enters_nil.
  - apply only_enters_bind; [apply Hf | intros s'; apply IH].
Qed.

Lemma only_enters_log names l msg : only_enters names (snd (log l msg)).
Proof. repeat constructor. Qed.

Lemma only_enters_enter names m :
  In m names -> only_enters names (snd (enter m)).
Proof. intros H. repeat constructor. exact H. Qed.

Lemma only_enters_lift {A} names (r : result A) :
  only_enters names (snd (lift r)).
Proof. constructor. Qed.

Lemma only_enters_ret {A} names (a : A) : only_enters names (snd (ret a)).
Proof. constructor. Qed.

Lemma only_enters_raise {A} names e :
  only_enters names (snd (@raise A e)).
Proof. constructor. Qed.

(** Splits a goal about the trace of a composed computation along its
    structure. *)
Ltac trace_steps :=
  repeat first
    [ apply only_enters_ret
    | apply only_enters_raise
    | apply only_enters_log
    | apply only_enters_lift
    | apply only_enters_nil
    | apply only_enters_enter; simpl; tauto
    | apply only_enters_bind; [| intros ?]
    | apply only_enters_try; [| intros ?]
    | apply only_enters_for_each; intros ? ?
    | match goal with
      | |- only_enters _ (snd (if ?b then _ else _)) => destruct b
      | |- only_enters _ (snd (match ?x with _ => _ end)) => destruct x
      end ].

Lemma loader_trace {U : UCD} (R : Runtime) (file_path : str) :
  only_enters loader_methods (snd (_extract_text_from_file R file_path)).
Proof.
  unfold _extract_text_from_file, _extract_pdf_text, _extract_docx_text,
    read_with_aiofiles, load_global.
  trace_steps.
Qed.

(** ** parse_resume *)

Section PipelineFacts.
Context {U : UCD} (R : Runtime).

(** How the [try] body of [parse_resume] can end. *)
Lemma parse_body_cases (file_path : str) :
  (exists e, fst (parse_body R file_path) = Raise e)
  \/ fst (parse_body R file_path) = Ok _create_empty_result
  \/ (exists text p,
        fst (_extract_text_from_file R file_path) = Ok text
        /\ strip text <> []
        /\ assembled_from R text p
        /\ fst (parse_body R file_path) = Ok p).
Proof.
  destruct (fst (parse_body R file_path)) as [p | e] eqn:E;
    [| left; now exists e].
  right. unfold parse_body in E.
  apply bind_Ok_inv in E. destruct E as (text & Et & E).
  destruct (strip text) as [| c0 rest] eqn:Es; cbn [nonempty negb] in E.
  { left. rewrite <- E. reflexivity. }
  right. exists text, p. split; [exact Et |].
  split; [rewrite Es; discriminate |]. split; [| reflexivity].
  apply bind_Ok_inv in E. destruct E as (vn & E1 & E).
  apply bind_Ok_inv in E. destruct E as (ve & E2 & E).
  apply bind_Ok_inv in E. destruct E as (vp & E3 & E).
  apply bind_Ok_inv in E. destruct E as (vs & E4 & E).
  apply bind_Ok_inv in E. destruct E as (vx & E5 & E).
  apply bind_Ok_inv in E. destruct E as (vd & E6 & E).
  apply bind_Ok_inv in E. destruct E as (vw & E7 & E).
  apply bind_Ok_inv in E. destruct E as (vl & E8 & E).
  apply bind_Ok_inv in E. destruct E as (vy & E9 & E).
  apply Ok_inj in E.
  exists vn, ve, vp, vs, vx, vd, vw, vl, vy.
  repeat (split; [assumption |]). symmetry. exact E.
Qed.

(** The handler of [parse_resume] turns every exception of the body into
    the empty result. *)
Lemma parse_resume_fst (file_path : str) :
  fst (parse_resume R file_path) =
  match fst (parse_body R file_path) with
  | Ok p => Ok p
  | Raise _ => Ok _create_empty_result
  end.
Proof.
  unfold parse_resume. rewrite fst_bind. cbn [enter emit fst].
  rewrite fst_try. destruct (fst (parse_body R file_path)); reflexivity.
Qed.

(** What [parse_resume] returns: the empty result or an assembled one. *)
Lemma parse_resume_cases (file_path : str) :
  fst (parse_resume R file_path) = Ok _create_empty_result
  \/ (exists text p,
        fst (_extract_text_from_file R file_path) = Ok text
        /\ strip text <> []
        /\ assembled_from R text p
        /\ fst (parse_resume R file_path) = Ok p).
Proof.
  rewrite parse_resume_fst.
  destruct (parse_body_cases file_path) as [[e H] | [H | (text & p & H)]].
  - left. now rewrite H.
  - left. now rewrite H.
  - right. exists text, p. destruct H as (H1 & H2 & H3 & H4).
    now rewrite H4.
Qed.

(** When an extractor raises on the loaded text, so does the body. *)
Lemma parse_body_raises (file_path : str) (text : str) :
  fst (_extract_text_from_file R file_path) = Ok text ->
  strip text <> [] ->
  some_extractor_raises R text ->
  exists e, fst (parse_body R file_path) = Raise e.
Proof.
  intros Et Es H.
  destruct (parse_body_cases file_path)
    as [Hr | [He | (text' & p & Et' & _ & Ha & _)]]; [exact Hr | |];
    exfalso.
  - unfold parse_body in He. rewrite (bind_Ok _ _ Et) in He.
    destruct (strip text) eqn:Es'; [contradiction |].
    cbn [nonempty negb] in He. unfold some_extractor_raises in H.
    apply bind_Ok_inv in He. destruct He as (vn & E1 & He).
    apply bind_Ok_inv in He. destruct He as (ve & E2 & He).
    apply bind_Ok_inv in He. destruct He as (vp & E3 & He).
    apply bind_Ok_inv in He. destruct He as (vs & E4 & He).
    apply bind_Ok_inv in He. destruct He as (vx & E5 & He).
    apply bind_Ok_inv in He. destruct He as (vd & E6 & He).
    apply bind_Ok_inv in He. destruct He as (vw & E7 & He).
    apply bind_Ok_inv in He. destruct He as (vl & E8 & He).
    apply bind_Ok_inv in He. destruct He as (vy & E9 & He).
    decompose [or ex] H; congruence.
  - rewrite Et in Et'. apply Ok_inj in Et'. subst text'.
    destruct Ha as (vn & ve & vp & vs & vx & vd & vw & vl & vy & Ha).
    unfold some_extractor_raises in H.
    decompose [and] Ha. decompose [or ex] H; congruence.
Qed.

End PipelineFacts.

Section BlankText.
Context {U : UCD} (R : Runtime).

(** On a blank text the body stops after the loader: its value is the
    empty result and its trace the loader's trace and one warning. *)
Lemma parse_body_blank (file_path text : str) :
  fst (_extract_text_from_file R file_path) = Ok text ->
  strip text = [] ->
  parse_body R file_path
  = (Ok _create_empty_result,
     snd (_extract_text_from_file R file_path)
     ++ [Logged WARNING "No text extracted"]).
Proof.
  intros Et Es. rewrite (surjective_pairing (parse_body R file_path)).
  unfold parse_body. rewrite fst_bind, snd_bind, Et, Es. reflexivity.
Qed.

Lemma parse_resume_blank (file_path text : str) :
  fst (_extract_text_from_file R file_path) = Ok text ->
  strip text = [] ->
  parse_resume R file_path
  = (Ok _create_empty_result,
     Entered "parse_resume"
     :: snd (_extract_text_from_file R file_path)
     ++ [Logged WARNING "No text extracted"]).
Proof.
  intros Et Es. unfold parse_resume.
  rewrite (parse_body_blank file_path Et Es). reflexivity.
Qed.

End BlankText.

(** ** The run on the text with 4301 digits *)

Lemma long_digits_loaded :
  fst (_extract_text_from_file (U := ascii_ucd)
         (docx_runtime long_digits_text) (u "cv.docx"))
  = Ok long_digits_text.
Proof. vm_compute. reflexivity. Qed.

Lemma long_digits_not_blank : strip long_digits_text <> [].
Proof. vm_compute. discriminate. Qed.

Lemma long_digits_experience_raises :
  fst (_extract_experience (U := ascii_ucd)
         (docx_runtime long_digits_text) long_digits_text)
  = Raise ValueError.
Proof. vm_compute. reflexivity. Qed.

Lemma long_digits_email :
  fst (_extract_email (U := ascii_ucd) long_digits_text)
  = Ok (Some (u "jane@corp.io")).
Proof. vm_compute. reflexivity. Qed.

Lemma long_digits_body_raises :
  exists e,
    fst (parse_body (U := ascii_ucd) (docx_runtime long_digits_text)
           (u "cv.docx")) = Raise e.
Proof.
  apply (parse_body_raises (u "cv.docx") long_digits_loaded
           long_digits_not_blank).
  unfold some_extractor_raises. do 4 right. left.
  exists ValueError. exact long_digits_experience_raises.
Qed.

Lemma long_digits_profile :
  fst (parse_resume (U := ascii_ucd) (docx_runtime long_digits_text)
         (u "cv.docx")) = Ok _create_empty_result.
Proof.
  rewrite parse_resume_fst.
  destruct long_digits_body_raises as [e He]. now rewrite He.
Qed.

(** ** The claims *)

(** C1. For every file path [parse_resume] returns a profile and does not
    raise; whenever the body of its [try] statement raises, the profile
    returned is the canonical empty profile. *)
Theorem parse_resume_never_raises {U : UCD} (R : Runtime) (file_path : str) :
  exists p : ParsedProfile,
    fst (parse_resume R file_path) = Ok p
    /\ (forall e, fst (parse_body R file_path) = Raise e ->
        p = _create_empty_result).
Proof.
  rewrite parse_resume_fst.
  destruct (fst (parse_body R file_path)) as [p | e].
  - exists p. split; [reflexivity | discriminate].
  - exists _create_empty_result. split; reflexivity.
Qed.

(** At a document whose text claims 4301 digits of years the body raises
    and the caller still receives the empty profile. *)
Lemma parse_resume_never_raises_witness :
  (exists e, fst (parse_body (U := ascii_ucd)
                    (docx_runtime long_digits_text) (u "cv.docx"))
             = Raise e)
  /\ fst (parse_resume (U := ascii_ucd) (docx_runtime long_digits_text)
            (u "cv.docx")) = Ok _create_empty_result.
Proof.
  destruct long_digits_body_raises as [e Hb].
  split; [now exists e |].
  destruct (parse_resume_never_raises (U := ascii_ucd)
              (docx_runtime long_digits_text) (u "cv.docx"))
    as [p [Hp He]].
  rewrite Hp. f_equal. exact (He e Hb).
Defined.

(** C2. When the loader returns an empty or whitespace-only text,
    [parse_resume] returns the canonical empty profile, enters none of the
    nine field extractors, and that profile has every optional field
    absent and every confidence score, overall included, equal to 0. *)
Theorem blank_text_short_circuits {U : UCD} (R : Runtime)
    (file_path text : str) :
  fst (_extract_text_from_file R file_path) = Ok text ->
  forallb isspace text = true ->
  fst (parse_resume R file_path) = Ok _create_empty_result
  /\ (forall m, In m field_extractors ->
      ~ In (Entered m) (snd (parse_resume R file_path)))
  /\ (name _create_empty_result = None
      /\ email _create_empty_result = None
      /\ phone _create_empty_result = None
      /\ skills _create_empty_result = []
      /\ experience _create_empty_result = None
      /\ education _create_empty_result = None
      /\ work_history _create_empty_result = []
      /\ location _create_empty_result = None
      /\ salary_expectation _create_empty_result = None)
  /\ map fst (confidence_scores _create_empty_result)
     = ["name"; "email"; "phone"; "skills"; "experience"; "education";
        "overall"]%string
  /\ (forall k v, In (k, v) (confidence_scores _create_empty_result) ->
      v = (0 # 1)%Q).
Proof.
  intros Et Hblank.
  pose proof (parse_resume_blank R file_path Et (strip_blank text Hblank))
    as Hrun.
  split; [now rewrite Hrun |].
  split.
  - intros m Hm Hin. rewrite Hrun in Hin. cbn [snd] in Hin.
    destruct Hin as [Heq | Hin].
    + injection Heq as <-. simpl in Hm.
      repeat (destruct Hm as [Hm | Hm]; [discriminate |]). exact Hm.
    + apply in_app_or in Hin. destruct Hin as [Hin | Hin].
      * pose proof (loader_trace R file_path) as Htr.
        unfold only_enters in Htr. rewrite Forall_forall in Htr.
        specialize (Htr _ Hin). cbn in Htr, Hm.
        repeat (destruct Htr as [Htr | Htr];
                [subst m;
                 repeat (destruct Hm as [Hm | Hm]; [discriminate |]);
                 exact Hm |]).
        exact Htr.
      * destruct Hin as [Heq | []]. discriminate.
  - split; [repeat split |]. split; [reflexivity |].
    intros k v Hin. simpl in Hin.
    repeat (destruct Hin as [Hin | Hin]; [now inversion Hin |]).
    contradiction.
Qed.

(** A .txt path: the loader returns the empty string, so the theorem
    applies. *)
Lemma blank_text_short_circuits_witness :
  fst (parse_resume (U := ascii_ucd) (docx_runtime sample_text)
         (u "cv.txt")) = Ok _create_empty_result
  /\ ~ In (Entered "_extract_name")
          (snd (parse_resume (U := ascii_ucd) (docx_runtime sample_text)
                  (u "cv.txt"))).
Proof.
  destruct (blank_text_short_circuits (U := ascii_ucd)
              (docx_runtime sample_text) (u "cv.txt") (text := []))
    as (H1 & H2 & _).
  - vm_compute; reflexivity.
  - reflexivity.
  - split; [exact H1 |]. apply H2. simpl. tauto.
Defined.

(** C10. For a path whose extension is .txt, or is none of .pdf, .docx
    and .doc, the loader returns the empty string whatever the file
    holds, because the read goes through the unbound name aiofiles; and
    [parse_resume] returns the canonical empty profile. *)
Theorem text_files_yield_empty_profile {U : UCD} (R : Runtime)
    (file_path : str) :
  file_extension file_path = u ".txt"
  \/ (file_extension file_path <> u ".pdf"
      /\ file_extension file_path <> u ".docx"
      /\ file_extension file_path <> u ".doc") ->
  fst (read_with_aiofiles R file_path) = Raise (NameError "aiofiles")
  /\ fst (_extract_text_from_file R file_path) = Ok []
  /\ fst (parse_resume R file_path) = Ok _create_empty_result.
Proof.
  intros Hext.
  assert (Hload : fst (_extract_text_from_file R file_path) = Ok []).
  { apply loader_other; destruct Hext as [E | (H1 & H2 & H3)];
      try assumption; rewrite E; discriminate. }
  split; [now rewrite read_with_aiofiles_raises |].
  split; [exact Hload |].
  now rewrite (parse_resume_blank R file_path Hload eq_refl).
Qed.

(** The file behind cv.txt holds a full resume and is still parsed to the
    empty profile; so is a path without extension. *)
Lemma text_files_yield_empty_profile_witness :
  aiofiles_read (docx_runtime sample_text) (u "cv.txt") = Ok sample_text
  /\ fst (parse_resume (U := ascii_ucd) (docx_runtime sample_text)
            (u "cv.txt")) = Ok _create_empty_result
  /\ fst (parse_resume (U := ascii_ucd) (docx_runtime sample_text)
            (u "uploads/resume")) = Ok _create_empty_result.
Proof.
  split; [reflexivity |]. split.
  - apply (text_files_yield_empty_profile (U := ascii_ucd)
             (docx_runtime sample_text) (u "cv.txt")).
    left. vm_compute. reflexivity.
  - apply (text_files_yield_empty_profile (U := ascii_ucd)
             (docx_runtime sample_text) (u "uploads/resume")).
    right. vm_compute. repeat split; discriminate.
Defined.

(** C4, as stated, fails: with the PDF library missing the loader returns
    a notice, not the empty string. *)
Lemma loader_missing_pdf_library_counterexample :
  ~ (PDF_PARSING_AVAILABLE no_pdf_runtime = false ->
     fst (_extract_text_from_file (U := ascii_ucd) no_pdf_runtime
            (u "cv.pdf")) = Ok []).
Proof.
  intros H. specialize (H eq_refl). vm_compute in H. discriminate.
Qed.

(** C4, amended. The loader never raises.  A missing PDF or DOCX library
    yields the fixed notice of that library; with the library present, a
    file that cannot be opened or parsed, or a page that cannot be read,
    yields the empty string; so does every other extension. *)
Theorem loader_never_raises {U : UCD} (R : Runtime) (file_path : str) :
  (exists text, fst (_extract_text_from_file R file_path) = Ok text)
  /\ (file_extension file_path = u ".pdf" ->
      (PDF_PARSING_AVAILABLE R = false ->
       fst (_extract_text_from_file R file_path) = Ok pdf_notice)
      /\ (PDF_PARSING_AVAILABLE R = true ->
          (forall e, pdf_pages R file_path = Raise e ->
           fst (_extract_text_from_file R file_path) = Ok [])
          /\ (forall pages e,
              pdf_pages R file_path = Ok pages -> In (Raise e) pages ->
              fst (_extract_text_from_file R file_path) = Ok [])))
  /\ (file_extension file_path = u ".docx"
      \/ file_extension file_path = u ".doc" ->
      (DOCX_PARSING_AVAILABLE R = false ->
       fst (_extract_text_from_file R file_path) = Ok docx_notice)
      /\ (DOCX_PARSING_AVAILABLE R = true ->
          forall e, docx_document R file_path = Raise e ->
          fst (_extract_text_from_file R file_path) = Ok []))
  /\ (file_extension file_path <> u ".pdf" ->
      file_extension file_path <> u ".docx" ->
      file_extension file_path <> u ".doc" ->
      fst (_extract_text_from_file R file_path) = Ok []).
Proof.
  split; [apply loader_total |].
  split; [| split].
  - intros E. rewrite (loader_pdf R file_path E). split.
    + apply pdf_text_missing.
    + intros Ha. split.
      * intros e. now apply pdf_text_unreadable.
      * intros pages e. now apply pdf_text_bad_page.
  - intros E. rewrite (loader_docx R file_path E). split.
    + apply docx_text_missing.
    + intros Ha e. now apply docx_text_unreadable.
  - apply loader_other.
Qed.

(** The three outcomes at cv.pdf: the notice without the library, the
    empty string for a file that is not a PDF and for a broken page. *)
Lemma loader_never_raises_witness :
  fst (_extract_text_from_file (U := ascii_ucd) no_pdf_runtime (u "cv.pdf"))
  = Ok pdf_notice
  /\ fst (_extract_text_from_file (U := ascii_ucd)
            (docx_runtime sample_text) (u "cv.pdf")) = Ok []
  /\ fst (_extract_text_from_file (U := ascii_ucd) bad_page_runtime
            (u "cv.pdf")) = Ok []
  /\ fst (_extract_text_from_file (U := ascii_ucd)
            (docx_runtime sample_text) (u "notes.md")) = Ok [].
Proof.
  assert (Epdf : file_extension (U := ascii_ucd) (u "cv.pdf") = u ".pdf")
    by (vm_compute; reflexivity).
  split; [| split; [| split]].
  - destruct (loader_never_raises (U := ascii_ucd) no_pdf_runtime
                (u "cv.pdf")) as (_ & Hpdf & _).
    destruct (Hpdf Epdf) as [Hmissing _]. exact (Hmissing eq_refl).
  - destruct (loader_never_raises (U := ascii_ucd)
                (docx_runtime sample_text) (u "cv.pdf")) as (_ & Hpdf & _).
    destruct (Hpdf Epdf) as [_ Hpresent].
    destruct (Hpresent eq_refl) as [Hopen _].
    exact (Hopen (LibraryError "not a PDF file") eq_refl).
  - destruct (loader_never_raises (U := ascii_ucd) bad_page_runtime
                (u "cv.pdf")) as (_ & Hpdf & _).
    destruct (Hpdf Epdf) as [_ Hpresent].
    destruct (Hpresent eq_refl) as [_ Hpage].
    apply (Hpage [Ok (Some (u "Jane Doe"));
                  Raise (LibraryError "broken page")]
                 (LibraryError "broken page") eq_refl).
    simpl. tauto.
  - destruct (loader_never_raises (U := ascii_ucd)
                (docx_runtime sample_text) (u "notes.md"))
      as (_ & _ & _ & Hother).
    apply Hother; vm_compute; discriminate.
Defined.

(** ** Loops in the monad *)

Lemma for_each_invariant {A S} (P : S -> Prop) (f : S -> A -> M S) l :
  (forall s a s', P s -> fst (f s a) = Ok s' -> P s') ->
  forall s s', P s -> fst (for_each f l s) = Ok s' -> P s'.
Proof.
  intros Hf. induction l as [| a l IH]; intros s s' Hs; cbn [for_each].
  - intros [= <-]. exact Hs.
  - rewrite fst_bind. destruct (fst (f s a)) as [s1 |] eqn:E; [| discriminate].
    apply IH. exact (Hf _ _ _ Hs E).
Qed.

Lemma first_some_found {A B} (P : B -> Prop) (f : A -> M (option B)) l :
  (forall a b, fst (f a) = Ok (Some b) -> P b) ->
  forall b, fst (first_some f l) = Ok (Some b) -> P b.
Proof.
  intros Hf. induction l as [| a l IH]; intros b; cbn [first_some].
  - discriminate.
  - rewrite fst_bind. destruct (fst (f a)) as [[b' |] |] eqn:E;
      [| apply IH | discriminate].
    cbn [ret fst]. intros [= <-]. exact (Hf _ _ E).
Qed.

Lemma fold_left_incl {A} (step : list str -> A -> list str)
    (pool : list str) (l : list A) :
  (forall found a, In a l -> incl found pool -> incl (step found a) pool) ->
  forall found, incl found pool -> incl (fold_left step l found) pool.
Proof.
  induction l as [| a l IH]; intros Hstep found Hfound; cbn [fold_left].
  - exact Hfound.
  - apply IH.
    + intros f' a' Hin. apply Hstep. now right.
    + apply Hstep; [now left | exact Hfound].
Qed.

(** ** Skills *)

Lemma set_add_incl (x : str) (found pool : list str) :
  In x pool -> incl found pool -> incl (set_add x found) pool.
Proof.
  intros Hx Hf. unfold set_add. destruct (set_mem x found); [exact Hf |].
  intros y Hy. apply in_app_or in Hy. destruct Hy as [Hy | [<- | []]]; auto.
Qed.

Lemma insert_sorted_in (x y : str) (l : list str) :
  In y (insert_sorted x l) -> y = x \/ In y l.
Proof.
  induction l as [| z l IH]; simpl.
  - intros [<- | []]. now left.
  - destruct (str_leb x z); simpl.
    + intros [<- | H]; auto.
    + intros [<- | H]; auto. destruct (IH H); auto.
Qed.

Lemma sorted_incl (l : list str) : incl (sorted l) l.
Proof.
  induction l as [| x l IH]; intros y; simpl; [tauto |].
  intros H. apply insert_sorted_in in H. destruct H as [-> | H]; auto.
Qed.

Section SkillFacts.
Context {U : UCD} (R : Runtime).

(** Whole-word matches add taxonomy names only. *)
Lemma direct_skills_incl (text_lower : str) (found : list str) :
  incl found all_skills -> incl (direct_skills text_lower found) all_skills.
Proof.
  unfold direct_skills. apply fold_left_incl.
  intros f skill Hin Hf.
  destruct (re_search _ text_lower NOFLAGS); [| exact Hf].
  now apply set_add_incl.
Qed.

(** Tokens of the skills section add taxonomy names only. *)
Lemma section_skills_incl (skills_text : str) (found : list str) :
  incl found all_skills ->
  incl (section_skills skills_text found) all_skills.
Proof.
  unfold section_skills. apply fold_left_incl.
  intros f candidate _ Hf.
  destruct (nonempty (strip candidate)
            && Nat.leb (List.length (strip candidate)) 30); [| exact Hf].
  unfold skills_in_candidate. apply fold_left_incl; [| exact Hf].
  intros f' skill Hin Hf'.
  destruct (contains _ _); [now apply set_add_incl | exact Hf'].
Qed.

(** Entities of the NLP document add taxonomy names only. *)
Lemma entity_skills_incl (ents : list Entity) (found : list str) :
  incl found all_skills -> incl (entity_skills ents found) all_skills.
Proof.
  unfold entity_skills. apply fold_left_incl.
  intros f ent _ Hf.
  destruct (existsb _ skill_labels && _); [| exact Hf].
  apply fold_left_incl; [| exact Hf].
  intros f' skill Hin Hf'.
  destruct (str_eqb _ _); [now apply set_add_incl | exact Hf'].
Qed.

Lemma skills_from_section_incl (text : str) (found found' : list str) :
  incl found all_skills ->
  fst (skills_from_section text found) = Ok found' ->
  incl found' all_skills.
Proof.
  intros Hf. unfold skills_from_section.
  destruct (re_search skills_section_pattern text IGNORECASE) as [m |].
  - destruct (group m 1) as [skills_text |]; cbn [ret raise fst].
    + intros [= <-]. now apply section_skills_incl.
    + discriminate.
  - cbn [ret fst]. now intros [= <-].
Qed.

(** The NLP step never raises: its handler keeps the skills found so far. *)
Lemma skills_from_nlp_total (text : str) (found : list str) :
  exists found', fst (skills_from_nlp R text found) = Ok found'.
Proof.
  unfold skills_from_nlp. destruct (nlp R) as [run_nlp |]; [| now eexists].
  destruct (SPACY_AVAILABLE R); [| now eexists].
  apply try_log_total.
Qed.

Lemma skills_from_nlp_failure (text : str) (found : list str) run_nlp e :
  nlp R = Some run_nlp ->
  run_nlp text = Raise e ->
  fst (skills_from_nlp R text found) = Ok found.
Proof.
  intros Hn He. unfold skills_from_nlp. rewrite Hn.
  destruct (SPACY_AVAILABLE R); [| reflexivity].
  apply try_log_raise with (e := e). rewrite fst_bind.
  cbn [lift fst]. now rewrite He.
Qed.

Lemma skills_from_nlp_incl (text : str) (found found' : list str) :
  incl found all_skills ->
  fst (skills_from_nlp R text found) = Ok found' ->
  incl found' all_skills.
Proof.
  intros Hf. unfold skills_from_nlp.
  destruct (nlp R) as [run_nlp |]; [| cbn [ret fst]; now intros [= <-]].
  destruct (SPACY_AVAILABLE R); [| cbn [ret fst]; now intros [= <-]].
  rewrite fst_try, fst_bind. cbn [lift fst].
  destruct (run_nlp text) as [ents | e].
  - cbn [ret fst]. intros [= <-]. now apply entity_skills_incl.
  - cbn [ret fst bind log emit]. now intros [= <-].
Qed.

Lemma extract_skills_incl (text : str) (found : list str) :
  fst (_extract_skills R text) = Ok found -> incl found all_skills.
Proof.
  unfold _extract_skills. rewrite fst_bind. cbn [enter emit fst].
  rewrite fst_bind.
  destruct (fst (skills_from_section text
                   (direct_skills (str_lower text) [])))
    as [found1 | e1] eqn:E1; [| discriminate].
  rewrite fst_bind.
  destruct (fst (skills_from_nlp R text found1)) as [found2 | e2] eqn:E2;
    [| discriminate].
  cbn [ret fst]. intros [= <-].
  intros s Hs. apply sorted_incl in Hs. revert s Hs.
  apply (skills_from_nlp_incl text (found := found1)); [| exact E2].
  apply (skills_from_section_incl text
           (found := direct_skills (str_lower text) [])); [| exact E1].
  apply direct_skills_incl. apply incl_nil_l.
Qed.

End SkillFacts.

(** ** Work history *)

Lemma firstn_In {A} (n : nat) (l : list A) (x : A) :
  In x (firstn n l) -> In x l.
Proof.
  intros H. rewrite <- (firstn_skipn n l). apply in_or_app. now left.
Qed.

Lemma with_description_bounded (job : Job) (lines : list str) :
  description job = None ->
  description_bounded (with_description job lines).
Proof.
  intros Hnone. unfold with_description, description_bounded.
  destruct (nonempty lines); cbn [description].
  - intros l Hl. apply (f_equal (fun o => match o with
                                         | Some x => x
                                         | None => []
                                         end)) in Hl.
    subst l. rewrite length_firstn. apply Nat.le_min_l.
  - rewrite Hnone. discriminate.
Qed.

Lemma work_history_line_invariant {U : UCD} (st : wh_state) (line : str)
    (st' : wh_state) :
  wh_invariant st ->
  fst (work_history_line st line) = Ok st' ->
  wh_invariant st'.
Proof.
  intros Hinv. pose proof Hinv as [Hh Hc]. unfold work_history_line.
  destruct (negb (nonempty (strip line)));
    [cbn [ret fst]; intros [= <-]; exact Hinv |].
  destruct (first_match job_patterns (strip line) NOFLAGS) as [m |].
  - rewrite fst_bind.
    destruct (fst (strip_of (group m 1))) as [t |]; [| discriminate].
    rewrite fst_bind.
    destruct (fst (strip_of (group m 2))) as [c |]; [| discriminate].
    cbn [ret fst]. intros [= <-]. split; cbn [wh_history wh_current].
    + destruct (wh_current st) as [job |] eqn:Ej; cbn [wh_history];
        [| exact Hh].
      apply Forall_app. split; [exact Hh |].
      constructor; [| constructor].
      apply with_description_bounded. now apply Hc.
    + intros job [= <-]. reflexivity.
  - assert (Hkeep : forall lines,
                      wh_invariant {| wh_history := wh_history st;
                                      wh_current := wh_current st;
                                      wh_lines := lines |})
      by (intros lines; split; [exact Hh | exact Hc]).
    destruct (wh_current st) as [job |] eqn:Ej;
      [| cbn [ret fst]; intros [= <-]; exact Hinv].
    destruct (Nat.ltb (List.length (wh_lines st)) 5);
      [| cbn [ret fst]; intros [= <-]; exact Hinv].
    destruct (is_bullet (strip line));
      [cbn [ret fst]; intros [= <-]; apply Hkeep |].
    destruct (Nat.ltb 20 (List.length (strip line)));
      cbn [ret fst]; intros [= <-];
      [apply Hkeep | exact Hinv].
Qed.

Lemma extract_work_history_bounded {U : UCD} (text : str) (wh : list Job) :
  fst (_extract_work_history text) = Ok wh ->
  List.length wh <= 5 /\ Forall description_bounded wh.
Proof.
  unfold _extract_work_history. rewrite fst_bind. cbn [enter emit fst].
  destruct (re_search experience_section_pattern text IGNORECASE) as [m |];
    [| cbn [ret fst]; intros [= <-]; split; [apply Nat.le_0_l | constructor]].
  destruct (group m 1) as [experience_text |]; [| discriminate].
  rewrite fst_bind.
  destruct (fst (for_each work_history_line _ _)) as [st |] eqn:Eloop;
    [| discriminate].
  cbn [ret fst]. intros Heq. apply Ok_inj in Heq. subst wh.
  split; [rewrite length_firstn; apply Nat.le_min_l |].
  assert (Hinv : wh_invariant st).
  { refine (for_each_invariant wh_invariant work_history_line _ _ _ _ Eloop).
    - intros s a s'. apply work_history_line_invariant.
    - split; [constructor | discriminate]. }
  destruct Hinv as [Hh Hc].
  apply Forall_forall. intros job Hin. apply firstn_In in Hin. revert job Hin.
  apply Forall_forall.
  destruct (wh_current st) as [job |] eqn:Ej; [| exact Hh].
  apply Forall_app. split; [exact Hh |].
  constructor; [| constructor].
  apply with_description_bounded. now apply Hc.
Qed.

(** ** Experience *)

Lemma int_of_digits_nonneg {U : UCD} (s : str) : (0 <= int_of_digits s)%Z.
Proof.
  unfold int_of_digits.
  assert (H : forall acc, (0 <= acc)%Z ->
            (0 <= fold_left (fun acc c => 10 * acc + Z.of_N (todecimal c)) s
                    acc)%Z).
  { induction s as [| c s IH]; intros acc Hacc; cbn [fold_left].
    - exact Hacc.
    - apply IH. pose proof (N2Z.is_nonneg (todecimal c)). lia. }
  apply H. lia.
Qed.

Lemma py_int_nonneg {U : UCD} (R : Runtime) (o : option str) (n : Z) :
  fst (py_int R o) = Ok n -> (0 <= n)%Z.
Proof.
  unfold py_int. destruct o as [s |]; [| discriminate].
  destruct (nonempty s && forallb isdecimal s); [| discriminate].
  destruct (Nat.ltb 640 (List.length s) && _ && _); [discriminate |].
  cbn [ret fst]. intros H. apply Ok_inj in H. subst n.
  apply int_of_digits_nonneg.
Qed.

(** The year-span fallback never raises, and a value it returns renders
    a span in (0, 50]. *)
Lemma experience_from_dates_total {U : UCD} (R : Runtime) (text : str) :
  exists o, fst (_calculate_experience_from_dates R text) = Ok o.
Proof.
  unfold _calculate_experience_from_dates. rewrite fst_bind.
  cbn [enter emit fst]. apply try_log_total.
Qed.

Lemma experience_from_dates_range {U : UCD} (R : Runtime) (text v : str) :
  fst (_calculate_experience_from_dates R text) = Ok (Some v) ->
  exists N, (0 < N <= 50)%Z /\ v = str_of_int N ++ plus_years.
Proof.
  unfold _calculate_experience_from_dates. rewrite fst_bind.
  cbn [enter emit fst]. rewrite fst_try.
  destruct (Nat.leb 2 (List.length (re_findall year_pattern text NOFLAGS)));
    [| cbn [ret fst]; discriminate].
  rewrite fst_bind.
  destruct (fst (for_each _ (re_findall year_pattern text NOFLAGS) []))
    as [[| y0 ys] | e]; cbn [ret fst bind log emit]; try discriminate.
  set (span := (Z.min (fold_left Z.max ys y0) (current_year R)
                - fold_left Z.min ys y0)%Z).
  destruct (0 <? span)%Z eqn:Elo; [| cbn [andb ret fst]; discriminate].
  destruct (span <=? 50)%Z eqn:Ehi; [| cbn [andb ret fst]; discriminate].
  cbn [andb ret fst]. intros H. apply Ok_inj in H.
  exists span. split; [lia | congruence].
Qed.

(** C7, as stated, fails: the explicit phrasing is copied without a
    bound, so sixty years of experience is reported as such. *)
Lemma experience_above_fifty_counterexample :
  ~ (forall v,
       fst (_extract_experience (U := ascii_ucd)
              (docx_runtime sixty_years_text) sixty_years_text)
       = Ok (Some v) ->
       exists N, (0 <= N <= 50)%Z /\ v = str_of_int N ++ plus_years).
Proof.
  intros H.
  destruct (H (u "60+ years")) as [N [HN Hv]]; [vm_compute; reflexivity |].
  assert (Hall : forallb (fun n => negb (str_eqb (u "60+ years")
                                           (str_of_int (Z.of_nat n)
                                            ++ plus_years)))
                         (seq 0 51) = true) by (vm_compute; reflexivity).
  rewrite forallb_forall in Hall.
  specialize (Hall (Z.to_nat N)).
  rewrite Z2Nat.id in Hall by lia.
  rewrite <- Hv, str_eqb_refl in Hall.
  assert (Hin : In (Z.to_nat N) (seq 0 51)) by (apply in_seq; lia).
  specialize (Hall Hin). discriminate.
Qed.

(** ** What a match holds is part of the subject *)

Section Within.
Context {U : UCD}.
Variable s : str.

Lemma within_step cur cs c cur' :
  within s cur cs -> step cur = Some (c, cur') -> within s cur' cs.
Proof.
  intros [[before Hs] Hcs]. unfold step.
  destruct (c_rest cur) as [| x rest] eqn:Er; [discriminate |].
  intros H. injection H as <- <-. split; [| exact Hcs].
  exists (before ++ [x]). cbn [c_rest]. now rewrite <- app_assoc.
Qed.

Lemma span_occurs cur cur' cs :
  within s cur cs -> occurs_in (span cur cur') s.
Proof.
  intros [[before Hs] _]. unfold span.
  exists before, (skipn (c_pos cur' - c_pos cur) (c_rest cur)).
  now rewrite firstn_skipn.
Qed.

Lemma within_group n cur cur' cs cs' :
  within s cur cs -> within s cur' cs' ->
  within s cur' ((n, span cur cur') :: cs').
Proof.
  intros Hcur [Hpos Hcs']. split; [exact Hpos |].
  intros m g. cbn [cap_get]. destruct (Nat.eqb m n).
  - intros H. injection H as <-. eapply span_occurs. exact Hcur.
  - apply Hcs'.
Qed.

(** Whatever way a pattern matches, the continuation is called at a
    position of the subject with groups that are parts of it. *)
Lemma rmatch_within (f : flag) (r : regex) :
  forall k cur cs res,
    within s cur cs ->
    rmatch f r k cur cs = Some res ->
    exists cur' cs', k cur' cs' = Some res /\ within s cur' cs'.
Proof.
  induction r as [| p | neg items | a IHa b IHb | a IHa b IHb
                  | greedy lo hi body IH | n body IH | body IH | | | ];
    intros k cur cs res Hin; cbn [rmatch].
  - intros H. now exists cur, cs.
  - destruct (step cur) as [[c cur'] |] eqn:Es; [| discriminate].
    destruct (chr_match f p c); [| discriminate].
    intros H. exists cur', cs. split; [exact H |].
    eapply within_step; eassumption.
  - destruct (step cur) as [[c cur'] |] eqn:Es; [| discriminate].
    destruct (cls_match f neg items c); [| discriminate].
    intros H. exists cur', cs. split; [exact H |].
    eapply within_step; eassumption.
  - intros H. apply IHa in H; [| exact Hin].
    destruct H as (cur1 & cs1 & H & Hin1).
    apply IHb in H; [| exact Hin1]. exact H.
  - destruct (rmatch f a k cur cs) as [res' |] eqn:Ea.
    + intros H. rewrite <- H in *. now apply IHa in Ea.
    + intros H. now apply IHb in H.
  - generalize (match hi with
                | Some h => S h
                | None => S (List.length (c_rest cur) + lo)
                end).
    intros fuel. revert cur cs Hin.
    generalize O as count.
    induction fuel as [| fuel IHf]; intros count cur cs Hin;
      cbn beta iota zeta.
    + assert (Hleave : (if Nat.leb lo count then k cur cs else None)
                       = Some res ->
                       exists cur' cs',
                         k cur' cs' = Some res /\ within s cur' cs').
      { destruct (Nat.leb lo count); [| discriminate].
        intros H. now exists cur, cs. }
      destruct greedy; [exact Hleave |].
      destruct (if Nat.leb lo count then k cur cs else None);
        [| discriminate].
      intros H. apply Hleave. exact H.
    + match goal with
      | |- context [rmatch f body ?K cur cs] => set (K0 := K)
      end.
      assert (Hleave : (if Nat.leb lo count then k cur cs else None)
                       = Some res ->
                       exists cur' cs',
                         k cur' cs' = Some res /\ within s cur' cs').
      { destruct (Nat.leb lo count); [| discriminate].
        intros H. now exists cur, cs. }
      assert (Hagain : (if below count hi then rmatch f body K0 cur cs
                        else None) = Some res ->
                       exists cur' cs',
                         k cur' cs' = Some res /\ within s cur' cs').
      { destruct (below count hi); [| discriminate].
        intros H. apply IH in H; [| exact Hin].
        destruct H as (cur1 & cs1 & H & Hin1). unfold K0 in H.
        destruct (Nat.ltb (c_pos cur) (c_pos cur1) || Nat.ltb count lo);
          [| discriminate].
        apply IHf in H; [exact H | exact Hin1]. }
      destruct greedy.
      * destruct (if below count hi then rmatch f body K0 cur cs else None)
          as [res' |] eqn:Ea.
        -- intros H. rewrite <- H in *. apply Hagain. reflexivity.
        -- exact Hleave.
      * destruct (if Nat.leb lo count then k cur cs else None)
          as [res' |] eqn:El.
        -- intros H. rewrite <- H in *. apply Hleave. reflexivity.
        -- exact Hagain.
  - intros H. apply IH in H; [| exact Hin].
    destruct H as (cur1 & cs1 & H & Hin1).
    exists cur1, ((n, span cur cur1) :: cs1). split; [exact H |].
    now apply within_group with (cs := cs).
  - destruct (rmatch f body (fun cur' cs' => Some (cur', cs')) cur cs)
      as [[cur0 cs0] |] eqn:Ea; [| discriminate].
    apply IH in Ea; [| exact Hin]. destruct Ea as (cur1 & cs1 & H1 & Hin1).
    injection H1 as -> ->.
    intros H. exists cur, cs0. split; [exact H |].
    split; [apply Hin | apply Hin1].
  - destruct (c_prev cur); [discriminate |].
    intros H. now exists cur, cs.
  - assert (Hk : k cur cs = Some res ->
                 exists cur' cs', k cur' cs' = Some res /\ within s cur' cs')
      by (intros H; now exists cur, cs).
    destruct (c_rest cur) as [| c [| c' rest]]; [exact Hk | | discriminate].
    destruct (N.eqb c 10); [exact Hk | discriminate].
  - destruct (xorb (word_before cur) (word_after cur)); [| discriminate].
    intros H. now exists cur, cs.
Qed.

Lemma match_at_within f r adv cur m n g :
  (exists before, s = before ++ c_rest cur) ->
  match_at f r adv cur = Some m ->
  group m n = Some g -> occurs_in g s.
Proof.
  intros Hpos. unfold match_at.
  destruct (rmatch f r _ cur []) as [[cur' cs'] |] eqn:E; [| discriminate].
  apply rmatch_within in E; [| split; [exact Hpos | discriminate]].
  destruct E as (cur1 & cs1 & Hk & _ & Hcs).
  destruct (adv && Nat.eqb (c_pos cur1) (c_pos cur)); [discriminate |].
  injection Hk as -> ->.
  intros H. injection H as <-. unfold group. cbn [m_caps]. apply Hcs.
Qed.

Lemma scan_within f r n g :
  forall rest adv pos prev m,
    (exists before, s = before ++ rest) ->
    scan f r adv pos prev rest = Some m ->
    group m n = Some g -> occurs_in g s.
Proof.
  induction rest as [| c rest IH]; intros adv pos prev m Hpos; cbn [scan];
    destruct (match_at f r adv _) as [m' |] eqn:E.
  - intros H. injection H as <-. eapply match_at_within; [| exact E].
    exact Hpos.
  - discriminate.
  - intros H. injection H as <-. eapply match_at_within; [| exact E].
    exact Hpos.
  - apply IH. destruct Hpos as [before ->]. exists (before ++ [c]).
    now rewrite <- app_assoc.
Qed.

End Within.

(** A group of a match found by [re.search] is a part of the text
    searched. *)
Lemma re_search_within {U : UCD} f r s m n g :
  re_search r s f = Some m -> group m n = Some g -> occurs_in g s.
Proof.
  unfold re_search. apply scan_within. now exists [].
Qed.

(** ** The first pattern that matches *)

Lemma first_match_first {U : UCD} (patterns before after : list regex)
    (pattern : regex) (s : str) (f : flag) :
  patterns = before ++ pattern :: after ->
  Forall (fun q => re_search q s f = None) before ->
  first_match patterns s f = re_search pattern s f
  \/ exists m, re_search pattern s f = None
               /\ first_match patterns s f = m.
Proof.
  intros -> Hnone. induction Hnone as [| q before Hq _ IH];
    cbn [app first_match].
  - destruct (re_search pattern s f); [now left | right; eauto].
  - rewrite Hq. exact IH.
Qed.

Lemma first_match_none {U : UCD} (patterns : list regex) (s : str)
    (f : flag) :
  Forall (fun q => re_search q s f = None) patterns ->
  first_match patterns s f = None.
Proof.
  induction 1 as [| q patterns Hq _ IH]; cbn [first_match];
    [reflexivity |].
  now rewrite Hq.
Qed.

Lemma years_as_ints {U : UCD} (R : Runtime) (years : list str) :
  forall acc year_ints,
    fst (for_each (fun acc y => n <- py_int R (Some y) ;; ret (acc ++ [n]))
           years acc) = Ok year_ints ->
    year_ints = acc ++ map int_of_digits years.
Proof.
  induction years as [| y years IH]; intros acc year_ints; cbn [for_each map].
  - intros H. apply Ok_inj in H. subst. now rewrite app_nil_r.
  - intros H. apply bind_Ok_inv in H. destruct H as (acc' & Hy & H).
    apply bind_Ok_inv in Hy. destruct Hy as (n & Hn & Hy).
    apply Ok_inj in Hy. subst acc'.
    apply IH in H. rewrite H, <- app_assoc. cbn [app]. do 2 f_equal.
    unfold py_int in Hn.
    destruct (nonempty y && forallb isdecimal y); [| discriminate].
    destruct (Nat.ltb 640 (List.length y) && _ && _); [discriminate |].
    apply Ok_inj in Hn. now subst n.
Qed.

(** C7, amended. A value returned by the experience extractor is the
    decimal rendering of a non-negative integer N followed by [+ years].
    When an explicit phrasing matches, N is the number written in the
    text: the decimal value of the digits that group 1 of the first
    matching pattern holds, which are a part of the text, with no upper
    bound.  When none matches, N is the span from the least four-digit
    year found to the greatest or the current year, whichever is less,
    and 0 < N <= 50. *)
Theorem experience_format {U : UCD} (R : Runtime) (text v : str) :
  fst (_extract_experience R text) = Ok (Some v) ->
  (exists N, (0 <= N)%Z /\ v = str_of_int N ++ plus_years)
  /\ (forall before pattern after m,
        exp_patterns = before ++ pattern :: after ->
        Forall (fun q => re_search q text IGNORECASE = None) before ->
        re_search pattern text IGNORECASE = Some m ->
        exists digits,
          group m 1 = Some digits
          /\ occurs_in digits text
          /\ digits <> []
          /\ forallb isdecimal digits = true
          /\ v = str_of_int (int_of_digits digits) ++ plus_years)
  /\ (Forall (fun q => re_search q text IGNORECASE = None) exp_patterns ->
      exists y0 ys,
        map int_of_digits (re_findall year_pattern text NOFLAGS) = y0 :: ys
        /\ (0 < Z.min (fold_left Z.max ys y0) (current_year R)
                - fold_left Z.min ys y0 <= 50)%Z
        /\ v = str_of_int (Z.min (fold_left Z.max ys y0) (current_year R)
                           - fold_left Z.min ys y0)
               ++ plus_years).
Proof.
  intros Hv. split; [| split].
  - revert Hv. unfold _extract_experience. rewrite fst_bind.
    cbn [enter emit fst].
    destruct (first_match exp_patterns text IGNORECASE) as [m |].
    + rewrite fst_bind.
      destruct (fst (py_int R (group m 1))) as [years |] eqn:Ey;
        [| discriminate].
      cbn [ret fst]. intros H. apply Ok_inj in H.
      exists years. split; [exact (py_int_nonneg R _ Ey) | congruence].
    + rewrite fst_bind.
      destruct (fst (_calculate_experience_from_dates R text))
        as [[w |] |] eqn:Ed; cbn [truthy ret fst]; try discriminate.
      destruct (nonempty w); cbn [ret fst]; [| discriminate].
      intros H. apply Ok_inj in H.
      assert (w = v) by congruence. subst w.
      destruct (experience_from_dates_range R text Ed) as [N [HN Hw]].
      exists N. split; [lia | exact Hw].
  - intros before pattern after m Hsplit Hnone Hm.
    destruct (@first_match_first U exp_patterns before after pattern text
                IGNORECASE Hsplit Hnone)
      as [Hfirst | (m' & Hno & _)]; [| congruence].
    rewrite Hm in Hfirst. revert Hv.
    unfold _extract_experience. rewrite fst_bind. cbn [enter emit fst].
    rewrite Hfirst, fst_bind. unfold py_int.
    destruct (group m 1) as [digits |] eqn:Eg; [| discriminate].
    destruct (nonempty digits && forallb isdecimal digits) eqn:Ed;
      [| discriminate].
    destruct (Nat.ltb 640 (List.length digits) && _ && _); [discriminate |].
    cbn [ret fst]. intros H. apply Ok_inj in H.
    apply andb_true_iff in Ed as [Hne Hdec].
    exists digits. split; [reflexivity |].
    split; [eapply re_search_within; eassumption |].
    split; [now destruct digits |]. split; [exact Hdec | congruence].
  - intros Hnone. revert Hv.
    unfold _extract_experience. rewrite fst_bind. cbn [enter emit fst].
    rewrite (@first_match_none U exp_patterns text IGNORECASE Hnone), fst_bind.
    destruct (fst (_calculate_experience_from_dates R text))
      as [[w |] |] eqn:Ed; cbn [truthy ret fst]; try discriminate.
    destruct (nonempty w); cbn [ret fst]; [| discriminate].
    intros H. apply Ok_inj in H.
    assert (w = v) by congruence. subst w. clear H. revert Ed.
    unfold _calculate_experience_from_dates. rewrite fst_bind.
    cbn [enter emit fst]. rewrite fst_try.
    destruct (Nat.leb 2 (List.length (re_findall year_pattern text NOFLAGS)));
      [| cbn [ret fst]; discriminate].
    rewrite fst_bind.
    destruct (fst (for_each _ (re_findall year_pattern text NOFLAGS) []))
      as [year_ints | e] eqn:Ey; [| cbn [ret fst bind log emit]; discriminate].
    apply years_as_ints in Ey. cbn [app] in Ey. rewrite <- Ey.
    destruct year_ints as [| y0 ys]; cbn [ret fst]; [discriminate |].
    set (span := (Z.min (fold_left Z.max ys y0) (current_year R)
                  - fold_left Z.min ys y0)%Z).
    destruct (0 <? span)%Z eqn:Elo; [| cbn [andb ret fst]; discriminate].
    destruct (span <=? 50)%Z eqn:Ehi; [| cbn [andb ret fst]; discriminate].
    cbn [andb ret fst]. intros H. apply Ok_inj in H.
    exists y0, ys. split; [reflexivity |].
    split; [lia | injection H as <-; reflexivity].
Qed.

(** Two runs: the years 2015 and 2020 give a span of 5 through the
    fallback; the explicit phrasing gives the 60 that the text holds. *)
Lemma experience_format_witness :
  (exists N, (0 < N <= 50)%Z /\ u "5+ years" = str_of_int N ++ plus_years)
  /\ (exists digits,
        occurs_in digits sixty_years_text
        /\ int_of_digits (U := ascii_ucd) digits = 60%Z
        /\ u "60+ years"
           = str_of_int (int_of_digits (U := ascii_ucd) digits)
             ++ plus_years).
Proof.
  split.
  - destruct (experience_format (U := ascii_ucd) (docx_runtime sample_text)
                (u "Acme 2015 - 2020") (v := u "5+ years"))
      as (_ & _ & H); [vm_compute; reflexivity |].
    destruct H as (y0 & ys & _ & Hr & Hv).
    + repeat (constructor; [vm_compute; reflexivity |]). constructor.
    + eexists. split; [exact Hr | exact Hv].
  - destruct (re_search (U := ascii_ucd) (nth 0 exp_patterns Eps)
                sixty_years_text IGNORECASE) as [m |] eqn:Em;
      [| vm_compute in Em; discriminate Em].
    destruct (experience_format (U := ascii_ucd) (docx_runtime sample_text)
                sixty_years_text (v := u "60+ years"))
      as (_ & H & _); [vm_compute; reflexivity |].
    destruct (H [] (nth 0 exp_patterns Eps) (skipn 1 exp_patterns) m
                eq_refl (Forall_nil _) Em)
      as (digits & Hg & Hocc & _ & _ & Hv).
    exists digits. split; [exact Hocc |]. split; [| exact Hv].
    assert (Hm : group m 1 = Some (u "60")).
    { assert (E : re_search (U := ascii_ucd) (nth 0 exp_patterns Eps)
                    sixty_years_text IGNORECASE
                  = Some m) by exact Em.
      revert E. vm_compute. intros E. injection E as <-. reflexivity. }
    rewrite Hm in Hg. injection Hg as <-. reflexivity.
Defined.

(** ** Failures inside extractors *)

(** A failing spaCy call leaves the result of the skills extractor what
    the two regex paths alone give. *)
Lemma extract_skills_nlp_failure {U : UCD} (R : Runtime) (text : str)
    run_nlp e :
  nlp R = Some run_nlp ->
  run_nlp text = Raise e ->
  fst (_extract_skills R text) = fst (_extract_skills (regex_only R) text).
Proof.
  intros Hn He. unfold _extract_skills. rewrite !fst_bind.
  cbn [enter emit fst].
  destruct (fst (skills_from_section text
                   (direct_skills (str_lower text) [])))
    as [found1 | e1]; [| reflexivity].
  rewrite !fst_bind.
  rewrite (skills_from_nlp_failure R text found1 Hn He). reflexivity.
Qed.

(** C8, as stated, fails: on the text with 4301 digits of years the
    experience extractor raises ValueError, and the profile returned does
    not keep the email that the email extractor finds in the same text. *)
Lemma extractor_failure_counterexample :
  ~ (forall e,
       fst (_extract_experience (U := ascii_ucd)
              (docx_runtime long_digits_text) long_digits_text) = Raise e ->
       exists p,
         fst (parse_resume (U := ascii_ucd) (docx_runtime long_digits_text)
                (u "cv.docx")) = Ok p
         /\ experience p = None
         /\ Ok (email p) = fst (_extract_email (U := ascii_ucd)
                                  long_digits_text)).
Proof.
  intros H.
  destruct (H ValueError long_digits_experience_raises)
    as (p & Hp & _ & Hemail).
  rewrite long_digits_profile in Hp. apply Ok_inj in Hp. subst p.
  rewrite long_digits_email in Hemail. apply Ok_inj in Hemail.
  cbn [email _create_empty_result] in Hemail. discriminate Hemail.
Qed.

(** C8, amended. An exception raised by a field extractor is not caught
    per extractor: whenever one of the nine extractors raises on the
    loaded text, [parse_resume] returns the canonical empty profile.  Two
    inner steps have handlers of their own: a failing spaCy call leaves
    the skills found by the regex paths, and the year-span fallback of the
    experience extractor never raises. *)
Theorem extractor_failure_yields_empty_profile {U : UCD} (R : Runtime) :
  (forall file_path text,
     fst (_extract_text_from_file R file_path) = Ok text ->
     strip text <> [] ->
     some_extractor_raises R text ->
     fst (parse_resume R file_path) = Ok _create_empty_result)
  /\ (forall text run_nlp e,
        nlp R = Some run_nlp ->
        run_nlp text = Raise e ->
        fst (_extract_skills R text)
        = fst (_extract_skills (regex_only R) text))
  /\ (forall text,
        exists o, fst (_calculate_experience_from_dates R text) = Ok o).
Proof.
  split; [| split].
  - intros file_path text Et Es Hraise.
    destruct (parse_body_raises file_path Et Es Hraise) as [e He].
    rewrite parse_resume_fst, He. reflexivity.
  - intros text run_nlp e. apply extract_skills_nlp_failure.
  - intros text. apply experience_from_dates_total.
Qed.

(** The digit text again, and a runtime whose spaCy pipeline rejects the
    sample text. *)
Lemma extractor_failure_yields_empty_profile_witness :
  fst (parse_resume (U := ascii_ucd) (docx_runtime long_digits_text)
         (u "cv.docx")) = Ok _create_empty_result
  /\ fst (_extract_skills (U := ascii_ucd) (failing_nlp_runtime sample_text)
            sample_text)
     = Ok [u "C"; u "Docker"; u "Python"; u "R"].
Proof.
  split.
  - destruct (extractor_failure_yields_empty_profile (U := ascii_ucd)
                (docx_runtime long_digits_text)) as [Habort _].
    apply (Habort (u "cv.docx") long_digits_text).
    + exact long_digits_loaded.
    + exact long_digits_not_blank.
    + unfold some_extractor_raises. do 4 right. left.
      exists ValueError. exact long_digits_experience_raises.
  - destruct (extractor_failure_yields_empty_profile (U := ascii_ucd)
                (failing_nlp_runtime sample_text)) as (_ & Hnlp & _).
    rewrite (Hnlp sample_text (fun _ => Raise ValueError) ValueError
               eq_refl eq_refl).
    vm_compute; reflexivity.
Defined.

(** ** Confidence scores *)

(** A name returned by the name extractor has one to three tokens. *)
Lemma extract_name_tokens {U : UCD} (text n : str) :
  fst (_extract_name text) = Ok (Some n) ->
  1 <= List.length (split_ws n) <= 3.
Proof.
  unfold _extract_name. rewrite fst_bind. cbn [enter emit fst].
  revert n.
  apply (@first_some_found _ _
           (fun n => 1 <= List.length (split_ws n) <= 3)).
  intros line n.
  destruct (Nat.ltb (List.length (strip line)) 3
            || Nat.ltb 50 (List.length (strip line)));
    [cbn [ret fst]; discriminate |].
  destruct (existsb _ skip_words); [cbn [ret fst]; discriminate |].
  revert n.
  apply (@first_some_found _ _
           (fun n => 1 <= List.length (split_ws n) <= 3)).
  intros pattern n.
  unfold name_from_line.
  destruct (re_search pattern (strip line) NOFLAGS) as [m |];
    [| cbn [ret fst]; discriminate].
  rewrite fst_bind.
  destruct (fst (strip_of (group m 1))) as [potential_name |];
    [| discriminate].
  destruct (Nat.leb 1 (List.length (split_ws potential_name))
            && Nat.leb (List.length (split_ws potential_name)) 3
            && looks_like_name (split_ws potential_name)) eqn:Eok;
    cbn [ret fst]; [| discriminate].
  intros H. apply Ok_inj in H.
  assert (potential_name = n) by congruence. subst n.
  apply andb_true_iff in Eok as [Eok _].
  apply andb_true_iff in Eok as [Elo Ehi].
  apply Nat.leb_le in Elo, Ehi. split; assumption.
Qed.

(** The dict the scorer builds: six field entries, then their mean. *)
Lemma scores_shape (pd : ParsedProfile) (text : str) :
  exists a b c d e f : Q,
    _calculate_confidence_scores pd text
    = [("name", a); ("email", b); ("phone", c); ("skills", d);
       ("experience", e); ("education", f);
       ("overall",
        mean [("name", a); ("email", b); ("phone", c); ("skills", d);
              ("experience", e); ("education", f)])]%string.
Proof.
  unfold _calculate_confidence_scores.
  destruct (name pd) as [n |];
    [destruct (nonempty n && Nat.leb 2 (List.length (split_ws n)));
     [| destruct (nonempty n)] |];
    (destruct (Nat.leb 5 (List.length (skills pd)));
     [| destruct (Nat.leb 3 (List.length (skills pd)));
        [| destruct (Nat.leb 1 (List.length (skills pd)))]]);
    do 6 eexists; reflexivity.
Qed.

(** The scorer agrees with the table of the specification on every
    profile whose name, when there is one, has at least one token. *)
Lemma scores_match_spec (pd : ParsedProfile) (text : str) :
  (forall n, name pd = Some n -> 1 <= List.length (split_ws n)) ->
  firstn 6 (_calculate_confidence_scores pd text) = spec_scores pd.
Proof.
  intros Hname.
  unfold _calculate_confidence_scores, spec_scores, spec_name_score,
    spec_email_score, spec_phone_score, spec_skills_score,
    spec_experience_score, spec_education_score, present, tokens.
  destruct (name pd) as [n |] eqn:En.
  - specialize (Hname n eq_refl).
    destruct n as [| c n]; [cbn in Hname; lia |].
    cbn [truthy nonempty andb].
    destruct (List.length (split_ws (c :: n))) as [| [| k]]; [lia | |];
      destruct (List.length (skills pd)) as [| [| [| [| [| j]]]]];
      reflexivity.
  - destruct (List.length (skills pd)) as [| [| [| [| [| j]]]]];
      reflexivity.
Qed.

(** C6. The scorer assigns the constants of the table: on every parsed
    data whose name, when present, has at least one token, and so on
    every profile assembled from the results of the extractors. *)
Theorem confidence_constants {U : UCD} (R : Runtime) :
  (forall pd text,
     (forall n, name pd = Some n -> 1 <= List.length (split_ws n)) ->
     firstn 6 (_calculate_confidence_scores pd text) = spec_scores pd)
  /\ (forall text p,
        assembled_from R text p ->
        firstn 6 (confidence_scores p) = spec_scores p).
Proof.
  split; [exact scores_match_spec |].
  intros text p (vn & ve & vp & vs & vx & vd & vw & vl & vy & Ha).
  destruct Ha as (Hn & _ & _ & _ & _ & _ & _ & _ & _ & ->).
  unfold assemble. cbn [confidence_scores].
  rewrite scores_match_spec; [reflexivity |].
  cbn [name]. intros n ->. exact (proj1 (extract_name_tokens text Hn)).
Qed.

(** A profile with a two-token name, an email, no phone, four skills, an
    experience and no education. *)
Lemma confidence_constants_witness :
  firstn 6
    (_calculate_confidence_scores
       {| name := Some (u "Jane Doe"); email := Some (u "jane@corp.io");
          phone := None;
          skills := [u "C"; u "Docker"; u "Python"; u "R"];
          experience := Some (u "5+ years"); education := None;
          work_history := []; location := None; salary_expectation := None;
          raw_text := sample_text; confidence_scores := [] |}
       sample_text)
  = [("name", (9 # 10)%Q); ("email", (95 # 100)%Q); ("phone", (0 # 1)%Q);
     ("skills", (7 # 10)%Q); ("experience", (8 # 10)%Q);
     ("education", (2 # 10)%Q)]%string.
Proof.
  destruct (confidence_constants (U := ascii_ucd) (docx_runtime sample_text))
    as [Hscorer _].
  rewrite Hscorer; [reflexivity |].
  cbn [name]. intros n Hn. apply (f_equal (fun o => match o with
                                                     | Some x => x
                                                     | None => []
                                                     end)) in Hn.
  subst n. vm_compute. lia.
Defined.

(** C3. Every profile [parse_resume] returns has an entry overall in
    confidence_scores; the other entries are those of name, email, phone,
    skills, experience and education, six in all, and overall equals
    their unweighted arithmetic mean. *)
Theorem overall_is_mean_of_other_scores {U : UCD} (R : Runtime)
    (file_path : str) :
  exists p v,
    fst (parse_resume R file_path) = Ok p
    /\ dict_get "overall" (confidence_scores p) = Some v
    /\ map fst (other_scores (confidence_scores p))
       = ["name"; "email"; "phone"; "skills"; "experience";
          "education"]%string
    /\ Qeq v (mean (other_scores (confidence_scores p))).
Proof.
  destruct (parse_resume_cases R file_path) as [H | (text & p & H)].
  - exists _create_empty_result, zero. split; [exact H |].
    split; [reflexivity |]. split; reflexivity.
  - destruct H as (_ & _ & Ha & Hp).
    destruct Ha as (vn & ve & vp & vs & vx & vd & vw & vl & vy & Ha).
    destruct Ha as (_ & _ & _ & _ & _ & _ & _ & _ & _ & ->).
    destruct (scores_shape
                {| name := vn; email := ve; phone := vp; skills := vs;
                   experience := vx; education := vd; work_history := vw;
                   location := vl; salary_expectation := vy;
                   raw_text := firstn 2000 text; confidence_scores := [] |}
                text) as (a & b & c & d & e & f & Hs).
    exists (assemble text vn ve vp vs vx vd vw vl vy).
    exists (mean [("name", a); ("email", b); ("phone", c);
                  ("skills", d); ("experience", e);
                  ("education", f)]%string).
    split; [exact Hp |]. unfold assemble. cbn [confidence_scores].
    rewrite Hs.
    split; [reflexivity |]. split; [reflexivity |].
    apply Qeq_refl.
Qed.

(** ** Which exceptions the extractors can raise *)

Section Totality.
Context {U : UCD}.

Lemma match_at_sure f r adv cur m n :
  match_at f r adv cur = Some m ->
  In n (sure_groups r) -> group m n <> None.
Proof.
  unfold match_at.
  destruct (rmatch f r _ cur []) as [[cur' cs'] |] eqn:E; [| discriminate].
  intros H Hn. apply rmatch_sure in E.
  destruct E as (cur1 & cs1 & Hk & Hs & _).
  destruct (adv && Nat.eqb (c_pos cur1) (c_pos cur)); [discriminate |].
  injection Hk as -> ->.
  injection H as <-. unfold group. cbn [m_caps]. now apply Hs.
Qed.

Lemma scan_sure f r n :
  In n (sure_groups r) ->
  forall rest adv pos prev m,
    scan f r adv pos prev rest = Some m -> group m n <> None.
Proof.
  intros Hn. induction rest as [| c rest IH]; intros adv pos prev m;
    cbn [scan];
    destruct (match_at f r adv _) as [m' |] eqn:E.
  - intros H. injection H as <-. eapply match_at_sure; eassumption.
  - discriminate.
  - intros H. injection H as <-. eapply match_at_sure; eassumption.
  - apply IH.
Qed.

Lemma re_search_sure f r s m n :
  re_search r s f = Some m -> In n (sure_groups r) -> group m n <> None.
Proof. intros H Hn. eapply scan_sure; eassumption. Qed.

Lemma first_match_sure f patterns s m n :
  (forall p, In p patterns -> In n (sure_groups p)) ->
  first_match patterns s f = Some m -> group m n <> None.
Proof.
  induction patterns as [| p ps IH]; intros Hall; cbn [first_match];
    [discriminate |].
  destruct (re_search p s f) as [m' |] eqn:E.
  - intros H. injection H as <-.
    eapply re_search_sure; [exact E |]. apply Hall. now left.
  - apply IH. intros q Hq. apply Hall. now right.
Qed.

Lemma strip_of_total (o : option str) :
  o <> None -> exists s, fst (strip_of o) = Ok s.
Proof. destruct o as [s |]; [intros _; now eexists | contradiction]. Qed.

Lemma first_some_total {A B} (f : A -> M (option B)) (l : list A) :
  (forall a, In a l -> exists o, fst (f a) = Ok o) ->
  exists o, fst (first_some f l) = Ok o.
Proof.
  induction l as [| a l IH]; intros Hf; cbn [first_some]; [now eexists |].
  rewrite fst_bind. destruct (Hf a (or_introl eq_refl)) as [o Ho].
  rewrite Ho. destruct o as [b |]; [now eexists |].
  apply IH. intros a' Ha'. apply Hf. now right.
Qed.

Lemma for_each_total {A S} (f : S -> A -> M S) (l : list A) :
  (forall s a, exists s', fst (f s a) = Ok s') ->
  forall s, exists s', fst (for_each f l s) = Ok s'.
Proof.
  intros Hf. induction l as [| a l IH]; intros s; cbn [for_each];
    [now eexists |].
  rewrite fst_bind. destruct (Hf s a) as [s1 Hs1]. rewrite Hs1. apply IH.
Qed.

Lemma sure_in (n : nat) (patterns : list regex) :
  forallb (fun p => existsb (Nat.eqb n) (sure_groups p)) patterns = true ->
  forall p, In p patterns -> In n (sure_groups p).
Proof.
  intros H p Hp. rewrite forallb_forall in H. specialize (H p Hp).
  apply existsb_exists in H. destruct H as (m & Hm & E).
  apply Nat.eqb_eq in E. now subst m.
Qed.

Lemma extract_name_total (text : str) :
  exists o, fst (_extract_name text) = Ok o.
Proof.
  unfold _extract_name. rewrite fst_bind. cbn [enter emit fst].
  apply first_some_total. intros line _.
  destruct (Nat.ltb _ 3 || _); [now eexists |].
  destruct (existsb _ skip_words); [now eexists |].
  apply first_some_total. intros pattern Hp. unfold name_from_line.
  destruct (re_search pattern (strip line) NOFLAGS) as [m |] eqn:E;
    [| now eexists].
  rewrite fst_bind.
  destruct (strip_of_total (o := group m 1)) as [s Hs].
  { eapply re_search_sure; [exact E |].
    eapply sure_in; [| exact Hp]. reflexivity. }
  rewrite Hs. destruct (_ && _ && _); now eexists.
Qed.

Lemma extract_email_total (text : str) :
  exists o, fst (_extract_email text) = Ok o.
Proof.
  unfold _extract_email. rewrite fst_bind. cbn [enter emit fst].
  destruct (filter _ _); now eexists.
Qed.

Lemma extract_phone_total (text : str) :
  exists o, fst (_extract_phone text) = Ok o.
Proof.
  unfold _extract_phone. rewrite fst_bind. cbn [enter emit fst].
  apply first_some_total. intros pattern _.
  apply first_some_total. intros mtext _. unfold phone_from_match.
  destruct (_ && _); now eexists.
Qed.

Lemma skills_from_section_total (text : str) (found : list str) :
  exists found', fst (skills_from_section text found) = Ok found'.
Proof.
  unfold skills_from_section.
  destruct (re_search skills_section_pattern text IGNORECASE) as [m |] eqn:E;
    [| now eexists].
  destruct (group m 1) as [skills_text |] eqn:Eg; [now eexists |].
  exfalso. revert Eg. eapply re_search_sure; [exact E |]. cbn. tauto.
Qed.

Lemma extract_skills_total (R : Runtime) (text : str) :
  exists found, fst (_extract_skills R text) = Ok found.
Proof.
  unfold _extract_skills. rewrite fst_bind. cbn [enter emit fst].
  rewrite fst_bind.
  destruct (skills_from_section_total text
              (direct_skills (str_lower text) [])) as [found1 H1].
  rewrite H1. rewrite fst_bind.
  destruct (skills_from_nlp_total R text found1) as [found2 H2].
  rewrite H2. now eexists.
Qed.

Lemma py_int_raises (R : Runtime) (o : option str) (e : exn) :
  o <> None -> fst (py_int R o) = Raise e -> e = ValueError.
Proof.
  unfold py_int. destruct o as [s |]; [intros _ | contradiction].
  destruct (nonempty s && forallb isdecimal s);
    [destruct (_ && _ && _) |]; cbn [raise ret fst]; congruence.
Qed.

(** The experience extractor raises nothing but the ValueError of
    [int]. *)
Lemma extract_experience_raises (R : Runtime) (text : str) (e : exn) :
  fst (_extract_experience R text) = Raise e -> e = ValueError.
Proof.
  unfold _extract_experience. rewrite fst_bind. cbn [enter emit fst].
  destruct (first_match exp_patterns text IGNORECASE) as [m |] eqn:E.
  - rewrite fst_bind.
    destruct (fst (py_int R (group m 1))) as [years | e'] eqn:Ep;
      [discriminate |].
    intros H. injection H as <-. apply (py_int_raises R (o := group m 1));
      [| exact Ep].
    eapply first_match_sure; [| exact E]. apply sure_in. reflexivity.
  - rewrite fst_bind.
    destruct (experience_from_dates_total R text) as [o Ho]. rewrite Ho.
    destruct (truthy o); discriminate.
Qed.

Lemma extract_education_total (text : str) :
  exists o, fst (_extract_education text) = Ok o.
Proof.
  unfold _extract_education. rewrite fst_bind. cbn [enter emit fst].
  destruct (nonempty _); now eexists.
Qed.

Lemma work_history_line_total (st : wh_state) (line : str) :
  exists st', fst (work_history_line st line) = Ok st'.
Proof.
  unfold work_history_line.
  destruct (negb (nonempty (strip line))); [now eexists |].
  destruct (first_match job_patterns (strip line) NOFLAGS) as [m |] eqn:E.
  - rewrite fst_bind.
    destruct (strip_of_total (o := group m 1)) as [t Ht].
    { eapply first_match_sure; [| exact E]. apply sure_in. reflexivity. }
    rewrite Ht, fst_bind.
    destruct (strip_of_total (o := group m 2)) as [c Hc].
    { eapply first_match_sure; [| exact E]. apply sure_in. reflexivity. }
    rewrite Hc. now eexists.
  - destruct (wh_current st); [| now eexists].
    destruct (Nat.ltb _ 5); [| now eexists].
    destruct (is_bullet _); [now eexists |].
    destruct (Nat.ltb 20 _); now eexists.
Qed.

Lemma extract_work_history_total (text : str) :
  exists wh, fst (_extract_work_history text) = Ok wh.
Proof.
  unfold _extract_work_history. rewrite fst_bind. cbn [enter emit fst].
  destruct (re_search experience_section_pattern text IGNORECASE)
    as [m |] eqn:E; [| now eexists].
  destruct (group m 1) as [experience_text |] eqn:Eg.
  - rewrite fst_bind.
    destruct (for_each_total work_history_line
                (split_on 10%N experience_text) work_history_line_total
                {| wh_history := []; wh_current := None; wh_lines := [] |})
      as [st Hst].
    rewrite Hst. now eexists.
  - exfalso. revert Eg. eapply re_search_sure; [exact E |]. cbn. tauto.
Qed.

Lemma extract_location_total (text : str) :
  exists o, fst (_extract_location text) = Ok o.
Proof.
  unfold _extract_location. rewrite fst_bind. cbn [enter emit fst].
  apply first_some_total. intros pattern Hp. unfold location_from_pattern.
  destruct (re_search pattern text IGNORECASE) as [m |] eqn:E;
    [| now eexists].
  rewrite fst_bind.
  destruct (strip_of_total (o := group m 1)) as [s Hs].
  { eapply re_search_sure; [exact E |].
    eapply sure_in; [| exact Hp]. reflexivity. }
  rewrite Hs. destruct (_ && _); now eexists.
Qed.

Lemma extract_salary_total (text : str) :
  exists o, fst (_extract_salary_expectation text) = Ok o.
Proof.
  unfold _extract_salary_expectation. rewrite fst_bind.
  cbn [enter emit fst].
  destruct (first_match salary_patterns text IGNORECASE); now eexists.
Qed.

(** Of the nine field extractors only [_extract_experience] can raise,
    and only ValueError. *)
Lemma only_experience_raises (R : Runtime) (text : str) :
  some_extractor_raises R text ->
  fst (_extract_experience R text) = Raise ValueError.
Proof.
  unfold some_extractor_raises.
  destruct (extract_name_total text) as [? H1].
  destruct (extract_email_total text) as [? H2].
  destruct (extract_phone_total text) as [? H3].
  destruct (extract_skills_total R text) as [? H4].
  destruct (extract_education_total text) as [? H6].
  destruct (extract_work_history_total text) as [? H7].
  destruct (extract_location_total text) as [? H8].
  destruct (extract_salary_total text) as [? H9].
  intros H. decompose [or ex] H; try congruence.
  match goal with
  | He : fst (_extract_experience R text) = Raise ?e |- _ =>
      rewrite He; f_equal; exact (extract_experience_raises R text He)
  end.
Qed.

End Totality.

(** C5. On every text the skills extractor returns a list, and every
    string in it is an entry of the flattened taxonomy, whichever of the
    three paths added it; hence so is every string of the skills field of
    every profile. *)
Theorem skills_are_taxonomy_names {U : UCD} (R : Runtime) :
  (forall text,
     exists found,
       fst (_extract_skills R text) = Ok found
       /\ forall s, In s found -> In s all_skills)
  /\ (forall file_path,
        exists p, fst (parse_resume R file_path) = Ok p
                  /\ forall s, In s (skills p) -> In s all_skills).
Proof.
  split.
  - intros text. destruct (extract_skills_total R text) as [found H].
    exists found. split; [exact H | exact (extract_skills_incl R text H)].
  - intros file_path.
    destruct (parse_resume_cases R file_path) as [H | (text & p & H)].
    + exists _create_empty_result. split; [exact H |]. intros s [].
    + exists p. destruct H as (_ & _ & Ha & Hp). split; [exact Hp |].
      destruct Ha as (vn & ve & vp & vs & vx & vd & vw & vl & vy & Ha).
      destruct Ha as (_ & _ & _ & Hs & _ & _ & _ & _ & _ & ->).
      exact (extract_skills_incl R text Hs).
Qed.

(** On the sample text the extractor returns C, Docker, Python and R, all
    of them taxonomy entries. *)
Lemma skills_are_taxonomy_names_witness :
  fst (_extract_skills (U := ascii_ucd) (docx_runtime sample_text)
         sample_text)
  = Ok [u "C"; u "Docker"; u "Python"; u "R"]
  /\ In (u "Docker") all_skills.
Proof.
  assert (Hrun : fst (_extract_skills (U := ascii_ucd)
                        (docx_runtime sample_text) sample_text)
                 = Ok [u "C"; u "Docker"; u "Python"; u "R"])
    by (vm_compute; reflexivity).
  split; [exact Hrun |].
  destruct (skills_are_taxonomy_names (U := ascii_ucd)
              (docx_runtime sample_text)) as [Hex _].
  destruct (Hex sample_text) as (found & Hfound & Hin).
  rewrite Hrun in Hfound. apply Ok_inj in Hfound. subst found.
  apply Hin. simpl. tauto.
Defined.

(** C9. On every text the work-history extractor returns a list of at
    most 5 entries, every description in it having at most 3 lines; so
    has the work history of every profile [parse_resume] returns. *)
Theorem work_history_is_bounded {U : UCD} (R : Runtime) :
  (forall text,
     exists wh,
       fst (_extract_work_history text) = Ok wh
       /\ List.length wh <= 5
       /\ forall job lines,
            In job wh -> description job = Some lines ->
            List.length lines <= 3)
  /\ (forall file_path,
        exists p,
          fst (parse_resume R file_path) = Ok p
          /\ List.length (work_history p) <= 5
          /\ forall job lines,
               In job (work_history p) -> description job = Some lines ->
               List.length lines <= 3).
Proof.
  split.
  - intros text. destruct (extract_work_history_total text) as [wh H].
    exists wh. split; [exact H |].
    destruct (extract_work_history_bounded text H) as [Hl Hd].
    split; [exact Hl |]. intros job lines Hin.
    rewrite Forall_forall in Hd. exact (Hd job Hin lines).
  - intros file_path.
    destruct (parse_resume_cases R file_path) as [H | (text & p & H)].
    + exists _create_empty_result. split; [exact H |].
      split; [apply Nat.le_0_l | intros job lines []].
    + exists p. destruct H as (_ & _ & Ha & Hp). split; [exact Hp |].
      destruct Ha as (vn & ve & vp & vs & vx & vd & vw & vl & vy & Ha).
      destruct Ha as (_ & _ & _ & _ & _ & _ & Hw & _ & _ & ->).
      destruct (extract_work_history_bounded text Hw) as [Hl Hd].
      split; [exact Hl |]. intros job lines Hin.
      rewrite Forall_forall in Hd. exact (Hd job Hin lines).
Qed.

(** The sample text lists one job with four bullet lines; three are
    kept. *)
Lemma work_history_is_bounded_witness :
  fst (_extract_work_history (U := ascii_ucd) sample_text)
  = Ok [{| title := u "Engineer"; company := u "Acme";
           dates := u "2015 - 2020";
           description := Some [u "built the billing service";
                                u "ran the migration";
                                u "wrote the docs"] |}]
  /\ List.length [u "built the billing service"; u "ran the migration";
                  u "wrote the docs"] <= 3.
Proof.
  assert (Hrun : fst (_extract_work_history (U := ascii_ucd) sample_text)
                 = Ok [{| title := u "Engineer"; company := u "Acme";
                          dates := u "2015 - 2020";
                          description :=
                            Some [u "built the billing service";
                                  u "ran the migration";
                                  u "wrote the docs"] |}])
    by (vm_compute; reflexivity).
  split; [exact Hrun |].
  destruct (work_history_is_bounded (U := ascii_ucd)
              (docx_runtime sample_text)) as [Hex _].
  destruct (Hex sample_text) as (wh & Hwh & _ & Hd).
  rewrite Hrun in Hwh. apply Ok_inj in Hwh. subst wh.
  apply (Hd _ _ (or_introl eq_refl) eq_refl).
Defined.

(** ** Strings, continued *)

Lemma str_leb_total (a b : str) : str_leb a b = false -> str_leb b a = true.
Proof.
  revert b. induction a as [| x a IH]; intros [| y b]; cbn [str_leb];
    try discriminate; try reflexivity.
  destruct (N.ltb x y) eqn:Exy; [discriminate |].
  destruct (N.ltb y x) eqn:Eyx; [reflexivity |]. apply IH.
Qed.

Lemma insert_sorted_ascending (x : str) (l : list str) :
  ascending l = true -> ascending (insert_sorted x l) = true.
Proof.
  induction l as [| y l IH]; [reflexivity |].
  intros Hl. cbn [insert_sorted].
  destruct (str_leb x y) eqn:Exy.
  - cbn [ascending]. now rewrite Exy.
  - assert (Hyx : str_leb y x = true) by now apply str_leb_total.
    destruct l as [| z l].
    + cbn. now rewrite Hyx.
    + cbn [ascending] in Hl. apply andb_true_iff in Hl as [Hyz Hl].
      specialize (IH Hl). cbn [insert_sorted] in *.
      destruct (str_leb x z); cbn [ascending] in *.
      * now rewrite Hyx, IH.
      * now rewrite Hyz, IH.
Qed.

Lemma sorted_ascending (l : list str) : ascending (sorted l) = true.
Proof.
  induction l as [| x l IH]; [reflexivity |].
  cbn [sorted fold_right]. now apply insert_sorted_ascending.
Qed.

Lemma insert_sorted_In (x y : str) (l : list str) :
  In y (insert_sorted x l) <-> y = x \/ In y l.
Proof.
  split; [apply insert_sorted_in |].
  induction l as [| z l IH]; cbn [insert_sorted].
  - intros [-> | []]. now left.
  - destruct (str_leb x z).
    + intros [-> | H]; [now left | now right].
    + intros [-> | [-> | H]]; [right; apply IH; now left | now left |].
      right. apply IH. now right.
Qed.

Lemma insert_sorted_NoDup (x : str) (l : list str) :
  ~ In x l -> NoDup l -> NoDup (insert_sorted x l).
Proof.
  induction l as [| z l IH]; intros Hx Hl; cbn [insert_sorted].
  - repeat constructor. intros [].
  - destruct (str_leb x z); [now constructor |].
    inversion Hl as [| ? ? Hz Hl']; subst. constructor.
    + intros H. apply insert_sorted_In in H. destruct H as [-> | H].
      * apply Hx. now left.
      * contradiction.
    + apply IH; [| exact Hl']. intros H. apply Hx. now right.
Qed.

Lemma sorted_In (l : list str) (y : str) : In y (sorted l) <-> In y l.
Proof.
  induction l as [| x l IH]; [reflexivity |].
  cbn [sorted fold_right]. rewrite insert_sorted_In. fold (sorted l).
  rewrite IH. cbn [In]. intuition congruence.
Qed.

Lemma sorted_NoDup (l : list str) : NoDup l -> NoDup (sorted l).
Proof.
  induction 1 as [| x l Hx Hl IH]; [constructor |].
  cbn [sorted fold_right]. apply insert_sorted_NoDup; [| exact IH].
  fold (sorted l). now rewrite sorted_In.
Qed.

Lemma set_mem_In (x : str) (s : list str) : set_mem x s = true <-> In x s.
Proof.
  unfold set_mem. rewrite existsb_exists. split.
  - intros (y & Hy & E). apply str_eqb_eq in E. now subst y.
  - intros H. exists x. split; [exact H | apply str_eqb_refl].
Qed.

Lemma set_add_NoDup (x : str) (s : list str) :
  NoDup s -> NoDup (set_add x s).
Proof.
  intros Hs. unfold set_add. destruct (set_mem x s) eqn:E; [exact Hs |].
  apply NoDup_app; [exact Hs | repeat constructor; intros [] |].
  - intros y Hy [<- | []]. apply set_mem_In in Hy. congruence.
Qed.

Lemma fold_left_keeps {A S} (P : S -> Prop) (step : S -> A -> S)
    (l : list A) :
  (forall s a, P s -> P (step s a)) ->
  forall s, P s -> P (fold_left step l s).
Proof.
  intros Hstep. induction l as [| a l IH]; intros s Hs; cbn [fold_left];
    [exact Hs |]. apply IH. now apply Hstep.
Qed.

Section SkillOrder.
Context {U : UCD} (R : Runtime).

Lemma direct_skills_NoDup (text_lower : str) (found : list str) :
  NoDup found -> NoDup (direct_skills text_lower found).
Proof.
  unfold direct_skills. apply fold_left_keeps. intros s skill Hs.
  destruct (re_search _ text_lower NOFLAGS); [now apply set_add_NoDup | exact Hs].
Qed.

Lemma section_skills_NoDup (skills_text : str) (found : list str) :
  NoDup found -> NoDup (section_skills skills_text found).
Proof.
  unfold section_skills. apply fold_left_keeps. intros s candidate Hs.
  destruct (_ && _); [| exact Hs].
  unfold skills_in_candidate. apply fold_left_keeps; [| exact Hs].
  intros s' skill Hs'. destruct (contains _ _); [now apply set_add_NoDup | exact Hs'].
Qed.

Lemma entity_skills_NoDup (ents : list Entity) (found : list str) :
  NoDup found -> NoDup (entity_skills ents found).
Proof.
  unfold entity_skills. apply fold_left_keeps. intros s ent Hs.
  destruct (_ && _); [| exact Hs].
  apply fold_left_keeps; [| exact Hs].
  intros s' skill Hs'. destruct (str_eqb _ _); [now apply set_add_NoDup | exact Hs'].
Qed.

(** X1. On every text the skills extractor returns a list that ascends in
    code-point order and holds no string twice, so a skill found by
    several paths is reported once. *)
Theorem skills_sorted_without_duplicates (text : str) :
  exists found,
    fst (_extract_skills R text) = Ok found
    /\ ascending found = true
    /\ NoDup found.
Proof.
  destruct (extract_skills_total R text) as [found H].
  exists found. split; [exact H |].
  unfold _extract_skills in H.
  apply bind_Ok_inv in H. destruct H as (_ & _ & H).
  apply bind_Ok_inv in H. destruct H as (found1 & H1 & H).
  apply bind_Ok_inv in H. destruct H as (found2 & H2 & H).
  apply Ok_inj in H. subst found.
  split; [apply sorted_ascending |]. apply sorted_NoDup.
  assert (Hd1 : NoDup found1).
  { unfold skills_from_section in H1.
    destruct (re_search skills_section_pattern text IGNORECASE) as [m |].
    - destruct (group m 1); [| discriminate]. apply Ok_inj in H1. subst found1.
      apply section_skills_NoDup, direct_skills_NoDup. constructor.
    - apply Ok_inj in H1. subst found1. apply direct_skills_NoDup. constructor. }
  unfold skills_from_nlp in H2.
  destruct (nlp R) as [run_nlp |]; [| apply Ok_inj in H2; now subst found2].
  destruct (SPACY_AVAILABLE R); [| apply Ok_inj in H2; now subst found2].
  rewrite fst_try, fst_bind in H2. cbn [lift fst] in H2.
  destruct (run_nlp text) as [ents | e].
  - apply Ok_inj in H2. subst found2. now apply entity_skills_NoDup.
  - apply Ok_inj in H2. now subst found2.
Qed.

End SkillOrder.

(** ** Bounds on the confidence scores *)

(** Every entry the scorer writes lies in [0, 1], and its overall entry
    lies between 0.1 and 0.9.  The entries are modelled as the rationals
    their literals denote, while the code takes the mean in binary
    floating point: of the six entries the least sum is 0.7 and the
    greatest 5.2, so the mean the code stores is 0.11666666666666665 at
    the least and 0.8666666666666667 at the most, and the bounds stated
    here hold of the stored values as well as of the rationals. *)
Lemma scorer_bounds (pd : ParsedProfile) (text : str) :
  Forall (fun kv => (0 # 1 <= snd kv)%Q /\ (snd kv <= 1 # 1)%Q)
         (_calculate_confidence_scores pd text)
  /\ exists v,
       dict_get "overall" (_calculate_confidence_scores pd text) = Some v
       /\ (1 # 10 <= v)%Q /\ (v <= 9 # 10)%Q.
Proof.
  unfold _calculate_confidence_scores.
  destruct (name pd) as [n |];
    [destruct (nonempty n && Nat.leb 2 (List.length (split_ws n)));
     [| destruct (nonempty n)] |];
    destruct (truthy (email pd)), (truthy (phone pd));
    (destruct (Nat.leb 5 (List.length (skills pd)));
     [| destruct (Nat.leb 3 (List.length (skills pd)));
        [| destruct (Nat.leb 1 (List.length (skills pd)))]]);
    destruct (truthy (experience pd)), (truthy (education pd));
    (split;
     [repeat constructor; vm_compute; discriminate
     | eexists; split; [reflexivity | split; vm_compute; discriminate]]).
Qed.

(** X2. Every confidence score of every profile [parse_resume] returns,
    overall included, lies between 0 and 1. *)
Theorem confidence_scores_in_unit_interval {U : UCD} (R : Runtime)
    (file_path : str) :
  exists p,
    fst (parse_resume R file_path) = Ok p
    /\ forall k v, In (k, v) (confidence_scores p) ->
                   (0 # 1 <= v)%Q /\ (v <= 1 # 1)%Q.
Proof.
  destruct (parse_resume_cases R file_path) as [H | (text & p & H)].
  - exists _create_empty_result. split; [exact H |].
    intros k v Hin. cbn in Hin.
    repeat (destruct Hin as [Hin | Hin];
            [injection Hin as _ <-; split; vm_compute; discriminate |]).
    contradiction.
  - destruct H as (_ & _ & Ha & Hp). exists p. split; [exact Hp |].
    destruct Ha as (vn & ve & vp & vs & vx & vd & vw & vl & vy & Ha).
    destruct Ha as (_ & _ & _ & _ & _ & _ & _ & _ & _ & ->).
    unfold assemble. cbn [confidence_scores]. intros k v Hin.
    match goal with
    | _ : In _ (_calculate_confidence_scores ?pd text) |- _ =>
        destruct (scorer_bounds pd text) as [Hall _]
    end.
    rewrite Forall_forall in Hall. exact (Hall _ Hin).
Qed.

(** X3. The overall score is 0 for the canonical empty profile and for
    no other: [parse_resume] returns either that profile, whose overall
    is 0, or a different profile, whose overall is at least 0.1 and at
    most 0.9.  A positive overall does not say that the document was
    read: the notice that stands for the text when the PDF or DOCX
    library is missing is parsed and scored like any other text. *)
Theorem overall_zero_only_for_empty_profile {U : UCD} (R : Runtime)
    (file_path : str) :
  exists p v,
    fst (parse_resume R file_path) = Ok p
    /\ dict_get "overall" (confidence_scores p) = Some v
    /\ ((p = _create_empty_result /\ v = (0 # 1)%Q)
        \/ (p <> _create_empty_result
            /\ (1 # 10 <= v)%Q /\ (v <= 9 # 10)%Q)).
Proof.
  destruct (parse_resume_cases R file_path) as [H | (text & p & H)].
  - exists _create_empty_result, (0 # 1)%Q. split; [exact H |].
    split; [reflexivity |]. left. now split.
  - destruct H as (_ & _ & Ha & Hp).
    destruct Ha as (vn & ve & vp & vs & vx & vd & vw & vl & vy & Ha).
    destruct Ha as (_ & _ & _ & _ & _ & _ & _ & _ & _ & ->).
    destruct (scorer_bounds
                {| name := vn; email := ve; phone := vp; skills := vs;
                   experience := vx; education := vd; work_history := vw;
                   location := vl; salary_expectation := vy;
                   raw_text := firstn 2000 text; confidence_scores := [] |}
                text) as [_ (v & Hv & Hlo & Hhi)].
    exists (assemble text vn ve vp vs vx vd vw vl vy), v.
    split; [exact Hp |]. split; [exact Hv |]. right.
    split; [| now split].
    intros Heq. unfold assemble in Heq.
    apply (f_equal confidence_scores) in Heq. cbn [confidence_scores] in Heq.
    rewrite Heq in Hv. cbn in Hv. injection Hv as <-.
    revert Hlo. vm_compute. intros Hlo. now apply Hlo.
Qed.

(** A PDF handed to a runtime without the PDF library: the notice is
    parsed, the profile is not the empty one and its overall is
    positive. *)
Lemma overall_zero_only_for_empty_profile_witness :
  exists p v,
    fst (parse_resume (U := ascii_ucd) no_pdf_runtime (u "cv.pdf")) = Ok p
    /\ dict_get "overall" (confidence_scores p) = Some v
    /\ p <> _create_empty_result
    /\ (1 # 10 <= v)%Q.
Proof.
  destruct (overall_zero_only_for_empty_profile (U := ascii_ucd)
              no_pdf_runtime (u "cv.pdf"))
    as (p & v & Hp & Hv & [[He _] | (Hne & Hlo & _)]).
  - exfalso. rewrite He in Hp. revert Hp. vm_compute. discriminate.
  - exists p, v. split; [exact Hp |]. split; [exact Hv |].
    split; [exact Hne | exact Hlo].
Defined.

(** ** Email *)

Lemma filter_first {A} (keep : A -> bool) (l : list A) (x : A) (rest : list A) :
  filter keep l = x :: rest ->
  exists before after,
    l = before ++ x :: after
    /\ keep x = true
    /\ forallb (fun a => negb (keep a)) before = true.
Proof.
  induction l as [| a l IH]; cbn [filter]; [discriminate |].
  destruct (keep a) eqn:Ea.
  - intros H. injection H as -> _. exists [], l. now repeat split.
  - intros H. destruct (IH H) as (before & after & -> & Hx & Hb).
    exists (a :: before), after. repeat split; [exact Hx |].
    cbn [forallb]. now rewrite Ea, Hb.
Qed.

Lemma filter_nil {A} (keep : A -> bool) (l : list A) :
  filter keep l = [] -> forallb (fun a => negb (keep a)) l = true.
Proof.
  induction l as [| a l IH]; cbn [filter forallb]; [reflexivity |].
  destruct (keep a); [discriminate |]. exact IH.
Qed.

Lemma forallb_same {A} (f g : A -> bool) (l : list A) :
  (forall a, f a = g a) -> forallb f l = forallb g l.
Proof.
  intros H. induction l as [| a l IH]; cbn [forallb]; [reflexivity |].
  now rewrite H, IH.
Qed.

(** X4. The email extractor never raises.  What it returns is the
    lower-cased form of the first address found that holds no placeholder
    domain (example.com, test.com, placeholder): every address before it
    holds one; it returns None exactly when every address found does. *)
Theorem email_is_first_real_address {U : UCD} (text : str) :
  exists o,
    fst (_extract_email text) = Ok o
    /\ match o with
       | Some e =>
           exists before address after,
             re_findall email_pattern text NOFLAGS
             = before ++ address :: after
             /\ e = str_lower address
             /\ is_placeholder address = false
             /\ forallb is_placeholder before = true
       | None =>
           forallb is_placeholder (re_findall email_pattern text NOFLAGS)
           = true
       end.
Proof.
  unfold _extract_email. rewrite fst_bind. cbn [enter emit fst].
  destruct (filter _ (re_findall email_pattern text NOFLAGS))
    as [| address rest] eqn:E.
  - exists None. split; [reflexivity |].
    apply filter_nil in E. rewrite <- E. apply forallb_same.
    intros a. unfold is_placeholder. now rewrite negb_involutive.
  - exists (Some (str_lower address)). split; [reflexivity |].
    apply filter_first in E. destruct E as (before & after & E & Hx & Hb).
    exists before, address, after. split; [exact E |].
    split; [reflexivity |]. split.
    + unfold is_placeholder. now apply negb_true_iff in Hx.
    + rewrite <- Hb. apply forallb_same.
      intros a. unfold is_placeholder. now rewrite negb_involutive.
Qed.

(** Of two addresses the one on example.com is passed over. *)
Lemma email_is_first_real_address_witness :
  fst (_extract_email (U := ascii_ucd) two_emails_text)
  = Ok (Some (u "jane.doe@corp.io"))
  /\ is_placeholder (U := ascii_ucd) (u "Demo@Example.com") = true.
Proof.
  assert (Hrun : fst (_extract_email (U := ascii_ucd) two_emails_text)
                 = Ok (Some (u "jane.doe@corp.io")))
    by (vm_compute; reflexivity).
  split; [exact Hrun |].
  destruct (email_is_first_real_address (U := ascii_ucd) two_emails_text)
    as (o & Ho & Hprop).
  rewrite Hrun in Ho. apply Ok_inj in Ho. subst o.
  destruct Hprop as (before & address & after & Hall & He & _ & Hbefore).
  assert (Hfound : re_findall (U := ascii_ucd) email_pattern two_emails_text
                     NOFLAGS
                   = [u "Demo@Example.com"; u "Jane.Doe@Corp.io"])
    by (vm_compute; reflexivity).
  rewrite Hfound in Hall.
  destruct before as [| b0 before].
  - exfalso. cbn [app] in Hall. injection Hall as Ha _. subst address.
    vm_compute in He. discriminate He.
  - cbn [app] in Hall. injection Hall as Hb _. subst b0.
    cbn [forallb] in Hbefore. now apply andb_true_iff in Hbefore.
Defined.

(** ** Stripping *)

Lemma lstrip_keeps_head (c : char) (t : str) :
  isspace c = false -> lstrip (c :: t) = c :: t.
Proof. intros H. cbn [lstrip]. now rewrite H. Qed.

Lemma lstrip_shape (s : str) :
  lstrip s = [] \/ exists c t, lstrip s = c :: t /\ isspace c = false.
Proof.
  induction s as [| x s IH]; [now left |].
  cbn [lstrip]. destruct (isspace x) eqn:E; [exact IH |].
  right. now exists x, s.
Qed.

Lemma lstrip_idempotent (s : str) : lstrip (lstrip s) = lstrip s.
Proof.
  destruct (lstrip_shape s) as [-> | (c & t & -> & Hc)]; [reflexivity |].
  now apply lstrip_keeps_head.
Qed.

Lemma lstrip_snoc (l : str) (c : char) :
  isspace c = false -> lstrip (l ++ [c]) = lstrip l ++ [c].
Proof.
  intros Hc. induction l as [| x l IH]; cbn [lstrip app].
  - now rewrite Hc.
  - destruct (isspace x); [exact IH | reflexivity].
Qed.

Lemma rstrip_cons (c : char) (t : str) :
  isspace c = false -> rstrip (c :: t) = c :: rstrip t.
Proof.
  intros Hc. unfold rstrip. cbn [rev].
  rewrite lstrip_snoc by exact Hc. rewrite rev_app_distr. reflexivity.
Qed.

Lemma rstrip_idempotent (s : str) : rstrip (rstrip s) = rstrip s.
Proof.
  unfold rstrip. now rewrite rev_involutive, lstrip_idempotent.
Qed.

(** Stripping a stripped string changes nothing. *)
Lemma strip_idempotent (s : str) : strip (strip s) = strip s.
Proof.
  unfold strip.
  assert (H : lstrip (rstrip (lstrip s)) = rstrip (lstrip s)).
  { destruct (lstrip_shape s) as [-> | (c & t & -> & Hc)]; [reflexivity |].
    rewrite rstrip_cons by exact Hc. now apply lstrip_keeps_head. }
  now rewrite H, rstrip_idempotent.
Qed.

(** ** Name *)

(** X5. The name extractor never raises.  A name it returns has no
    surrounding whitespace and one to three words, and each word of more
    than one character is an upper-case character followed by lower-case
    ones. *)
Theorem name_is_capitalised_words {U : UCD} (text : str) :
  exists o,
    fst (_extract_name text) = Ok o
    /\ forall n, o = Some n ->
         strip n = n
         /\ 1 <= List.length (split_ws n) <= 3
         /\ forall c d w, In (c :: d :: w) (split_ws n) ->
              str_isupper [c] = true /\ str_islower (d :: w) = true.
Proof.
  destruct (extract_name_total text) as [o Ho]. exists o.
  split; [exact Ho |]. intros n ->. revert Ho.
  unfold _extract_name. rewrite fst_bind. cbn [enter emit fst].
  revert n.
  apply (@first_some_found _ _
           (fun n => strip n = n
                     /\ 1 <= List.length (split_ws n) <= 3
                     /\ forall c d w, In (c :: d :: w) (split_ws n) ->
                          str_isupper [c] = true
                          /\ str_islower (d :: w) = true)).
  intros line n.
  destruct (Nat.ltb (List.length (strip line)) 3
            || Nat.ltb 50 (List.length (strip line)));
    [cbn [ret fst]; discriminate |].
  destruct (existsb _ skip_words); [cbn [ret fst]; discriminate |].
  revert n.
  apply (@first_some_found _ _
           (fun n => strip n = n
                     /\ 1 <= List.length (split_ws n) <= 3
                     /\ forall c d w, In (c :: d :: w) (split_ws n) ->
                          str_isupper [c] = true
                          /\ str_islower (d :: w) = true)).
  intros pattern n. unfold name_from_line.
  destruct (re_search pattern (strip line) NOFLAGS) as [m |];
    [| cbn [ret fst]; discriminate].
  rewrite fst_bind. unfold strip_of.
  destruct (group m 1) as [g |]; cbn [ret raise fst]; [| discriminate].
  destruct (Nat.leb 1 (List.length (split_ws (strip g)))
            && Nat.leb (List.length (split_ws (strip g))) 3
            && looks_like_name (split_ws (strip g))) eqn:Eok;
    cbn [ret fst]; [| discriminate].
  intros H. apply Ok_inj in H.
  assert (strip g = n) by congruence. subst n.
  apply andb_true_iff in Eok as [Eok Hlooks].
  apply andb_true_iff in Eok as [Elo Ehi].
  apply Nat.leb_le in Elo, Ehi.
  split; [apply strip_idempotent |]. split; [now split |].
  intros c d w Hin. unfold looks_like_name in Hlooks.
  rewrite forallb_forall in Hlooks. specialize (Hlooks _ Hin).
  cbn beta iota in Hlooks. now apply andb_true_iff in Hlooks.
Qed.

(** The sample text opens with the line Jane Doe. *)
Lemma name_is_capitalised_words_witness :
  fst (_extract_name (U := ascii_ucd) sample_text) = Ok (Some (u "Jane Doe"))
  /\ strip (u "Jane Doe") = u "Jane Doe"
  /\ str_islower (U := ascii_ucd) (u "ane") = true.
Proof.
  assert (Hrun : fst (_extract_name (U := ascii_ucd) sample_text)
                 = Ok (Some (u "Jane Doe"))) by (vm_compute; reflexivity).
  split; [exact Hrun |].
  destruct (name_is_capitalised_words (U := ascii_ucd) sample_text)
    as (o & Ho & Hprop).
  rewrite Hrun in Ho. apply Ok_inj in Ho. subst o.
  destruct (Hprop (u "Jane Doe") eq_refl) as (Hstrip & _ & Hwords).
  split; [exact Hstrip |].
  apply (Hwords (chr "J") (chr "a") (u "ne")). vm_compute. tauto.
Defined.

(** ** Which extractor can fail *)

(** X6. Eight of the nine field extractors return on every text: the
    groups they read are bound by every match, so no AttributeError or
    TypeError can arise.  The experience extractor raises nothing but the
    ValueError of [int]. *)
Theorem only_experience_can_raise {U : UCD} (R : Runtime) (text : str) :
  (exists v, fst (_extract_name text) = Ok v)
  /\ (exists v, fst (_extract_email text) = Ok v)
  /\ (exists v, fst (_extract_phone text) = Ok v)
  /\ (exists v, fst (_extract_skills R text) = Ok v)
  /\ (exists v, fst (_extract_education text) = Ok v)
  /\ (exists v, fst (_extract_work_history text) = Ok v)
  /\ (exists v, fst (_extract_location text) = Ok v)
  /\ (exists v, fst (_extract_salary_expectation text) = Ok v)
  /\ (forall e, fst (_extract_experience R text) = Raise e ->
                e = ValueError).
Proof.
  repeat split.
  - apply extract_name_total.
  - apply extract_email_total.
  - apply extract_phone_total.
  - apply extract_skills_total.
  - apply extract_education_total.
  - apply extract_work_history_total.
  - apply extract_location_total.
  - apply extract_salary_total.
  - intros e. apply extract_experience_raises.
Qed.

(** On the text with 4301 digits the experience extractor does raise. *)
Lemma only_experience_can_raise_witness :
  fst (_extract_experience (U := ascii_ucd) (docx_runtime long_digits_text)
         long_digits_text) = Raise ValueError.
Proof.
  destruct (fst (_extract_experience (U := ascii_ucd)
                   (docx_runtime long_digits_text) long_digits_text))
    as [v | e] eqn:E.
  - rewrite long_digits_experience_raises in E. discriminate E.
  - f_equal.
    apply (only_experience_can_raise (U := ascii_ucd)
             (docx_runtime long_digits_text) long_digits_text).
    exact E.
Defined.

Lemma assembled_not_empty (text : str) v_name v_email v_phone v_skills
    v_experience v_education v_work_history v_location v_salary :
  assemble text v_name v_email v_phone v_skills v_experience v_education
           v_work_history v_location v_salary <> _create_empty_result.
Proof.
  intros Heq. apply (f_equal confidence_scores) in Heq.
  unfold assemble in Heq. cbn [confidence_scores] in Heq.
  match type of Heq with
  | _calculate_confidence_scores ?pd text = _ =>
      destruct (scorer_bounds pd text) as [_ (v & Hv & Hlo & _)]
  end.
  rewrite Heq in Hv. cbn in Hv. injection Hv as <-.
  revert Hlo. vm_compute. intros Hlo. now apply Hlo.
Qed.

(** On a text that is not blank the body either raises, because some
    extractor does, or returns the assembled profile. *)
Lemma parse_body_nonblank {U : UCD} (R : Runtime) (file_path text : str) :
  fst (_extract_text_from_file R file_path) = Ok text ->
  strip text <> [] ->
  ((exists e, fst (parse_body R file_path) = Raise e)
   /\ some_extractor_raises R text)
  \/ (exists p, fst (parse_body R file_path) = Ok p
                /\ assembled_from R text p).
Proof.
  intros Et Es.
  assert (Hbody : fst (parse_body R file_path)
                  = fst (v_name <- _extract_name text ;;
                         v_email <- _extract_email text ;;
                         v_phone <- _extract_phone text ;;
                         v_skills <- _extract_skills R text ;;
                         v_experience <- _extract_experience R text ;;
                         v_education <- _extract_education text ;;
                         v_work_history <- _extract_work_history text ;;
                         v_location <- _extract_location text ;;
                         v_salary <- _extract_salary_expectation text ;;
                         log INFO "Resume parsed successfully" ;;
                         ret (assemble text v_name v_email v_phone v_skills
                                v_experience v_education v_work_history
                                v_location v_salary))).
  { unfold parse_body. rewrite (bind_Ok _ _ Et).
    destruct (strip text); [contradiction | reflexivity]. }
  rewrite Hbody. clear Hbody. unfold some_extractor_raises.
  destruct (fst (_extract_name text)) as [vn | e] eqn:E1;
    [rewrite (bind_Ok _ _ E1)
    | left; split; [exists e; now rewrite (bind_Raise _ _ E1) | eauto 12]].
  destruct (fst (_extract_email text)) as [ve | e] eqn:E2;
    [rewrite (bind_Ok _ _ E2)
    | left; split; [exists e; now rewrite (bind_Raise _ _ E2) | eauto 12]].
  destruct (fst (_extract_phone text)) as [vp | e] eqn:E3;
    [rewrite (bind_Ok _ _ E3)
    | left; split; [exists e; now rewrite (bind_Raise _ _ E3) | eauto 12]].
  destruct (fst (_extract_skills R text)) as [vs | e] eqn:E4;
    [rewrite (bind_Ok _ _ E4)
    | left; split; [exists e; now rewrite (bind_Raise _ _ E4) | eauto 12]].
  destruct (fst (_extract_experience R text)) as [vx | e] eqn:E5;
    [rewrite (bind_Ok _ _ E5)
    | left; split; [exists e; now rewrite (bind_Raise _ _ E5) | eauto 12]].
  destruct (fst (_extract_education text)) as [vd | e] eqn:E6;
    [rewrite (bind_Ok _ _ E6)
    | left; split; [exists e; now rewrite (bind_Raise _ _ E6) | eauto 12]].
  destruct (fst (_extract_work_history text)) as [vw | e] eqn:E7;
    [rewrite (bind_Ok _ _ E7)
    | left; split; [exists e; now rewrite (bind_Raise _ _ E7) | eauto 12]].
  destruct (fst (_extract_location text)) as [vl | e] eqn:E8;
    [rewrite (bind_Ok _ _ E8)
    | left; split; [exists e; now rewrite (bind_Raise _ _ E8) | eauto 12]].
  destruct (fst (_extract_salary_expectation text)) as [vy | e] eqn:E9;
    [rewrite (bind_Ok _ _ E9)
    | left; split; [exists e; now rewrite (bind_Raise _ _ E9) | eauto 14]].
  right. exists (assemble text vn ve vp vs vx vd vw vl vy).
  split; [reflexivity |].
  exists vn, ve, vp, vs, vx, vd, vw, vl, vy.
  repeat (split; [assumption |]). reflexivity.
Qed.

(** X7. For a document whose text is not blank, [parse_resume] returns
    the canonical empty profile exactly when the experience extractor
    raises ValueError on that text; otherwise the profile carries the
    results of all nine extractors. *)
Theorem empty_profile_iff_experience_raises {U : UCD} (R : Runtime)
    (file_path text : str) :
  fst (_extract_text_from_file R file_path) = Ok text ->
  strip text <> [] ->
  (fst (parse_resume R file_path) = Ok _create_empty_result
   <-> fst (_extract_experience R text) = Raise ValueError)
  /\ (fst (parse_resume R file_path) <> Ok _create_empty_result ->
      exists p, fst (parse_resume R file_path) = Ok p
                /\ assembled_from R text p).
Proof.
  intros Et Es. rewrite parse_resume_fst.
  destruct (parse_body_nonblank R file_path Et Es)
    as [[[e He] Hraise] | (p & Hp & Ha)].
  - rewrite He. split; [| intros Hne; now contradiction Hne].
    split; [intros _; now apply only_experience_raises | reflexivity].
  - rewrite Hp. split; [| intros _; now exists p].
    destruct Ha as (vn & ve & vp & vs & vx & vd & vw & vl & vy & Ha).
    destruct Ha as (_ & _ & _ & _ & Hx & _ & _ & _ & _ & ->).
    split.
    + intros H. apply Ok_inj in H. exfalso. revert H.
      apply assembled_not_empty.
    + intros H. rewrite Hx in H. discriminate H.
Qed.

(** The two directions at work: the text with 4301 digits gives the empty
    profile, the sample text a profile with its name. *)
Lemma empty_profile_iff_experience_raises_witness :
  fst (parse_resume (U := ascii_ucd) (docx_runtime long_digits_text)
         (u "cv.docx")) = Ok _create_empty_result
  /\ exists p,
       fst (parse_resume (U := ascii_ucd) (docx_runtime sample_text)
              (u "cv.docx")) = Ok p
       /\ assembled_from (U := ascii_ucd) (docx_runtime sample_text)
            sample_text p.
Proof.
  split.
  - apply (empty_profile_iff_experience_raises (U := ascii_ucd)
             (docx_runtime long_digits_text) (u "cv.docx")
             long_digits_loaded long_digits_not_blank).
    exact long_digits_experience_raises.
  - assert (Et : fst (_extract_text_from_file (U := ascii_ucd)
                        (docx_runtime sample_text) (u "cv.docx"))
                 = Ok sample_text) by (vm_compute; reflexivity).
    assert (Es : strip sample_text <> []) by (vm_compute; discriminate).
    apply (empty_profile_iff_experience_raises (U := ascii_ucd)
             (docx_runtime sample_text) (u "cv.docx") Et Es).
    intros H.
    assert (Hx : fst (_extract_experience (U := ascii_ucd)
                        (docx_runtime sample_text) sample_text)
                 = Raise ValueError).
    { apply (empty_profile_iff_experience_raises (U := ascii_ucd)
               (docx_runtime sample_text) (u "cv.docx") Et Es).
      exact H. }
    revert Hx. vm_compute. discriminate.
Defined.

(** ** The PDF loader *)

Lemma pages_loop_value (pages : list (option str)) (acc : str) :
  fst (for_each
         (fun text page =>
            page_text <- lift page ;;
            if truthy page_text
            then ret (text ++ match page_text with
                              | Some s => s
                              | None => []
                              end ++ [10%N])
            else ret text)
         (map Ok pages) acc)
  = Ok (acc ++ page_lines pages).
Proof.
  revert acc. induction pages as [| page pages IH]; intros acc;
    cbn [map for_each].
  - cbn [ret fst page_lines flat_map]. now rewrite app_nil_r.
  - rewrite fst_bind, fst_bind. cbn [lift fst].
    unfold page_lines. cbn [flat_map]. fold (page_lines pages).
    destruct page as [s |]; cbn [truthy].
    + destruct s as [| c s]; cbn [nonempty ret fst]; rewrite IH.
      * reflexivity.
      * f_equal. rewrite <- !app_assoc. reflexivity.
    + cbn [ret fst]. now rewrite IH.
Qed.

(** X8. With the PDF library present and every page readable, the PDF
    loader returns the stripped concatenation of the texts of the pages
    that yield some text, one line feed after each: pages that yield None
    or the empty string leave no trace, and the result has no surrounding
    whitespace. *)
Theorem pdf_text_skips_empty_pages (R : Runtime)
    (file_path : str) (pages : list (option str)) :
  PDF_PARSING_AVAILABLE R = true ->
  fst (_extract_pdf_text (with_pdf_pages R (map Ok pages)) file_path)
  = Ok (strip (page_lines pages))
  /\ fst (_extract_pdf_text (with_pdf_pages R (map Ok pages)) file_path)
     = fst (_extract_pdf_text
              (with_pdf_pages R (map Ok (filter truthy pages))) file_path)
  /\ strip (strip (page_lines pages)) = strip (page_lines pages).
Proof.
  intros Ha.
  assert (Hrun : forall ps,
            fst (_extract_pdf_text (with_pdf_pages R (map Ok ps)) file_path)
            = Ok (strip (page_lines ps))).
  { intros ps. unfold _extract_pdf_text. rewrite fst_bind.
    cbn [enter emit fst with_pdf_pages PDF_PARSING_AVAILABLE pdf_pages].
    rewrite Ha. cbn [negb]. rewrite fst_try, fst_bind. cbn [lift fst].
    rewrite fst_bind, pages_loop_value. reflexivity. }
  split; [apply Hrun |]. split; [| apply strip_idempotent].
  rewrite !Hrun. do 2 f_equal.
  induction pages as [| page pages IH]; [reflexivity |].
  cbn [filter]. unfold page_lines at 1. cbn [flat_map].
  fold (page_lines pages).
  destruct page as [s |]; cbn [truthy].
  - destruct s as [| c s]; cbn [nonempty]; [exact IH |].
    unfold page_lines at 2. cbn [flat_map nonempty].
    fold (page_lines (filter truthy pages)). f_equal. exact IH.
  - exact IH.
Qed.

(** Three pages, the middle one without text. *)
Lemma pdf_text_skips_empty_pages_witness :
  fst (_extract_pdf_text
         (with_pdf_pages (docx_runtime sample_text)
            (map Ok [Some (u " Jane Doe"); None; Some (u "Engineer ")]))
         (u "cv.pdf"))
  = Ok (u "Jane Doe" ++ [10%N] ++ u "Engineer").
Proof.
  destruct (pdf_text_skips_empty_pages
              (docx_runtime sample_text) (u "cv.pdf")
              [Some (u " Jane Doe"); None; Some (u "Engineer ")] eq_refl)
    as (Hrun & _ & _).
  rewrite Hrun. vm_compute. reflexivity.
Defined.

(** ** Work history, entry by entry *)

Lemma with_description_key (job : Job) (lines : list str) :
  job_key (with_description job lines) = job_key job.
Proof. unfold with_description. now destruct (nonempty lines). Qed.

Lemma work_history_line_jobs {U : UCD} (st : wh_state) (line : str)
    (st' : wh_state) :
  fst (work_history_line st line) = Ok st' ->
  map job_key (jobs_so_far st')
  = map job_key (jobs_so_far st)
    ++ match header_of line with Some h => [h] | None => [] end.
Proof.
  unfold work_history_line, header_of.
  destruct (nonempty (strip line)); cbn [negb];
    [| intros H; apply Ok_inj in H; subst st'; now rewrite app_nil_r].
  destruct (first_match job_patterns (strip line) NOFLAGS) as [m |].
  - intros H. apply bind_Ok_inv in H. destruct H as (t & Ht & H).
    apply bind_Ok_inv in H. destruct H as (c & Hc & H).
    apply Ok_inj in H. subst st'.
    unfold strip_of in Ht, Hc.
    destruct (group m 1) as [g1 |]; [| discriminate].
    destruct (group m 2) as [g2 |]; [| discriminate].
    apply Ok_inj in Ht, Hc. subst t c.
    unfold jobs_so_far. cbn [wh_history wh_current].
    destruct (wh_current st) as [job |]; cbn [wh_history].
    + rewrite !map_app. cbn [map]. rewrite with_description_key.
      reflexivity.
    + rewrite !map_app. cbn [map]. now rewrite app_nil_r.
  - rewrite app_nil_r.
    destruct (wh_current st) as [job |] eqn:Ej;
      [| intros H; apply Ok_inj in H; now subst st'].
    destruct (Nat.ltb _ 5);
      [| intros H; apply Ok_inj in H; now subst st'].
    destruct (is_bullet _);
      [intros H; apply Ok_inj in H; subst st'; unfold jobs_so_far;
       cbn [wh_history wh_current]; now rewrite Ej |].
    destruct (Nat.ltb 20 _); intros H; apply Ok_inj in H; subst st';
      [unfold jobs_so_far; cbn [wh_history wh_current]; now rewrite Ej
      | reflexivity].
Qed.

Lemma work_history_loop_jobs {U : UCD} (lines : list str) :
  forall st st',
    fst (for_each work_history_line lines st) = Ok st' ->
    map job_key (jobs_so_far st')
    = map job_key (jobs_so_far st) ++ header_jobs lines.
Proof.
  induction lines as [| line lines IH]; intros st st'; cbn [for_each].
  - intros H. apply Ok_inj in H. subst st'. cbn. now rewrite app_nil_r.
  - intros H. apply bind_Ok_inv in H. destruct H as (st1 & H1 & H).
    rewrite (IH _ _ H), (work_history_line_jobs _ _ H1).
    unfold header_jobs. cbn [flat_map]. now rewrite <- app_assoc.
Qed.

(** X9. The work-history extractor returns one entry for each line of
    the experience section that matches a job pattern, in the order of
    the lines and with the title, company and dates read from that line,
    keeping the first five; without an experience section it returns the
    empty list. *)
Theorem work_history_follows_headers {U : UCD} (text : str) :
  exists wh,
    fst (_extract_work_history text) = Ok wh
    /\ match re_search experience_section_pattern text IGNORECASE with
       | None => wh = []
       | Some m =>
           map job_key wh
           = firstn 5 (header_jobs
                         (split_on 10%N (match group m 1 with
                                         | Some section => section
                                         | None => []
                                         end)))
       end.
Proof.
  destruct (extract_work_history_total text) as [wh H]. exists wh.
  split; [exact H |]. revert H.
  unfold _extract_work_history. rewrite fst_bind. cbn [enter emit fst].
  destruct (re_search experience_section_pattern text IGNORECASE) as [m |];
    [| intros H; apply Ok_inj in H; now subst wh].
  destruct (group m 1) as [experience_text |]; [| discriminate].
  intros H.
  apply bind_Ok_inv in H. destruct H as (st & Hloop & H).
  apply Ok_inj in H. subst wh.
  apply work_history_loop_jobs in Hloop. cbn in Hloop.
  rewrite <- Hloop, <- firstn_map. f_equal.
  unfold jobs_so_far. destruct (wh_current st) as [job |].
  - rewrite !map_app. cbn [map]. now rewrite with_description_key.
  - now rewrite app_nil_r.
Qed.

(** ** Substituting a one-character class away *)

Lemma firstn_skipn_snoc (s : str) (c : char) (rest : str) :
  forall from pos,
    (from <= pos)%nat ->
    skipn pos s = c :: rest ->
    firstn (S pos - from) (skipn from s)
    = firstn (pos - from) (skipn from s) ++ [c].
Proof.
  induction s as [| x s IH]; intros from pos Hle Hs.
  - now rewrite skipn_nil in Hs.
  - destruct pos as [| pos].
    + assert (from = O) by lia. subst from. cbn in Hs |- *.
      now injection Hs as -> _.
    + destruct from as [| from].
      * cbn [skipn] in Hs. specialize (IH O pos (Nat.le_0_l _) Hs).
        rewrite !Nat.sub_0_r in *.
        change (x :: firstn (S pos) s = (x :: firstn pos s) ++ [c]).
        change (firstn (S pos) s = firstn pos s ++ [c]) in IH.
        cbn [app]. f_equal. exact IH.
      * cbn [skipn] in Hs |- *.
        replace (S (S pos) - S from)%nat with (S pos - from)%nat by lia.
        replace (S pos - S from)%nat with (pos - from)%nat by lia.
        apply IH; [lia | exact Hs].
Qed.

Lemma firstn_skipn_all (s : str) (from pos : nat) :
  skipn pos s = [] ->
  firstn (pos - from) (skipn from s) = skipn from s.
Proof.
  intros Hs. apply firstn_all2. rewrite length_skipn.
  assert (List.length (skipn pos s) = O) by now rewrite Hs.
  rewrite length_skipn in H. lia.
Qed.

Lemma join_cons (sep p : str) (ps : list str) :
  ps <> [] -> join sep (p :: ps) = p ++ sep ++ join sep ps.
Proof. destruct ps; [congruence | reflexivity]. Qed.

Lemma pieces_nonempty (s : str) (from : nat) (ms : list Match) :
  pieces s from ms <> [].
Proof. destruct ms; discriminate. Qed.

Section SubClass.
Context {U : UCD}.
Variables (neg : bool) (items : list citem).

Lemma match_at_class (must_advance : bool) (pos : nat)
    (prev : option char) (c : char) (rest : str) :
  match_at NOFLAGS (Cls neg items) must_advance
    {| c_pos := pos; c_prev := prev; c_rest := c :: rest |}
  = if cls_match NOFLAGS neg items c
    then Some {| m_start := pos; m_end := S pos; m_text := [c];
                 m_caps := [];
                 m_after := {| c_pos := S pos; c_prev := Some c;
                               c_rest := rest |} |}
    else None.
Proof.
  unfold match_at, step. cbn [rmatch step c_rest c_pos c_prev].
  unfold step. cbn [c_rest c_pos].
  destruct (cls_match NOFLAGS neg items c); [| reflexivity].
  replace (Nat.eqb (S pos) pos) with false
    by (symmetry; apply Nat.eqb_neq; lia).
  rewrite andb_false_r. unfold span. cbn [c_pos c_rest].
  replace (S pos - pos)%nat with 1%nat by lia. reflexivity.
Qed.

Lemma class_sub_from (s : str) :
  forall rest from pos prev fuel must_advance,
    (from <= pos)%nat ->
    skipn pos s = rest ->
    (List.length rest < fuel)%nat ->
    join [] (pieces s from
               (matches_from fuel NOFLAGS (Cls neg items) must_advance
                  {| c_pos := pos; c_prev := prev; c_rest := rest |}))
    = firstn (pos - from) (skipn from s)
      ++ filter (fun c => negb (cls_match NOFLAGS neg items c)) rest.
Proof.
  induction rest as [| c rest IH];
    intros from pos prev fuel must_advance Hle Hs Hfuel;
    (destruct fuel as [| fuel]; [cbn in Hfuel; lia |]).
  - cbn. rewrite app_nil_r. symmetry. now apply firstn_skipn_all.
  - cbn [matches_from c_pos c_prev c_rest scan]. rewrite match_at_class.
    cbn [filter].
    destruct (cls_match NOFLAGS neg items c) eqn:Ec; cbn [negb].
    + cbn [m_start m_end m_after pieces].
      replace (Nat.eqb (S pos) pos) with false
        by (symmetry; apply Nat.eqb_neq; lia).
      assert (Hs' : skipn (S pos) s = rest).
      { replace (S pos) with (1 + pos)%nat by lia.
        rewrite <- skipn_skipn, Hs. reflexivity. }
      assert (Hrec := IH (S pos) (S pos) (Some c) fuel false
                         (Nat.le_refl _) Hs' ltac:(cbn in Hfuel; lia)).
      rewrite Nat.sub_diag in Hrec. cbn [firstn app] in Hrec.
      rewrite join_cons by apply pieces_nonempty.
      cbn [app]. rewrite Hrec. reflexivity.
    + assert (Hs' : skipn (S pos) s = rest).
      { replace (S pos) with (1 + pos)%nat by lia.
        rewrite <- skipn_skipn, Hs. reflexivity. }
      assert (Hrec := IH from (S pos) (Some c) (S fuel) false
                         ltac:(lia) Hs' ltac:(cbn in Hfuel |- *; lia)).
      cbn [matches_from c_pos c_prev c_rest] in Hrec.
      rewrite Hrec, (firstn_skipn_snoc _ Hle Hs), <- app_assoc.
      reflexivity.
Qed.

Lemma class_sub (s : str) :
  re_sub (Cls neg items) [] s
  = filter (fun c => negb (cls_match NOFLAGS neg items c)) s.
Proof.
  unfold re_sub, finditer, cursor0.
  rewrite (@class_sub_from s s O O None _ false (Nat.le_refl _) eq_refl)
    by lia.
  reflexivity.
Qed.

End SubClass.

(** ** Phone *)

Lemma first_some_app {A B} (f : A -> M (option B)) (l l' : list A) :
  fst (first_some f (l ++ l'))
  = match fst (first_some f l) with
    | Ok None => fst (first_some f l')
    | other => other
    end.
Proof.
  induction l as [| a l IH]; cbn [app first_some]; [reflexivity |].
  rewrite !fst_bind. destruct (fst (f a)) as [[b |] |]; auto.
Qed.

Lemma find_app {A} (p : A -> bool) (l l' : list A) :
  find p (l ++ l')
  = match find p l with Some a => Some a | None => find p l' end.
Proof.
  induction l as [| a l IH]; cbn [app find]; [reflexivity |].
  now destruct (p a).
Qed.

Lemma phone_from_matches {U : UCD} (l : list str) :
  fst (first_some phone_from_match l)
  = Ok (option_map strip (find phone_sized l)).
Proof.
  induction l as [| mtext l IH]; cbn [first_some find]; [reflexivity |].
  rewrite fst_bind. unfold phone_from_match at 1, phone_sized at 1.
  unfold not_digit_or_plus. rewrite class_sub.
  rewrite (filter_ext _ digit_or_plus)
    by (intros c; unfold digit_or_plus, cls_match;
        cbn [existsb item_plain xorb]; rewrite orb_false_r;
        now destruct (isdecimal c), (N.eqb c (chr "+"))).
  destruct (_ && _); cbn [ret fst option_map]; [reflexivity | exact IH].
Qed.

(** X10. The phone extractor returns the first candidate that keeps
    between 10 and 15 characters once everything but digits and plus
    signs is dropped, with surrounding white space removed; candidates
    are the matches of the five phone patterns, pattern after pattern
    and left to right within one pattern.  With no such candidate it
    returns None. *)
Theorem phone_is_first_sized_candidate {U : UCD} (text : str) :
  fst (_extract_phone text)
  = Ok (option_map strip (find phone_sized (phone_candidates text))).
Proof.
  unfold _extract_phone, phone_candidates.
  rewrite fst_bind. cbn [enter emit fst].
  induction phone_patterns as [| pattern patterns IH];
    cbn [first_some flat_map]; [reflexivity |].
  rewrite fst_bind, phone_from_matches, find_app.
  destruct (find phone_sized (re_findall pattern text IGNORECASE));
    cbn [option_map ret fst];
    [reflexivity | exact IH].
Qed.

(** ** The upload endpoint *)

Lemma hoare_ret {A} (P : AppState -> Prop) (a : A) Q E :
  (forall st, P st -> Q a st) -> hoare P (h_ret a) Q E.
Proof. intros HQ st HP. cbn. auto. Qed.

Lemma hoare_fail {A} (P : AppState -> Prop) f (Q : A -> AppState -> Prop) E :
  (forall st, P st -> E f st) -> hoare P (h_fail f) Q E.
Proof. intros HE st HP. cbn. auto. Qed.

Lemma hoare_run {A} (P : AppState -> Prop) (m : M A) Q E :
  (forall a st, P st -> Q a st) ->
  (forall e st, P st -> E (Exception e) st) ->
  hoare P (h_run m) Q E.
Proof.
  intros HQ HE st HP. unfold h_run. destruct m as [[a | e] t]; cbn; auto.
Qed.

Lemma hoare_bind {A B} (P : AppState -> Prop) (c : Handler A)
    (k : A -> Handler B) Q' Q E :
  hoare P c Q' E ->
  (forall a, hoare (Q' a) (k a) Q E) ->
  hoare P (h_bind c k) Q E.
Proof.
  intros Hc Hk st HP. specialize (Hc st HP). unfold h_bind.
  destruct (c st) as [[[a | f] st'] t]; cbn in Hc |- *; [| exact Hc].
  specialize (Hk a st' Hc).
  destruct (k a st') as [[r st''] t']. exact Hk.
Qed.

Lemma hoare_try {A} (P : AppState -> Prop) (c : Handler A)
    (h : failure -> Handler A) Q E' E :
  hoare P c Q E' ->
  (forall f, hoare (E' f) (h f) Q E) ->
  hoare P (h_try c h) Q E.
Proof.
  intros Hc Hh st HP. specialize (Hc st HP). unfold h_try.
  destruct (c st) as [[[a | f] st'] t]; cbn in Hc |- *; [exact Hc |].
  specialize (Hh f st' Hc).
  destruct (h f st') as [[r st''] t']. exact Hh.
Qed.

Lemma hoare_next_id (P : AppState -> Prop) Q E :
  (forall st, P st ->
     Q (next_id st)
       {| candidates := candidates st; next_id := (next_id st + 1)%Z |}) ->
  hoare P get_next_id Q E.
Proof. intros HQ st HP. cbn. auto. Qed.

Lemma hoare_append (P : AppState -> Prop) (c : Candidate) Q E :
  (forall st, P st ->
     Q tt {| candidates := candidates st ++ [c]; next_id := next_id st |}) ->
  hoare P (append_candidate c) Q E.
Proof. intros HQ st HP. cbn. auto. Qed.

(** Steps that leave [app_state] alone keep an invariant. *)
Lemma hoare_run_keep {A} (P : AppState -> Prop) (m : M A) E :
  (forall e st, P st -> E (Exception e) st) ->
  hoare P (h_run m) (fun _ => P) E.
Proof. intros HE. apply hoare_run; auto. Qed.

Lemma hoare_log (P : AppState -> Prop) l msg E :
  hoare P (h_log l msg) (fun _ => P) E.
Proof. intros st HP. exact HP. Qed.

(** A step of the parser's monad whose result is known. *)
Lemma hoare_run_ok {A} (P : AppState -> Prop) (m : M A) (a : A) E :
  fst m = Ok a ->
  hoare P (h_run m) (fun a' st => a' = a /\ P st) E.
Proof.
  intros Hm st HP. unfold h_run. destruct m as [[a' | e] t]; cbn in *.
  - split; [congruence | exact HP].
  - discriminate.
Qed.

Lemma hoare_run_total {A} (P : AppState -> Prop) (m : M A) E :
  (exists a, fst m = Ok a) ->
  hoare P (h_run m) (fun _ => P) E.
Proof.
  intros [a Hm] st HP. unfold h_run. destruct m as [[a' | e] t]; cbn in *.
  - exact HP.
  - discriminate.
Qed.

Lemma hoare_run_raise {A} (P : AppState -> Prop) (m : M A) e
    (Q : A -> AppState -> Prop) E :
  fst m = Raise e ->
  (forall st, P st -> E (Exception e) st) ->
  hoare P (h_run m) Q E.
Proof.
  intros Hm HE st HP. unfold h_run. destruct m as [[a' | e'] t]; cbn in *.
  - discriminate.
  - replace e' with e by congruence. auto.
Qed.

Lemma fallback_never_raises {U : UCD} (content : str) :
  exists p, fst (_fallback_resume_parse content) = Ok p.
Proof.
  unfold _fallback_resume_parse. rewrite fst_bind. cbn [enter emit fst].
  rewrite fst_try. cbn [ret fst]. eexists. reflexivity.
Qed.

Lemma parse_resume_returns {U : UCD} (R : Runtime) (file_path : str) :
  exists p, fst (parse_resume R file_path) = Ok p.
Proof.
  rewrite parse_resume_fst.
  destruct (fst (parse_body R file_path)); eexists; reflexivity.
Qed.

Lemma NoDup_snoc {A} (l : list A) (x : A) :
  NoDup l -> ~ In x l -> NoDup (l ++ [x]).
Proof.
  induction l as [| a l IH]; intros Hnd Hin; cbn [app].
  - constructor; [intros [] | constructor].
  - inversion Hnd as [| a' l' Ha Hl]; subst. constructor.
    + intros H. apply in_app_or in H. destruct H as [H | [H | []]].
      * contradiction.
      * subst. apply Hin. now left.
    + apply IH; [exact Hl |]. intros H. apply Hin. now right.
Qed.

Lemma upload_body_refused {U : UCD} env file job_id st :
  accepted env file = false ->
  upload_body env file job_id st = (Failed (HTTPException 400%Z), st, []).
Proof.
  unfold accepted, upload_body.
  destruct (no_file file); [reflexivity |].
  destruct (existsb _ allowed_extensions); [| reflexivity].
  destruct (too_large env file); [reflexivity | discriminate].
Qed.

Lemma upload_body_accepted {U : UCD} env file job_id :
  accepted env file = true ->
  upload_body env file job_id = upload_accepted env file job_id.
Proof.
  unfold accepted, upload_body.
  destruct (no_file file); [discriminate |].
  destruct (existsb _ allowed_extensions); [| discriminate].
  destruct (too_large env file); [discriminate | reflexivity].
Qed.

(** The parsing step never fails, whatever the parser service. *)
Lemma parse_uploaded_hoare {U : UCD} env content file_path
    (P : AppState -> Prop) (Good : ParsedProfile -> Prop) E :
  (forall R p, resume_parser env = Some R ->
               fst (parse_resume R file_path) = Ok p -> Good p) ->
  (forall p, resume_parser env = None ->
             fst (_fallback_resume_parse content) = Ok p -> Good p) ->
  hoare P (parse_uploaded env content file_path)
        (fun p st => P st /\ Good p) E.
Proof.
  intros HR HF. unfold parse_uploaded.
  destruct (resume_parser env) as [R |].
  - destruct (parse_resume_returns R file_path) as [p Hp].
    specialize (HR R p eq_refl Hp).
    apply hoare_try with (E' := fun _ _ => False); [| intros f st []].
    eapply hoare_bind; [apply (hoare_run_ok P _ _ Hp) |].
    intros a. cbn beta.
    eapply hoare_bind; [apply hoare_log |].
    intros ?. apply hoare_ret. intros st [-> HP]. now split.
  - destruct (fallback_never_raises content) as [p Hp].
    specialize (HF p eq_refl Hp).
    intros st HP. pose proof (hoare_run_ok P _ E Hp st HP) as Hrun.
    destruct (fst (fst (h_run (_fallback_resume_parse content) st)));
      [| exact Hrun].
    destruct Hrun as [-> HP']. now split.
Qed.

Lemma applied_jobs_hoare {U : UCD} env job_id (P : AppState -> Prop) E :
  (forall e st,
     truthy job_id = true ->
     fst (int_of_text (max_str_digits env)
            (match job_id with Some j => j | None => [] end)) = Raise e ->
     P st -> E (Exception e) st) ->
  hoare P (applied_jobs_of env job_id)
        (fun applied st => applied_jobs_value env job_id applied /\ P st) E.
Proof.
  intros HE. unfold applied_jobs_of, applied_jobs_value.
  destruct (truthy job_id).
  - destruct (fst (int_of_text (max_str_digits env)
                     match job_id with Some j => j | None => [] end))
      as [n | e] eqn:Hint.
    + eapply hoare_bind; [apply (hoare_run_ok P _ E Hint) |].
      intros n'. apply hoare_ret. intros st [-> HP]. split; eauto.
    + eapply hoare_bind with (Q' := fun _ _ => False);
        [| intros n st []].
      eapply hoare_run_raise; [exact Hint |]. intros st HP. now apply HE.
  - apply hoare_ret. auto.
Qed.

Lemma db_save_hoare env c (P : AppState -> Prop) E :
  (forall e save st,
     db_save_candidate env = Some save -> save c = Raise e ->
     P st -> E (Exception e) st) ->
  hoare P (db_save env c) (fun _ => P) E.
Proof.
  intros HE. unfold db_save. destruct (db_save_candidate env) as [save |].
  - intros st HP. unfold h_run, lift.
    destruct (save c) as [[] | e] eqn:Es; cbn; eauto.
  - apply hoare_ret. auto.
Qed.

(** The accepted part of the endpoint, step by step.  [P] holds until
    the id is drawn, [Mid] from then until the candidate is stored,
    [Final] afterwards; [Good] is what the parsing step gives.  Each
    failure obligation names the step that failed. *)
Lemma upload_accepted_hoare {U : UCD} env file job_id
    (P : AppState -> Prop) (Good : ParsedProfile -> Prop)
    (Mid : Z -> AppState -> Prop) (Final : Response -> AppState -> Prop)
    (E : failure -> AppState -> Prop) :
  (forall R p, resume_parser env = Some R ->
               fst (parse_resume R (saved_path env file)) = Ok p -> Good p) ->
  (forall content p,
     resume_parser env = None ->
     read file = Ok content ->
     fst (_fallback_resume_parse content) = Ok p -> Good p) ->
  (forall e st, read file = Raise e -> P st -> E (Exception e) st) ->
  (forall e st, write_file env (saved_path env file) = Raise e ->
                P st -> E (Exception e) st) ->
  (forall st, P st -> Mid (next_id st) (id_drawn st)) ->
  (forall e id st,
     truthy job_id = true ->
     fst (int_of_text (max_str_digits env)
            (match job_id with Some j => j | None => [] end)) = Raise e ->
     Mid id st -> E (Exception e) st) ->
  (forall id p applied st,
     Good p -> applied_jobs_value env job_id applied -> Mid id st ->
     Final {| candidate := new_candidate env file (saved_path env file)
                             id p applied;
              parsing_confidence := overall_of p |}
           (stored (new_candidate env file (saved_path env file)
                      id p applied) st)) ->
  (forall e save resp st,
     db_save_candidate env = Some save ->
     save (candidate resp) = Raise e ->
     Final resp st -> E (Exception e) st) ->
  hoare P (upload_accepted env file job_id) Final E.
Proof.
  intros HR HF HEread HEwrite HMid HEint HFinal HEdb. unfold upload_accepted.
  eapply hoare_bind; [apply hoare_log |]. intros ?.
  eapply hoare_bind with (Q' := fun content st =>
                                  read file = Ok content /\ P st).
  { intros st HP. unfold h_run, lift.
    destruct (read file) as [content | e] eqn:Er; cbn; eauto. }
  intros content.
  eapply hoare_bind with (Q' := fun _ st => read file = Ok content /\ P st).
  { intros st [Hr HP]. unfold h_run, lift.
    destruct (write_file env (saved_path env file)) as [[] | e] eqn:Ew;
      cbn; eauto. }
  intros ?.
  eapply hoare_bind; [apply hoare_log |]. intros ?.
  eapply hoare_bind.
  { apply parse_uploaded_hoare with (Good := fun p =>
                                               read file = Ok content
                                               -> Good p).
    - intros R p HRp Hp _. eauto.
    - intros p Hnone Hp Hread. eauto. }
  intros p. cbn beta.
  eapply hoare_bind with (Q' := fun id st => Good p /\ Mid id st).
  { apply hoare_next_id. intros st [[Hread HP] Hgood]. split; auto. }
  intros id.
  eapply hoare_bind.
  { apply applied_jobs_hoare. intros e st Ht Hint [_ HM]. eauto. }
  intros applied. cbn beta.
  eapply hoare_bind with
    (Q' := fun _ st =>
             Final {| candidate := new_candidate env file
                                     (saved_path env file) id p applied;
                      parsing_confidence := overall_of p |} st).
  { apply hoare_append. intros st [Happ [Hgood HM]]. now apply HFinal. }
  intros ?.
  eapply hoare_bind.
  { apply db_save_hoare. intros e save st Hs Hr HFin.
    eapply HEdb; [exact Hs | | exact HFin]. exact Hr. }
  intros ?.
  eapply hoare_bind; [apply hoare_log |]. intros ?.
  apply hoare_ret. auto.
Qed.

Lemma upload_resume_state {U : UCD} env file job_id st :
  snd (fst (upload_resume env file job_id st))
  = snd (fst (upload_body env file job_id st)).
Proof.
  unfold upload_resume.
  destruct (upload_body env file job_id st) as [[[a | [c | e]] st'] t];
    reflexivity.
Qed.

Lemma upload_resume_outcome {U : UCD} env file job_id st :
  fst (fst (upload_resume env file job_id st))
  = match fst (fst (upload_body env file job_id st)) with
    | Failed (Exception _) => Failed (HTTPException 500%Z)
    | other => other
    end.
Proof.
  unfold upload_resume.
  destruct (upload_body env file job_id st) as [[[a | [c | e]] st'] t];
    reflexivity.
Qed.

(** From a triple on the body to the endpoint. *)
Lemma upload_resume_hoare {U : UCD} env file job_id
    (P : AppState -> Prop) Q (E : failure -> AppState -> Prop) st :
  hoare P (upload_body env file job_id) Q E ->
  P st ->
  match fst (fst (upload_resume env file job_id st)) with
  | Returned resp => Q resp (snd (fst (upload_resume env file job_id st)))
  | Failed f =>
      (exists e, f = HTTPException 500%Z
                 /\ E (Exception e)
                      (snd (fst (upload_resume env file job_id st))))
      \/ (exists code, f = HTTPException code
                       /\ E f (snd (fst (upload_resume env file job_id st))))
  end.
Proof.
  intros Hh HP. specialize (Hh st HP).
  rewrite upload_resume_state, upload_resume_outcome.
  destruct (fst (fst (upload_body env file job_id st))) as [resp | [c | e]].
  - exact Hh.
  - right. now exists c.
  - left. now exists e.
Qed.

(** X11. An upload is answered 400 exactly when it has no file name, an
    extension other than .pdf, .docx and .doc, or a size over the limit,
    and then nothing has been logged, written or stored; every other
    upload either returns a response or is answered 500. *)
Theorem upload_answers {U : UCD} (env : Server) (file : UploadFile)
    (job_id : option str) (st : AppState) :
  if accepted env file
  then (exists resp,
          fst (fst (upload_resume env file job_id st)) = Returned resp)
       \/ fst (fst (upload_resume env file job_id st))
          = Failed (HTTPException 500%Z)
  else upload_resume env file job_id st
       = (Failed (HTTPException 400%Z), st, []).
Proof.
  destruct (accepted env file) eqn:Ha.
  - assert (Hh : hoare (fun _ => True) (upload_body env file job_id)
                       (fun _ _ => True)
                       (fun f _ => exists e, f = Exception e)).
    { rewrite upload_body_accepted by exact Ha.
      apply upload_accepted_hoare
        with (Good := fun _ => True) (Mid := fun _ _ => True); eauto. }
    pose proof (@upload_resume_hoare U env file job_id _ _ _ st Hh I) as Hr.
    destruct (fst (fst (upload_resume env file job_id st))) as [resp | f].
    + left. now exists resp.
    + right. destruct Hr as [(e & -> & _) | (code & -> & e & He)];
        [reflexivity | discriminate He].
  - unfold upload_resume. now rewrite upload_body_refused.
Qed.

(** X12. A returned upload has stored exactly one new candidate, at the
    end of the list, under the id that was next, and has moved the next
    id by one.  A failed upload leaves the state as it was, or with one
    id drawn, or, when the database save failed, with the id drawn and
    the candidate stored all the same. *)
Theorem upload_stores_one_candidate {U : UCD} (env : Server)
    (file : UploadFile) (job_id : option str) (st : AppState) :
  match fst (fst (upload_resume env file job_id st)) with
  | Returned resp =>
      snd (fst (upload_resume env file job_id st))
      = stored (candidate resp) (id_drawn st)
      /\ cand_id (candidate resp) = next_id st
  | Failed _ =>
      snd (fst (upload_resume env file job_id st)) = st
      \/ snd (fst (upload_resume env file job_id st)) = id_drawn st
      \/ exists c save e,
           db_save_candidate env = Some save /\ save c = Raise e
           /\ cand_id c = next_id st
           /\ snd (fst (upload_resume env file job_id st))
              = stored c (id_drawn st)
  end.
Proof.
  destruct (accepted env file) eqn:Ha.
  - set (Fin := fun (c : Candidate) (s : AppState) =>
                  s = stored c (id_drawn st) /\ cand_id c = next_id st).
    set (Err := fun (_ : failure) (s : AppState) =>
                  s = st \/ s = id_drawn st
                  \/ exists c save e,
                       db_save_candidate env = Some save /\ save c = Raise e
                       /\ cand_id c = next_id st
                       /\ s = stored c (id_drawn st)).
    assert (Hh : hoare (fun s => s = st) (upload_body env file job_id)
                       (fun resp s => Fin (candidate resp) s) Err).
    { rewrite upload_body_accepted by exact Ha.
      apply upload_accepted_hoare
        with (Good := fun _ => True)
             (Mid := fun id s => id = next_id st /\ s = id_drawn st);
        unfold Fin, Err.
      - auto.
      - auto.
      - intros e s _ ->. now left.
      - intros e s _ ->. now left.
      - intros s ->. now split.
      - intros e id s _ _ [_ ->]. right. now left.
      - intros id p applied s _ _ [-> ->]. cbn [candidate]. now split.
      - intros e save resp s Hs Hr [-> Hid]. right. right.
        now exists (candidate resp), save, e. }
    pose proof (@upload_resume_hoare U env file job_id _ _ _ st Hh eq_refl) as Hr.
    destruct (fst (fst (upload_resume env file job_id st))) as [resp | f].
    + exact Hr.
    + destruct Hr as [(e & _ & He) | (code & _ & He)]; exact He.
  - unfold upload_resume. rewrite upload_body_refused by exact Ha.
    cbn. now left.
Qed.

(** X13. Uploads keep candidate ids fresh: when the stored candidates
    have pairwise different ids, all below the next id, the same holds
    after any upload, returned or failed, and the next id has not gone
    down. *)
Theorem upload_keeps_ids_fresh {U : UCD} (env : Server) (file : UploadFile)
    (job_id : option str) (st : AppState) :
  ids_fresh st ->
  ids_fresh (snd (fst (upload_resume env file job_id st)))
  /\ (next_id st <= next_id (snd (fst (upload_resume env file job_id st))))%Z.
Proof.
  intros Hst.
  set (Inv := fun s => ids_fresh s /\ (next_id st <= next_id s)%Z).
  assert (Hh : hoare Inv (upload_body env file job_id)
                     (fun _ => Inv) (fun _ => Inv)).
  { destruct (accepted env file) eqn:Ha.
    - rewrite upload_body_accepted by exact Ha.
      apply upload_accepted_hoare
        with (Good := fun _ => True)
             (Mid := fun id s =>
                       NoDup (map cand_id (candidates s))
                       /\ Forall (fun c => (cand_id c < id)%Z) (candidates s)
                       /\ (id < next_id s)%Z
                       /\ (next_id st <= next_id s)%Z);
        unfold Inv, ids_fresh; auto.
      + intros s [[Hnd Hlt] Hle]. cbn. repeat split; auto; lia.
      + intros e id s _ _ (Hnd & Hlt & Hid & Hle). repeat split; auto.
        eapply Forall_impl; [| exact Hlt]. cbn. intros; lia.
      + intros id p applied s _ _ (Hnd & Hlt & Hid & Hle).
        cbn [stored candidates next_id]. repeat split; auto.
        * rewrite map_app. cbn [map new_candidate cand_id].
          apply NoDup_snoc; [exact Hnd |].
          intros Hin. apply in_map_iff in Hin.
          destruct Hin as (c & Hc & Hin).
          rewrite Forall_forall in Hlt. specialize (Hlt c Hin). lia.
        * apply Forall_app. split.
          -- eapply Forall_impl; [| exact Hlt]. cbn. intros; lia.
          -- constructor; [cbn; lia | constructor].
    - intros s HI. rewrite upload_body_refused by exact Ha. exact HI. }
  assert (HI : Inv st) by (split; [exact Hst | lia]).
  pose proof (@upload_resume_hoare U env file job_id _ _ _ st Hh HI) as Hr.
  destruct (fst (fst (upload_resume env file job_id st))) as [resp | f].
  - exact Hr.
  - destruct Hr as [(e & _ & He) | (code & _ & He)]; exact He.
Qed.

Lemma upload_keeps_ids_fresh_witness :
  ids_fresh fresh_state
  /\ ids_fresh
       (snd (fst (upload_resume (U := ascii_ucd)
                    (sample_server (Some (docx_runtime (u "Jane Doe"))))
                    sample_upload None fresh_state))).
Proof.
  assert (H0 : ids_fresh fresh_state)
    by (split; cbn; constructor).
  split; [exact H0 |].
  exact (proj1 (upload_keeps_ids_fresh (U := ascii_ucd)
                  (sample_server (Some (docx_runtime (u "Jane Doe"))))
                  sample_upload None H0)).
Defined.

(** X14. A job id that [int] rejects costs an id: when an accepted upload
    has been read and written and its job id is not empty and not a
    number, the answer is 500, no candidate is stored, and the next id
    has moved by one all the same. *)
Theorem job_id_not_a_number_loses_an_id {U : UCD} (env : Server)
    (file : UploadFile) (job_id content : str) (e : exn) (st : AppState) :
  accepted env file = true ->
  read file = Ok content ->
  write_file env (saved_path env file) = Ok tt ->
  nonempty job_id = true ->
  fst (int_of_text (max_str_digits env) job_id) = Raise e ->
  fst (fst (upload_resume env file (Some job_id) st))
  = Failed (HTTPException 500%Z)
  /\ snd (fst (upload_resume env file (Some job_id) st)) = id_drawn st.
Proof.
  intros Ha Hread Hwrite Hj Hint.
  assert (Hh : hoare (fun s => s = st) (upload_body env file (Some job_id))
                     (fun _ _ => False)
                     (fun f s => (exists e', f = Exception e')
                                 /\ s = id_drawn st)).
  { rewrite upload_body_accepted by exact Ha.
    apply upload_accepted_hoare
      with (Good := fun _ => True) (Mid := fun _ s => s = id_drawn st);
      auto.
    - intros e' s He'. congruence.
    - intros e' s He'. congruence.
    - intros s ->. reflexivity.
    - intros e' id s _ _ ->. eauto.
    - intros id p applied s _ Happ _. unfold applied_jobs_value in Happ.
      cbn [truthy] in Happ. rewrite Hj in Happ.
      destruct Happ as (n & Hn & _). congruence.
    - intros e' save resp s _ _ []. }
  pose proof (@upload_resume_hoare U env file (Some job_id) _ _ _ st Hh
                eq_refl) as Hr.
  destruct (fst (fst (upload_resume env file (Some job_id) st)))
    as [resp | f]; [contradiction |].
  destruct Hr as [(e' & -> & _ & Hs) | (code & -> & (e' & He') & _)];
    [now split | discriminate He'].
Qed.

Lemma job_id_not_a_number_loses_an_id_witness :
  fst (fst (upload_resume (U := ascii_ucd) (sample_server None)
              sample_upload (Some (u "backend")) fresh_state))
  = Failed (HTTPException 500%Z)
  /\ snd (fst (upload_resume (U := ascii_ucd) (sample_server None)
                 sample_upload (Some (u "backend")) fresh_state))
     = id_drawn fresh_state.
Proof.
  apply (job_id_not_a_number_loses_an_id (U := ascii_ucd)
           (sample_server None) sample_upload (u "backend")
           (content := u "Jane Doe") (e := ValueError) fresh_state);
    reflexivity.
Defined.

Lemma parse_resume_overall {U : UCD} (R : Runtime) (file_path : str)
    (p : ParsedProfile) :
  fst (parse_resume R file_path) = Ok p ->
  (p = _create_empty_result /\ overall_of p = zero)
  \/ (p <> _create_empty_result
      /\ (1 # 10 <= overall_of p)%Q /\ (overall_of p <= 9 # 10)%Q).
Proof.
  intros Hp.
  destruct (parse_resume_cases R file_path) as [H | (text & p' & H)].
  - left. rewrite H in Hp. apply Ok_inj in Hp. subst p. now split.
  - destruct H as (_ & _ & Ha & Hp'). rewrite Hp' in Hp.
    apply Ok_inj in Hp. subst p'.
    destruct Ha as (vn & ve & vp & vs & vx & vd & vw & vl & vy & Ha).
    destruct Ha as (_ & _ & _ & _ & _ & _ & _ & _ & _ & ->).
    right. split; [apply assembled_not_empty |].
    unfold overall_of, assemble. cbn [confidence_scores].
    match goal with
    | |- context [_calculate_confidence_scores ?pd text] =>
        destruct (scorer_bounds pd text) as [_ (v & Hv & Hlo & Hhi)]
    end.
    rewrite Hv. now split.
Qed.

(** X15. With the parser service present the fallback is never used: the
    candidate of a returned upload is built from the profile
    [parse_resume] gives for the saved file, and the reported confidence
    is that profile's overall score, which is 0 with the name
    "Unknown Candidate" when the parse came back empty and between 0.1
    and 0.9 otherwise (bounds that hold of the floating-point mean the
    code stores as well as of the rational mean of the model). *)
Theorem upload_with_parser_uses_its_profile {U : UCD} (env : Server)
    (R : Runtime) (file : UploadFile) (job_id : option str)
    (st : AppState) (resp : Response) :
  resume_parser env = Some R ->
  fst (fst (upload_resume env file job_id st)) = Returned resp ->
  exists p applied,
    fst (parse_resume R (saved_path env file)) = Ok p
    /\ candidate resp
       = new_candidate env file (saved_path env file) (next_id st) p applied
    /\ parsing_confidence resp = overall_of p
    /\ ((p = _create_empty_result
         /\ parsing_confidence resp = zero
         /\ cand_name (candidate resp) = u "Unknown Candidate")
        \/ (p <> _create_empty_result
            /\ (1 # 10 <= parsing_confidence resp)%Q
            /\ (parsing_confidence resp <= 9 # 10)%Q)).
Proof.
  intros HR Hret.
  destruct (accepted env file) eqn:Ha.
  - set (Fin := fun (r : Response) (_ : AppState) =>
                  exists p applied,
                    fst (parse_resume R (saved_path env file)) = Ok p
                    /\ candidate r
                       = new_candidate env file (saved_path env file)
                           (next_id st) p applied
                    /\ parsing_confidence r = overall_of p).
    assert (Hh : hoare (fun s => s = st) (upload_body env file job_id)
                       Fin (fun _ _ => True)).
    { rewrite upload_body_accepted by exact Ha.
      apply upload_accepted_hoare
        with (Good := fun p =>
                        fst (parse_resume R (saved_path env file)) = Ok p)
             (Mid := fun id _ => id = next_id st);
        unfold Fin; auto.
      - intros R' p HR' Hp. congruence.
      - intros content p Hnone. congruence.
      - intros s ->. reflexivity.
      - intros id p applied s Hp _ ->. exists p, applied. now split. }
    pose proof (@upload_resume_hoare U env file job_id _ _ _ st Hh eq_refl)
      as Hr.
    rewrite Hret in Hr. destruct Hr as (p & applied & Hp & Hc & Hconf).
    exists p, applied. repeat (split; [assumption |]).
    destruct (parse_resume_overall R _ Hp) as [[-> Hz] | (Hne & Hlo & Hhi)].
    + left. split; [reflexivity |]. rewrite Hconf, Hc.
      split; [exact Hz | reflexivity].
    + right. rewrite Hconf. now split.
  - unfold upload_resume in Hret.
    rewrite upload_body_refused in Hret by exact Ha. discriminate Hret.
Qed.

Lemma upload_with_parser_uses_its_profile_witness :
  exists resp p,
    fst (fst (upload_resume (U := ascii_ucd)
                (sample_server (Some (docx_runtime (u "Jane Doe"))))
                sample_upload None fresh_state)) = Returned resp
    /\ fst (parse_resume (U := ascii_ucd) (docx_runtime (u "Jane Doe"))
              (saved_path (U := ascii_ucd)
                 (sample_server (Some (docx_runtime (u "Jane Doe"))))
                 sample_upload)) = Ok p
    /\ parsing_confidence resp = overall_of p.
Proof.
  assert (Hret : exists resp,
             fst (fst (upload_resume (U := ascii_ucd)
                         (sample_server (Some (docx_runtime (u "Jane Doe"))))
                         sample_upload None fresh_state)) = Returned resp)
    by (eexists; vm_compute; reflexivity).
  destruct Hret as [resp Hret]. exists resp.
  destruct (upload_with_parser_uses_its_profile (U := ascii_ucd)
              (sample_server (Some (docx_runtime (u "Jane Doe"))))
              (R := docx_runtime (u "Jane Doe"))
              sample_upload None fresh_state eq_refl Hret)
    as (p & applied & Hp & _ & Hc & _).
  exists p. split; [exact Hret |]. split; [exact Hp | exact Hc].
Defined.

(** ** The fallback parser *)




(** The dict the fallback returns. *)
Lemma fallback_result {U : UCD} (content : str) :
  exists p,
    fst (_fallback_resume_parse content) = Ok p
    /\ name p
       = Some (match find short_capitalised_line
                       (map strip (firstn 10 (split_on 10%N content))) with
               | Some n => if nonempty n then n else u "Unknown"
               | None => u "Unknown"
               end)
    /\ skills p
       = filter (fun skill => contains (str_lower skill) (str_lower content))
                basic_skills
    /\ raw_text p = firstn 500 content
    /\ confidence_scores p = [("overall"%string, (3 # 10)%Q)]
    /\ experience p = None /\ education p = None /\ location p = None
    /\ work_history p = [].
Proof.
  unfold _fallback_resume_parse. rewrite fst_bind. cbn [enter emit fst].
  rewrite fst_try. cbn [ret fst]. eexists. split; [reflexivity |].
  cbn [name skills raw_text confidence_scores experience education location
       work_history].
  repeat split; reflexivity.
Qed.





(** X17. Without the parser service every returned upload comes from the
    fallback parser run on the uploaded content: the reported confidence
    is 0.3, the candidate has a name that is not empty, and no
    experience, education or location. *)
Theorem upload_without_parser_uses_fallback {U : UCD} (env : Server)
    (file : UploadFile) (job_id : option str) (st : AppState)
    (resp : Response) :
  resume_parser env = None ->
  fst (fst (upload_resume env file job_id st)) = Returned resp ->
  exists content p applied,
    read file = Ok content
    /\ fst (_fallback_resume_parse content) = Ok p
    /\ candidate resp
       = new_candidate env file (saved_path env file) (next_id st) p applied
    /\ parsing_confidence resp = (3 # 10)%Q
    /\ cand_name (candidate resp) <> []
    /\ cand_experience (candidate resp) = None
    /\ cand_education (candidate resp) = None
    /\ cand_location (candidate resp) = None.
Proof.
  intros Hnone Hret.
  destruct (accepted env file) eqn:Ha.
  - set (Fin := fun (r : Response) (_ : AppState) =>
                  exists content p applied,
                    read file = Ok content
                    /\ fst (_fallback_resume_parse content) = Ok p
                    /\ candidate r
                       = new_candidate env file (saved_path env file)
                           (next_id st) p applied
                    /\ parsing_confidence r = overall_of p).
    assert (Hh : hoare (fun s => s = st) (upload_body env file job_id)
                       Fin (fun _ _ => True)).
    { rewrite upload_body_accepted by exact Ha.
      apply upload_accepted_hoare
        with (Good := fun p =>
                        exists content,
                          read file = Ok content
                          /\ fst (_fallback_resume_parse content) = Ok p)
             (Mid := fun id _ => id = next_id st);
        unfold Fin; auto.
      - intros R p HR. congruence.
      - intros content p _ Hread Hp. now exists content.
      - intros s ->. reflexivity.
      - intros id p applied s (content & Hread & Hp) _ ->.
        exists content, p, applied. now repeat split. }
    pose proof (@upload_resume_hoare U env file job_id _ _ _ st Hh eq_refl)
      as Hr.
    rewrite Hret in Hr.
    destruct Hr as (content & p & applied & Hread & Hp & Hc & Hconf).
    exists content, p, applied.
    split; [exact Hread |]. split; [exact Hp |]. split; [exact Hc |].
    destruct (fallback_result content)
      as (p' & Hp' & Hname & _ & _ & Hscores & Hx & Hd & Hl & _).
    rewrite Hp in Hp'. apply Ok_inj in Hp'. subst p'.
    rewrite Hconf, Hc. unfold overall_of.
    cbn [new_candidate cand_name cand_experience cand_education
         cand_location].
    rewrite Hscores, Hname, Hx, Hd, Hl. cbn [dict_get String.eqb].
    split; [reflexivity |]. split; [| now repeat split].
    destruct (find short_capitalised_line _) as [[| c n] |];
      cbn [nonempty]; discriminate.
  - unfold upload_resume in Hret.
    rewrite upload_body_refused in Hret by exact Ha. discriminate Hret.
Qed.

Lemma upload_without_parser_uses_fallback_witness :
  exists resp,
    fst (fst (upload_resume (U := ascii_ucd) (sample_server None)
                sample_upload None fresh_state)) = Returned resp
    /\ parsing_confidence resp = (3 # 10)%Q
    /\ cand_name (candidate resp) <> [].
Proof.
  assert (Hret : exists resp,
             fst (fst (upload_resume (U := ascii_ucd) (sample_server None)
                         sample_upload None fresh_state)) = Returned resp)
    by (eexists; vm_compute; reflexivity).
  destruct Hret as [resp Hret]. exists resp.
  destruct (upload_without_parser_uses_fallback (U := ascii_ucd)
              (sample_server None) sample_upload None fresh_state
              eq_refl Hret)
    as (content & p & applied & _ & _ & _ & Hconf & Hname & _).
  split; [exact Hret |]. split; [exact Hconf | exact Hname].
Defined.

(** ** Where an upload is saved *)

Lemma rfind_from_app (c : char) (a : str) :
  forall b i found,
    rfind_from c (a ++ b) i found
    = rfind_from c b (i + Z.of_nat (List.length a))%Z (rfind_from c a i found).
Proof.
  induction a as [| x a IH]; intros b i found; cbn [app rfind_from List.length].
  - now rewrite Z.add_0_r.
  - rewrite IH. f_equal. lia.
Qed.

Lemma rfind_from_absent (c : char) (s : str) :
  forallb (fun x => negb (char_eqb x c)) s = true ->
  forall i found, rfind_from c s i found = found.
Proof.
  induction s as [| x s IH]; intros H i found; cbn [rfind_from];
    [reflexivity |].
  cbn [forallb] in H. apply andb_true_iff in H as [Hx Hs].
  apply negb_true_iff in Hx. rewrite Hx. now apply IH.
Qed.

Lemma plain_no_dot (s : str) :
  forallb plain_char s = true ->
  forallb (fun x => negb (char_eqb x (chr "."))) s = true.
Proof.
  intros H. rewrite forallb_forall in *. intros x Hx.
  specialize (H x Hx). unfold plain_char in H.
  now apply andb_true_iff in H as [H _].
Qed.

Lemma plain_no_slash (s : str) :
  forallb plain_char s = true ->
  forallb (fun x => negb (char_eqb x (chr "/"))) s = true.
Proof.
  intros H. rewrite forallb_forall in *. intros x Hx.
  specialize (H x Hx). unfold plain_char in H.
  now apply andb_true_iff in H as [_ H].
Qed.

(** The extension of a path whose last component is a dot-free stem
    followed by a dot and a dot-free suffix. *)
Lemma splitext_of_stem (pre stem suffix : str) :
  rfind (chr "/") pre = (Z.of_nat (List.length pre) - 1)%Z ->
  stem <> [] ->
  forallb plain_char stem = true ->
  forallb plain_char suffix = true ->
  splitext_ext (pre ++ stem ++ chr "." :: suffix) = chr "." :: suffix.
Proof.
  intros Hpre Hne Hstem Hsuffix.
  assert (Hsep : rfind (chr "/") (pre ++ stem ++ chr "." :: suffix)
                 = (Z.of_nat (List.length pre) - 1)%Z).
  { unfold rfind in *. rewrite rfind_from_app, Hpre, rfind_from_app.
    rewrite (rfind_from_absent _ _ (plain_no_slash _ Hstem)).
    apply rfind_from_absent. cbn [forallb].
    now rewrite (plain_no_slash _ Hsuffix). }
  assert (Hdot : rfind (chr ".") (pre ++ stem ++ chr "." :: suffix)
                 = Z.of_nat (List.length pre + List.length stem)).
  { unfold rfind. rewrite rfind_from_app, rfind_from_app.
    cbn [rfind_from]. unfold char_eqb at 1. rewrite N.eqb_refl.
    rewrite (rfind_from_absent _ _ (plain_no_dot _ Hsuffix)). lia. }
  unfold splitext_ext. rewrite Hsep, Hdot.
  replace (Z.of_nat (List.length pre) - 1
           <? Z.of_nat (List.length pre + List.length stem))%Z with true
    by (symmetry; apply Z.ltb_lt; lia).
  replace (Z.to_nat (Z.of_nat (List.length pre) - 1 + 1))
    with (List.length pre) by lia.
  rewrite Nat2Z.id.
  replace (List.length pre + List.length stem - List.length pre)%nat
    with (List.length stem) by lia.
  rewrite skipn_app, skipn_all, Nat.sub_diag. cbn [skipn app].
  rewrite firstn_app, firstn_all, Nat.sub_diag. cbn [firstn].
  rewrite app_nil_r.
  assert (Hex : existsb (fun c => negb (char_eqb c (chr "."))) stem = true).
  { destruct stem as [| c stem]; [contradiction |].
    cbn [forallb] in Hstem. apply andb_true_iff in Hstem as [Hc _].
    unfold plain_char in Hc. apply andb_true_iff in Hc as [Hc _].
    cbn [existsb]. now rewrite Hc. }
  rewrite Hex.
  rewrite app_assoc, skipn_app, length_app, Nat.sub_diag.
  rewrite skipn_all2 by (rewrite length_app; lia). reflexivity.
Qed.

Lemma rfind_last (c : char) (s : str) :
  rfind c (s ++ [c]) = (Z.of_nat (List.length (s ++ [c])) - 1)%Z.
Proof.
  unfold rfind. rewrite rfind_from_app. cbn [rfind_from].
  unfold char_eqb. rewrite N.eqb_refl, length_app. cbn [List.length]. lia.
Qed.

Lemma endswith_one (c : char) (s : str) :
  endswith [c] s = true -> exists s', s = s' ++ [c].
Proof.
  unfold endswith. cbn [rev app]. intros H.
  destruct (rev s) as [| x r] eqn:Er; [discriminate |].
  cbn [startswith] in H. apply andb_true_iff in H as [Hx _].
  unfold char_eqb in Hx. apply N.eqb_eq in Hx. subst x.
  exists (rev r). rewrite <- (rev_involutive s), Er. reflexivity.
Qed.

(** [os.path.join] puts a stem that does not start with a slash after
    the directory, with a slash between them unless the directory is
    empty or ends with one. *)
Lemma path_join_stem (dir stem rest : str) (c : char) :
  char_eqb c (chr "/") = false ->
  exists pre,
    path_join dir ((c :: stem) ++ rest) = pre ++ (c :: stem) ++ rest
    /\ rfind (chr "/") pre = (Z.of_nat (List.length pre) - 1)%Z.
Proof.
  intros Hc. unfold path_join.
  replace (startswith (u "/") ((c :: stem) ++ rest)) with false.
  2:{ cbn [app]. change (u "/") with [chr "/"]. cbn [startswith].
      unfold char_eqb in *. rewrite N.eqb_sym, Hc. reflexivity. }
  destruct dir as [| d dir]; cbn [nonempty negb orb].
  - exists []. split; reflexivity.
  - destruct (endswith (u "/") (d :: dir)) eqn:Ee.
    + exists (d :: dir). split; [reflexivity |].
      change (u "/") with [chr "/"] in Ee.
      apply endswith_one in Ee. destruct Ee as [s' ->]. apply rfind_last.
    + exists ((d :: dir) ++ u "/"). split; [now rewrite <- app_assoc |].
      change (u "/") with [chr "/"]. apply rfind_last.
Qed.

Lemma uuid_like_plain (s : str) :
  uuid_like s = true -> s <> [] /\ forallb plain_char s = true.
Proof.
  unfold uuid_like. intros H. apply andb_true_iff in H as [Hlen Hall].
  apply Nat.eqb_eq in Hlen. split; [intros ->; discriminate Hlen |].
  rewrite forallb_forall in *. intros c Hc. specialize (Hall c Hc).
  unfold plain_char, char_eqb, in_range in *.
  change (chr "0") with 48%N in Hall. change (chr "9") with 57%N in Hall.
  change (chr "a") with 97%N in Hall. change (chr "f") with 102%N in Hall.
  change (chr "-") with 45%N in Hall.
  change (chr ".") with 46%N. change (chr "/") with 47%N.
  destruct (N.eqb_spec c 46) as [-> | _]; [discriminate Hall |].
  destruct (N.eqb_spec c 47) as [-> | _]; [discriminate Hall |].
  reflexivity.
Qed.

(** X18. An accepted upload is saved under a path whose extension is the
    lower-cased extension of the uploaded name, so the parser reads it
    with its PDF loader when that is .pdf and with its DOCX loader when
    it is .docx or .doc, and never as a text file. *)
Theorem upload_reaches_document_loader {U : UCD} (env : Server)
    (file : UploadFile) (R : Runtime) :
  accepted env file = true ->
  uuid_like (uuid4 env) = true ->
  (forall ext, In ext allowed_extensions -> str_lower ext = ext) ->
  file_extension (saved_path env file) = upload_extension file
  /\ In (upload_extension file) allowed_extensions
  /\ fst (_extract_text_from_file R (saved_path env file))
     = if str_eqb (upload_extension file) (u ".pdf")
       then fst (_extract_pdf_text R (saved_path env file))
       else fst (_extract_docx_text R (saved_path env file)).
Proof.
  intros Ha Hid Hlower.
  assert (Hin : In (upload_extension file) allowed_extensions).
  { unfold accepted in Ha. apply andb_true_iff in Ha as [Ha _].
    apply andb_true_iff in Ha as [_ Ha]. apply existsb_exists in Ha.
    destruct Ha as (ext & Hext & Heq). apply str_eqb_eq in Heq.
    now rewrite Heq. }
  assert (Hsplit : splitext_ext (saved_path env file)
                   = upload_extension file).
  { unfold saved_path.
    destruct (uuid_like_plain _ Hid) as [Hne Hplain].
    destruct (uuid4 env) as [| c stem] eqn:Eid; [contradiction |].
    assert (Hc : char_eqb c (chr "/") = false).
    { cbn [forallb] in Hplain. apply andb_true_iff in Hplain as [Hc _].
      unfold plain_char in Hc. apply andb_true_iff in Hc as [_ Hc].
      now apply negb_true_iff in Hc. }
    destruct (@path_join_stem (upload_dir env) stem (upload_extension file)
                c Hc)
      as (pre & -> & Hpre).
    destruct Hin as [<- | [<- | [<- | []]]];
      apply (splitext_of_stem pre (stem := c :: stem)); auto;
      try discriminate; reflexivity. }
  assert (Hext : file_extension (saved_path env file)
                 = upload_extension file).
  { unfold file_extension. rewrite Hsplit. now apply Hlower. }
  split; [exact Hext |]. split; [exact Hin |].
  destruct Hin as [Hp | [Hd | [Hd | []]]]; rewrite <- Hp || rewrite <- Hd.
  - rewrite <- Hp in Hext.
    replace (str_eqb (u ".pdf") (u ".pdf")) with true by reflexivity.
    now apply loader_pdf.
  - rewrite <- Hd in Hext.
    replace (str_eqb (u ".docx") (u ".pdf")) with false by reflexivity.
    apply loader_docx. now left.
  - rewrite <- Hd in Hext.
    replace (str_eqb (u ".doc") (u ".pdf")) with false by reflexivity.
    apply loader_docx. now right.
Qed.

Lemma upload_reaches_document_loader_witness :
  file_extension (U := ascii_ucd)
    (saved_path (U := ascii_ucd) (sample_server None) sample_upload)
  = u ".docx".
Proof.
  destruct (upload_reaches_document_loader (U := ascii_ucd)
              (sample_server None) sample_upload
              (docx_runtime (u "Jane Doe")))
    as (H & _).
  - reflexivity.
  - reflexivity.
  - intros ext [<- | [<- | [<- | []]]]; reflexivity.
  - exact H.
Defined.
